(** * sitescan-repair: the PDF text extraction engine of backend/pdfParser.js

    A shallow embedding of the extraction, cross-referencing and statistics
    code of [backend/pdfParser.js] (and of its sibling on pdf2json,
    [parsePDFWithPositioning] of [backend/check-position.js], from the
    reconstructed text on), with the properties its specification states
    about it; and, of the code that uses the parsed data, the entry search
    of [backend/server.js] and the label helpers of the frontend table of
    inspection reports.

    Conventions.
    - A JavaScript string is a [string]; each [ascii] stands for the UTF-16
      code unit of the same number, so texts range over code units 0..255.
    - A regular expression of the source is a term of [regex], run by a
      backtracking matcher that follows the ECMAScript matching rules
      (priority of alternatives, greedy and lazy quantifiers, the empty
      check of quantifiers, lookahead, multiline anchors).
    - A JavaScript number is a [number]: [NaN], an infinity, or a finite
      value given by the rational it denotes.  [parseInt] returns the
      Number value of the integer it reads: the integer itself up to 2^53,
      the nearest double (ties to even) beyond, and an infinity past the
      range of doubles.  [parseFloat] returns the exact decimal value of the
      text it reads (JavaScript then rounds it to the nearest double;
      rounding is monotone and fixes the thresholds and literals this
      development compares against).
    - An object whose properties are assigned one by one (a report) is a
      record of [option] fields: [None] is a property never assigned. *)

From Stdlib Require Import Ascii String QArith Lqa.
From stdpp Require Import gmap strings list.

Local Open Scope nat_scope.

(* ===================================================================== *)
(** ** Characters and character classes *)
(* ===================================================================== *)

Module Chars.

Definition code (a : ascii) : nat := nat_of_ascii a.

Definition in_range (lo hi : nat) (a : ascii) : bool :=
  (lo <=? code a) && (code a <=? hi).

(** [\d] *)
Definition is_digit (a : ascii) : bool := in_range 48 57 a.
(** [[A-Z]] *)
Definition is_upper (a : ascii) : bool := in_range 65 90 a.
(** [[a-z]] *)
Definition is_lower (a : ascii) : bool := in_range 97 122 a.
(** [\w] *)
Definition is_word (a : ascii) : bool :=
  is_digit a || is_upper a || is_lower a || (code a =? 95).
(** [\s], and the characters [String.prototype.trim] strips: TAB, LF, VT,
    FF, CR, SP and NBSP are the white space and line terminators among the
    code units 0..255. *)
Definition is_space (a : ascii) : bool :=
  in_range 9 13 a || (code a =? 32) || (code a =? 160).
(** The line terminators after which [^] and before which [$] match under
    the [m] flag. *)
Definition is_line_terminator (a : ascii) : bool :=
  (code a =? 10) || (code a =? 13).

Definition is_chr (c : ascii) (a : ascii) : bool := Ascii.eqb c a.

Definition to_upper (a : ascii) : ascii :=
  if is_lower a then ascii_of_nat (code a - 32) else a.

(** A pattern character under the [i] flag.  The patterns of the source
    are ASCII; Canonicalize never maps a code unit of 128 or more to an
    ASCII one, so only the two ASCII cases of a letter match it. *)
Definition is_nocase (c : ascii) (a : ascii) : bool :=
  Ascii.eqb (to_upper c) (to_upper a).

Definition nl : ascii := ascii_of_nat 10.
Definition cr : ascii := ascii_of_nat 13.

End Chars.

(* ===================================================================== *)
(** ** Regular expressions and the backtracking matcher *)
(* ===================================================================== *)

Module Regex.

Inductive regex : Type :=
| Eps
| Cls (f : ascii -> bool)                      (* one character of a class *)
| Seq (r1 r2 : regex)
| Alt (r1 r2 : regex)                          (* r1|r2 *)
| Rep (greedy : bool) (lo : nat) (hi : option nat) (r : regex)
                                               (* r{lo,hi}, r{lo,} *)
| Grp (n : nat) (r : regex)                    (* n-th capturing group *)
| Bol (multiline : bool)                       (* ^ *)
| Eol (multiline : bool)                       (* $ *)
| Look (r : regex).                            (* (?=r) *)

(** A position in the subject: the character before it ([None] at index
    0) and the text from it on. *)
Record pos : Type := Pos { prev : option ascii; rest : string }.

Definition caps : Type := nat -> option string.

Definition no_caps : caps := fun _ => None.

Definition set_cap (n : nat) (s : string) (c : caps) : caps :=
  fun m => if m =? n then Some s else c m.

(** The text between a position and a later one in the same subject. *)
Definition consumed (s : string) (p' : pos) : string :=
  substring 0 (String.length s - String.length (rest p')) s.

Definition cont : Type := pos -> caps -> option (pos * caps).

Definition at_bol (ml : bool) (p : pos) : bool :=
  match prev p with
  | None => true
  | Some a => ml && Chars.is_line_terminator a
  end.

Definition at_eol (ml : bool) (p : pos) : bool :=
  match rest p with
  | EmptyString => true
  | String a _ => ml && Chars.is_line_terminator a
  end.

(** RepeatMatcher: [mr] matches one iteration.  An iteration that is not
    required ([lo = 0]) and consumes nothing fails.  Every iteration
    either lowers [lo] or shortens the rest, which bounds their number by
    [fuel].  (ECMAScript also clears, before each iteration, the captures
    of the groups inside the quantified pattern; no pattern of the source
    has a group under a quantifier.) *)
Fixpoint rep_loop (mr : cont -> cont) (greedy : bool) (fuel lo : nat)
         (hi : option nat) (k : cont) (p : pos) (c : caps)
  : option (pos * caps) :=
  match fuel with
  | 0 => None
  | S fuel' =>
      match hi with
      | Some 0 => k p c
      | _ =>
          let d : cont := fun p' c' =>
            if (lo =? 0) && (String.length (rest p') =? String.length (rest p))
            then None
            else rep_loop mr greedy fuel' (Nat.pred lo) (Nat.pred <$> hi) k p' c' in
          if 0 <? lo then mr d p c
          else if greedy then
            match mr d p c with
            | Some x => Some x
            | None => k p c
            end
          else
            match k p c with
            | Some x => Some x
            | None => mr d p c
            end
      end
  end.

Fixpoint rmatch (r : regex) (k : cont) (p : pos) (c : caps)
  : option (pos * caps) :=
  match r with
  | Eps => k p c
  | Cls f =>
      match rest p with
      | String a s => if f a then k (Pos (Some a) s) c else None
      | EmptyString => None
      end
  | Seq r1 r2 => rmatch r1 (rmatch r2 k) p c
  | Alt r1 r2 =>
      match rmatch r1 k p c with
      | Some x => Some x
      | None => rmatch r2 k p c
      end
  | Rep g lo hi r1 =>
      rep_loop (rmatch r1) g (lo + String.length (rest p) + 1) lo hi k p c
  | Grp n r1 =>
      rmatch r1 (fun p' c' => k p' (set_cap n (consumed (rest p) p') c')) p c
  | Bol ml => if at_bol ml p then k p c else None
  | Eol ml => if at_eol ml p then k p c else None
  | Look r1 =>
      match rmatch r1 (fun p' c' => Some (p', c')) p c with
      | Some (_, c') => k p c'
      | None => None
      end
  end.

Definition accept : cont := fun p c => Some (p, c).

(** The result of a successful match: where it starts, the matched text
    ([m[0]]), the captures ([m[n]]) and the position after it. *)
Record mres : Type := MRes {
  index : nat;
  matched : string;
  group : caps;
  after : pos
}.

(** RegExpBuiltinExec from index [i] (the text [s] starts there): the
    leftmost position at which the pattern matches. *)
Fixpoint exec_from (r : regex) (pv : option ascii) (s : string) (i : nat)
  : option mres :=
  match rmatch r accept (Pos pv s) no_caps with
  | Some (p', c) => Some (MRes i (consumed s p') c p')
  | None =>
      match s with
      | EmptyString => None
      | String a s' => exec_from r (Some a) s' (S i)
      end
  end.

(** [s.match(r)] for a pattern without the [g] flag; [r.exec(s)] at
    [lastIndex] 0. *)
Definition exec (r : regex) (s : string) : option mres :=
  exec_from r None s 0.

(** [r.test(s)] *)
Definition test (r : regex) (s : string) : bool :=
  match exec r s with Some _ => true | None => false end.

(** [s.search(r)]: the index of the first match. *)
Definition search (r : regex) (s : string) : option nat :=
  index <$> exec r s.

(** The successive matches of a [g] pattern: [s.matchAll(r)],
    [s.match(r)] and the loop [while ((m = r.exec(s)) !== null)].  Each
    search starts where the previous match ended; after an empty match
    [matchAll] and [match] go one character further (the [exec] loops of
    the source run patterns that match no empty text, see
    [loop_matches_consume]). *)
Fixpoint all_from (fuel : nat) (r : regex) (pv : option ascii) (s : string)
         (i : nat) : list mres :=
  match fuel with
  | 0 => []
  | S fuel' =>
      match exec_from r pv s i with
      | None => []
      | Some m =>
          let e := index m + String.length (matched m) in
          m ::
            match matched m, rest (after m) with
            | EmptyString, EmptyString => []
            | EmptyString, String a s' => all_from fuel' r (Some a) s' (S e)
            | _, s' => all_from fuel' r (prev (after m)) s' e
            end
      end
  end.

Definition match_all (r : regex) (s : string) : list mres :=
  all_from (S (String.length s)) r None s 0.

(** *** Pattern syntax *)

Definition chr (c : ascii) : regex := Cls (Chars.is_chr c).
Definition chri (c : ascii) : regex := Cls (Chars.is_nocase c).

(** A literal text, and a literal text under the [i] flag. *)
Fixpoint lit (s : string) : regex :=
  match s with
  | EmptyString => Eps
  | String c EmptyString => chr c
  | String c s' => Seq (chr c) (lit s')
  end.

Fixpoint liti (s : string) : regex :=
  match s with
  | EmptyString => Eps
  | String c EmptyString => chri c
  | String c s' => Seq (chri c) (liti s')
  end.

Fixpoint seq (rs : list regex) : regex :=
  match rs with
  | [] => Eps
  | [r] => r
  | r :: rs' => Seq r (seq rs')
  end.

Definition star (r : regex) : regex := Rep true 0 None r.       (* r*  *)
Definition plus (r : regex) : regex := Rep true 1 None r.       (* r+  *)
Definition opt (r : regex) : regex := Rep true 0 (Some 1) r.    (* r?  *)
Definition star_lazy (r : regex) : regex := Rep false 0 None r. (* r*? *)
Definition plus_lazy (r : regex) : regex := Rep false 1 None r. (* r+? *)
Definition times (lo hi : nat) (r : regex) : regex :=
  Rep true lo (Some hi) r.                                      (* r{lo,hi} *)

Definition digit : regex := Cls Chars.is_digit.                 (* \d *)
Definition space : regex := Cls Chars.is_space.                 (* \s *)
Definition word : regex := Cls Chars.is_word.                   (* \w *)
Definition upper : regex := Cls Chars.is_upper.                 (* [A-Z] *)
Definition any : regex := Cls (fun _ => true).                  (* [\s\S] *)
Definition not_nl : regex :=
  Cls (fun a => negb (Chars.is_chr Chars.nl a)).                    (* [^\n] *)
Definition cr_or_nl : regex :=
  Cls (fun a => Chars.is_chr Chars.cr a || Chars.is_chr Chars.nl a).    (* [\r\n] *)
Definition digit_or_dot : regex :=
  Cls (fun a => Chars.is_digit a || Chars.is_chr "." a).            (* [\d.] *)

(** *** What a pattern guarantees about its matches *)

(** The least number of characters a match consumes. *)
Fixpoint min_len (r : regex) : nat :=
  match r with
  | Eps | Bol _ | Eol _ | Look _ => 0
  | Cls _ => 1
  | Seq r1 r2 => min_len r1 + min_len r2
  | Alt r1 r2 => Nat.min (min_len r1) (min_len r2)
  | Rep _ lo hi r1 =>
      match hi with Some h => Nat.min lo h | None => lo end * min_len r1
  | Grp _ r1 => min_len r1
  end.

(** The capturing groups of a pattern. *)
Fixpoint groups (r : regex) : list nat :=
  match r with
  | Eps | Bol _ | Eol _ | Cls _ => []
  | Seq r1 r2 | Alt r1 r2 => groups r1 ++ groups r2
  | Rep _ _ _ r1 | Look r1 => groups r1
  | Grp n r1 => n :: groups r1
  end.

(** The groups that take part in every match (those outside alternatives,
    quantifiers and lookaheads), each with the least length of its
    capture. *)
Fixpoint guaranteed (r : regex) : list (nat * nat) :=
  match r with
  | Seq r1 r2 =>
      filter (fun x => fst x ∉ groups r2) (guaranteed r1) ++ guaranteed r2
  | Grp n r1 => (n, min_len r1) :: filter (fun x => fst x ≠ n) (guaranteed r1)
  | _ => []
  end.

(** What holds between the two ends of a match of [r]. *)
Definition post (r : regex) (p : pos) (c : caps) (p' : pos) (c' : caps) : Prop :=
  String.length (rest p') + min_len r ≤ String.length (rest p)
  ∧ (∀ n, n ∉ groups r → c' n = c n)
  ∧ (∀ n ml, (n, ml) ∈ guaranteed r →
       ∃ s, c' n = Some s ∧ ml ≤ String.length s).

Definition sound (mr : cont → cont) (r : regex) : Prop :=
  ∀ k p c res, mr k p c = Some res →
    ∃ p' c', post r p c p' c' ∧ k p' c' = Some res.

Definition rep_min (lo : nat) (hi : option nat) : nat :=
  match hi with Some h => Nat.min lo h | None => lo end.

(** Two continuations that agree from some point of the text on, and a
    matcher that looks at its continuation only from its own position
    on. *)
Definition agree_upto (n : nat) (k k' : cont) : Prop :=
  ∀ p' c', String.length (rest p') ≤ n → k p' c' = k' p' c'.

Definition local (mr : cont → cont) : Prop :=
  ∀ k k' p c, agree_upto (String.length (rest p)) k k' → mr k p c = mr k' p c.

Definition good (r : regex) (m : mres) : Prop :=
  min_len r ≤ String.length (matched m)
  ∧ ∀ n ml, (n, ml) ∈ guaranteed r →
      ∃ t, group m n = Some t ∧ ml ≤ String.length t.

End Regex.

(* ===================================================================== *)
(** ** JavaScript strings and numbers *)
(* ===================================================================== *)

Module Js.

(** *** Strings *)

(** [s.substring(a, b)]: both indices are clamped to [0, length] and
    swapped when [a > b]. *)
Definition clamp (s : string) (a : Z) : nat :=
  Nat.min (Z.to_nat a) (String.length s).

Definition substring2 (s : string) (a b : Z) : string :=
  let a' := clamp s a in
  let b' := clamp s b in
  substring (Nat.min a' b') (Nat.max a' b' - Nat.min a' b') s.

(** [s.substring(a)] *)
Definition substring1 (s : string) (a : Z) : string :=
  substring2 s a (Z.of_nat (String.length s)).

(** [s.length] *)
Definition len (s : string) : Z := Z.of_nat (String.length s).

(** [s.indexOf(t)], -1 when [t] does not occur in [s]. *)
Definition indexOf (s t : string) : Z :=
  match index 0 t s with
  | Some i => Z.of_nat i
  | None => (-1)%Z
  end.

(** [s.includes(t)] *)
Definition includes (s t : string) : bool :=
  match index 0 t s with Some _ => true | None => false end.

Fixpoint trimStart (s : string) : string :=
  match s with
  | String a s' => if Chars.is_space a then trimStart s' else s
  | EmptyString => EmptyString
  end.

Fixpoint trimEnd (s : string) : string :=
  match s with
  | EmptyString => EmptyString
  | String a s' =>
      match trimEnd s' with
      | EmptyString => if Chars.is_space a then EmptyString else String a EmptyString
      | t => String a t
      end
  end.

(** [s.trim()] *)
Definition trim (s : string) : string := trimEnd (trimStart s).

(** [s.split('\n')]: the pieces between the line feeds, at least one. *)
Fixpoint split_nl (s : string) : list string :=
  match s with
  | EmptyString => [EmptyString]
  | String a s' =>
      if Chars.is_chr Chars.nl a then EmptyString :: split_nl s'
      else match split_nl s' with
           | l :: ls => String a l :: ls
           | [] => [String a EmptyString]
           end
  end.

(** [s.split(r)] for a pattern without capturing groups that matches no
    empty text: the pieces between the successive matches. *)
Fixpoint pieces (s : string) (from : nat) (ms : list Regex.mres) : list string :=
  match ms with
  | [] => [substring1 s (Z.of_nat from)]
  | m :: ms' =>
      substring2 s (Z.of_nat from) (Z.of_nat (Regex.index m))
        :: pieces s (Regex.index m + String.length (Regex.matched m)) ms'
  end.

Definition split_re (r : Regex.regex) (s : string) : list string :=
  pieces s 0 (Regex.match_all r s).

(** Truthiness of a string that may be [undefined] or [null]. *)
Definition truthy (o : option string) : bool :=
  match o with
  | Some (String _ _) => true
  | _ => false
  end.

(** *** Numbers *)

Inductive number : Type :=
| NaN
| Fin (q : Q)
| PosInf
| NegInf.

(** [x < y], [x <= y] and [x > y]; every comparison with [NaN] is false. *)
Definition lt (x y : number) : bool :=
  match x, y with
  | NaN, _ | _, NaN => false
  | Fin a, Fin b => negb (Qle_bool b a)
  | NegInf, (Fin _ | PosInf) => true
  | Fin _, PosInf => true
  | _, _ => false
  end.

Definition le (x y : number) : bool :=
  match x, y with
  | NaN, _ | _, NaN => false
  | Fin a, Fin b => Qle_bool a b
  | NegInf, _ => true
  | _, PosInf => true
  | _, _ => false
  end.

Definition gt (x y : number) : bool := lt y x.

(** Truthiness of a number: [NaN] and zero are falsy. *)
Definition truthy_num (x : number) : bool :=
  match x with
  | NaN => false
  | Fin q => negb (Qeq_bool q 0)
  | _ => true
  end.

Definition of_Z (z : Z) : number := Fin (inject_Z z).

(** *** parseInt and parseFloat *)

Definition digit_val (a : ascii) : option Z :=
  if Chars.is_digit a then Some (Z.of_nat (Chars.code a - 48)) else None.

Definition hex_val (a : ascii) : option Z :=
  if Chars.is_digit a then Some (Z.of_nat (Chars.code a - 48))
  else if Chars.in_range 65 70 a then Some (Z.of_nat (Chars.code a - 55))
  else if Chars.in_range 97 102 a then Some (Z.of_nat (Chars.code a - 87))
  else None.

(** The longest prefix of digits in a radix: its value, its length and
    the text after it. *)
Fixpoint read_digits (dv : ascii -> option Z) (radix : Z) (acc : Z) (n : nat)
         (s : string) : Z * nat * string :=
  match s with
  | EmptyString => (acc, n, s)
  | String a s' =>
      match dv a with
      | Some d => read_digits dv radix (acc * radix + d)%Z (S n) s'
      | None => (acc, n, s)
      end
  end.

Definition read_sign (s : string) : bool * string :=
  match s with
  | String "-" s' => (true, s')
  | String "+" s' => (false, s')
  | _ => (false, s)
  end.

Definition signed (neg : bool) (z : Z) : Z := if neg then (- z)%Z else z.

(** The Number value of an integer: the integer itself when its magnitude
    is below 2^53, and beyond that the nearest double, a multiple of
    [2 ^ e] with a significand of 53 bits, ties going to the even
    significand; a magnitude that rounds to 2^1024 or more gives an
    infinity.  (For more than 20 digits the language lets an implementation
    read the digits after the 20th as zeros; this is the correctly rounded
    value, the one Node returns.) *)
Definition number_value (z : Z) : number :=
  let n := Z.abs z in
  if (n <? 2 ^ 53)%Z then of_Z z
  else
    let e := (Z.log2 n - 52)%Z in
    let m := (n / 2 ^ e)%Z in
    let r := (n mod 2 ^ e)%Z in
    let half := (2 ^ (e - 1))%Z in
    let m' := if (r <? half)%Z then m
              else if (half <? r)%Z then (m + 1)%Z
              else if Z.even m then m else (m + 1)%Z in
    if (2 ^ 1024 <=? m' * 2 ^ e)%Z then (if (z <? 0)%Z then NegInf else PosInf)
    else of_Z (Z.sgn z * (m' * 2 ^ e)).

(** [parseInt(s)] with no radix argument. *)
Definition parseInt (s : string) : number :=
  let '(neg, s1) := read_sign (trimStart s) in
  let '(dv, radix, s2) :=
    match s1 with
    | String "0" (String "x" s') | String "0" (String "X" s') => (hex_val, 16%Z, s')
    | _ => (digit_val, 10%Z, s1)
    end in
  let '(v, n, _) := read_digits dv radix 0%Z 0 s2 in
  if n =? 0 then NaN else number_value (signed neg v).

(** The exponent part of a decimal literal, 0 when there is none. *)
Definition read_exponent (s : string) : Z :=
  match s with
  | String "e" s' | String "E" s' =>
      let '(neg, s1) := read_sign s' in
      let '(v, n, _) := read_digits digit_val 10%Z 0%Z 0 s1 in
      if n =? 0 then 0%Z else signed neg v
  | _ => 0%Z
  end.

(** [parseFloat(s)]: the value of the longest prefix that is a decimal
    literal. *)
Definition parseFloat (s : string) : number :=
  let '(neg, s1) := read_sign (trimStart s) in
  if String.prefix "Infinity" s1 then (if neg then NegInf else PosInf)
  else
    let '(ip, n1, s2) := read_digits digit_val 10%Z 0%Z 0 s1 in
    let '(v, n2, s3) :=
      match s2 with
      | String "." t =>
          let '(w, n, u) := read_digits digit_val 10%Z ip 0 t in
          if (n1 =? 0) && (n =? 0) then (ip, 0, s2) else (w, n, u)
      | _ => (ip, 0, s2)
      end in
    if (n1 =? 0) && (n2 =? 0) then NaN
    else
      let e := (read_exponent s3 - Z.of_nat n2)%Z in
      Fin (Qred (inject_Z (signed neg v) * Qpower (10 # 1) e)).

End Js.

(* ===================================================================== *)
(** ** backend/pdfParser.js *)
(* ===================================================================== *)

Import Regex.

(** One row of the Section Profile table. *)
Module Entry.
Record t : Type := Make {
  no : string;
  psr : string;
  upstreamMH : string;
  downstreamMH : string;
  date : string;
  material : string;
  totalLength : Js.number;
  lengthSurveyed : Js.number
}.
End Entry.

Module Patterns.

(** [\d{1,2}\/\d{1,2}\/\d{4}] *)
Definition date : regex :=
  seq [times 1 2 digit; chr "/"; times 1 2 digit; chr "/"; times 4 4 digit].

(** [/Section Profile[\s\S]*?(?=Inspection report|$)/i] *)
Definition fullSection : regex :=
  seq [liti "Section Profile"; star_lazy any;
       Look (Alt (liti "Inspection report") (Eol false))].

(** [/^\s*(\d+)\s+(\d+)\s+([\d\-]+)\s+([\d\-A-Z]+)\s+(\d{1,2}\/\d{1,2}\/\d{4})\s+([A-Z]+)\s+([\d.]+)\s+([\d.]+)/gm] *)
Definition spacedPattern : regex :=
  seq [Bol true; star space;
       Grp 1 (plus digit); plus space;
       Grp 2 (plus digit); plus space;
       Grp 3 (plus (Cls (fun a => Chars.is_digit a || Chars.is_chr "-" a))); plus space;
       Grp 4 (plus (Cls (fun a => Chars.is_digit a || Chars.is_chr "-" a
                                  || Chars.is_upper a))); plus space;
       Grp 5 date; plus space;
       Grp 6 (plus upper); plus space;
       Grp 7 (plus digit_or_dot); plus space;
       Grp 8 (plus digit_or_dot)].

(** [/\d{2,3}-\d{2}-\d{2}-\d{3}/] *)
Definition hasMH : regex :=
  seq [times 2 3 digit; chr "-"; times 2 2 digit; chr "-"; times 2 2 digit;
       chr "-"; times 3 3 digit].

(** [/(\d{2,3}-\d{2}-\d{2}-\d{3}[A-Z]?)/g] *)
Definition mhPattern : regex :=
  Grp 1 (seq [times 2 3 digit; chr "-"; times 2 2 digit; chr "-";
              times 2 2 digit; chr "-"; times 3 3 digit; opt upper]).

(** [/^(\d+)$/] *)
Definition allDigits : regex :=
  seq [Bol false; Grp 1 (plus digit); Eol false].

(** [/^(\d{1,2}\/\d{1,2}\/\d{4})([A-Z]{2,4})([\d.]+)([\d.]+)/] *)
Definition rest : regex :=
  seq [Bol false; Grp 1 date; Grp 2 (times 2 4 upper);
       Grp 3 (plus digit_or_dot); Grp 4 (plus digit_or_dot)].

End Patterns.

(** A capture of a successful match; a group that did not take part in the
    match is [undefined], which every use below treats like the empty
    string (both are falsy). *)
Definition capture (m : mres) (n : nat) : string := default "" (group m n).

(** Lines the row loop passes over: blank lines, header lines (header words
    but neither a manhole ID nor a date) and the summary lines. *)
Definition hasHeaderText (line : string) : bool :=
  Js.includes line "No." || Js.includes line "PSR"
  || Js.includes line "Upstream MH" || Js.includes line "Downstream MH"
  || Js.includes line "Material" || Js.includes line "Surveyed".

Definition skipped (line : string) : bool :=
  match Js.trim line with
  | EmptyString => true
  | _ =>
      (hasHeaderText line && negb (test Patterns.hasMH line)
       && negb (test Patterns.date line))
      || (Js.includes line "Circular =" || Js.includes line "Total Length (")
  end.

(** The two anchors of a line: the first two manhole IDs found in it. *)
Definition anchors (line : string) : option (string * string) :=
  match match_all Patterns.mhPattern line with
  | m0 :: m1 :: _ => Some (matched m0, matched m1)
  | _ => None
  end.

(** [allDigits]: the text before the first manhole ID when it is a run of
    digits. *)
Definition digitsBeforeMH (line upstreamMH : string) : option string :=
  let mhStartIdx := Js.indexOf line upstreamMH in
  let beforeMH := Js.substring2 line 0 mhStartIdx in
  m ← exec Patterns.allDigits beforeMH;
  group m 1.

(** The split of [allDigits] into [no] and [psr] by its length. *)
Definition splitNoPsr (allDigits : string) : string * option string :=
  let n := String.length allDigits in
  let l := Js.len allDigits in
  if n <=? 3 then (allDigits, None)
  else if n =? 4 then
    (Js.substring2 allDigits 0 1, Some (Js.substring2 allDigits 1 4))
  else if n =? 5 then
    (Js.substring2 allDigits 0 2, Some (Js.substring2 allDigits 2 5))
  else if n =? 6 then
    (Js.substring2 allDigits 0 3, Some (Js.substring2 allDigits 3 6))
  else if n =? 7 then
    (Js.substring2 allDigits 0 (l - 4), Some (Js.substring1 allDigits (l - 4)))
  else
    (Js.substring2 allDigits 0 (l - 3), Some (Js.substring1 allDigits (l - 3))).

(** [restMatch]: date, material and the two lengths after the second
    manhole ID. *)
Definition restMatch (line downstreamMH : string) : option mres :=
  let afterDownstreamMH :=
    Js.substring1 line (Js.indexOf line downstreamMH + Js.len downstreamMH) in
  exec Patterns.rest afterDownstreamMH.

(** The anchor-based reconstruction of one line. *)
Definition anchorLine (line : string) : option Entry.t :=
  '(upstreamMH, downstreamMH) ← anchors line;
  allDigits ← digitsBeforeMH line upstreamMH;
  let '(no, psr) := splitNoPsr allDigits in
  rm ← restMatch line downstreamMH;
  if Js.truthy psr then
    Some (Entry.Make no (default "" psr) upstreamMH downstreamMH
            (capture rm 1) (capture rm 2)
            (Js.parseFloat (capture rm 3)) (Js.parseFloat (capture rm 4)))
  else None.

(** The loop over the lines of the section. *)
Definition anchorRows (section : string) : list Entry.t :=
  omap (fun line => if skipped line then None else anchorLine line)
       (Js.split_nl section).

(** The loop over the matches of the spaced pattern in the section. *)
Definition spacedEntry (m : mres) : Entry.t :=
  Entry.Make (capture m 1) (capture m 2) (capture m 3) (capture m 4)
             (capture m 5) (capture m 6)
             (Js.parseFloat (capture m 7)) (Js.parseFloat (capture m 8)).

Definition complete (e : Entry.t) : bool :=
  Js.truthy (Some (Entry.psr e)) && Js.truthy (Some (Entry.upstreamMH e))
  && Js.truthy (Some (Entry.downstreamMH e)).

Definition spacedRows (section : string) : list Entry.t :=
  filter (fun e => complete e = true)
         (spacedEntry <$> match_all Patterns.spacedPattern section).

(** The rows of the section before deduplication ([psrData]): the anchor
    rows, and the spaced rows only when [matchCount === 0] after the line
    loop. *)
Definition sectionRows (section : string) : list Entry.t :=
  let rows := anchorRows section in
  if length rows =? 0 then spacedRows section else rows.

Definition key (e : Entry.t) : string :=
  Entry.psr e +:+ "-" +:+ Entry.upstreamMH e +:+ "-" +:+ Entry.downstreamMH e.

(** The deduplication loop with its set [seen]. *)
Fixpoint uniqueEntries (seen : gset string) (psrData : list Entry.t)
  : list Entry.t :=
  match psrData with
  | [] => []
  | entry :: psrData' =>
      if bool_decide (key entry ∈ seen) then uniqueEntries seen psrData'
      else entry :: uniqueEntries ({[key entry]} ∪ seen) psrData'
  end.

Definition extractSectionProfileData (text : string) : list Entry.t :=
  match exec Patterns.fullSection text with
  | None => []
  | Some m => uniqueEntries ∅ (sectionRows (matched m))
  end.

(** A coded observation of an inspection report. *)
Module Observation.
Record t : Type := Make {
  distance : Js.number;
  code : string;
  observation : string;
  counter : string
}.
End Observation.

(** An inspection report: the properties the extractor may assign. *)
Module Report.
Record t : Type := Make {
  date : option string;
  certificateNumber : option string;
  psr : option string;
  surveyedBy : option string;
  preCleaning : option string;
  direction : option string;
  upstreamMH : option string;
  downstreamMH : option string;
  pipeShape : option string;
  pipeSize : option string;
  pipeMaterial : option string;
  sewerUse : option string;
  sewerCategory : option string;
  jointsPassed : option Js.number;
  jointsFailed : option Js.number;
  totalGallonsUsed : option Js.number;
  totalLength : option Js.number;
  lengthSurveyed : option Js.number;
  qsr : option Js.number;
  qmr : option Js.number;
  qor : option Js.number;
  spr : option Js.number;
  mpr : option Js.number;
  opr : option Js.number;
  spri : option Js.number;
  mpri : option Js.number;
  opri : option Js.number;
  observations : option (list Observation.t);
  street : option string;
  city : option string
}.

(** [Object.keys(report).length > 0] *)
Definition hasKeys (r : t) : bool :=
  bool_decide (is_Some (date r)) || bool_decide (is_Some (certificateNumber r))
  || bool_decide (is_Some (psr r)) || bool_decide (is_Some (surveyedBy r))
  || bool_decide (is_Some (preCleaning r)) || bool_decide (is_Some (direction r))
  || bool_decide (is_Some (upstreamMH r)) || bool_decide (is_Some (downstreamMH r))
  || bool_decide (is_Some (pipeShape r)) || bool_decide (is_Some (pipeSize r))
  || bool_decide (is_Some (pipeMaterial r)) || bool_decide (is_Some (sewerUse r))
  || bool_decide (is_Some (sewerCategory r)) || bool_decide (is_Some (jointsPassed r))
  || bool_decide (is_Some (jointsFailed r)) || bool_decide (is_Some (totalGallonsUsed r))
  || bool_decide (is_Some (totalLength r)) || bool_decide (is_Some (lengthSurveyed r))
  || bool_decide (is_Some (qsr r)) || bool_decide (is_Some (qmr r))
  || bool_decide (is_Some (qor r)) || bool_decide (is_Some (spr r))
  || bool_decide (is_Some (mpr r)) || bool_decide (is_Some (opr r))
  || bool_decide (is_Some (spri r)) || bool_decide (is_Some (mpri r))
  || bool_decide (is_Some (opri r)) || bool_decide (is_Some (observations r))
  || bool_decide (is_Some (street r)) || bool_decide (is_Some (city r)).
End Report.

Module ReportPatterns.

Definition dquote : ascii := ascii_of_nat 34.

(** [label\s*(value)] for a case-sensitive label ending in a colon. *)
Definition labelled (label : string) (value : regex) : regex :=
  seq [lit label; star space; Grp 1 value].

(** [/Date:\s*(\d{1,2}\/\d{1,2}\/\d{4})/] *)
Definition date1 : regex := labelled "Date:" Patterns.date.
(** [/(\d{1,2}\/\d{1,2}\/\d{4})\s+Cole Swenson/] *)
Definition date2 : regex :=
  seq [Grp 1 Patterns.date; plus space; lit "Cole Swenson"].

(** [/Certificate Number:\s*([\w\-]+)/] *)
Definition word_or_dash : regex :=
  Cls (fun a => Chars.is_word a || Chars.is_chr "-" a).
Definition cert : regex := labelled "Certificate Number:" (plus word_or_dash).

(** [\.?:?\s*(\d+)], the end of the PSR patterns *)
Definition ref_tail : list regex :=
  [opt (chr "."); opt (chr ":"); star space; Grp 1 (plus digit)].
(** [/Pipe\s+Segment\s+Ref\.?:?\s*(\d+)/i] *)
Definition psr1 : regex :=
  seq ([liti "Pipe"; plus space; liti "Segment"; plus space; liti "Ref"] ++ ref_tail).
(** [/PSR\s*:?\s*(\d+)/i] *)
Definition psr2 : regex :=
  seq [liti "PSR"; star space; opt (chr ":"); star space; Grp 1 (plus digit)].
(** [/Ref\.?:?\s*(\d+)/] *)
Definition psr3 : regex := seq (lit "Ref" :: ref_tail).
(** [/Segment\s+(?:Reference|Ref)\.?:?\s*(\d+)/i] *)
Definition psr4 : regex :=
  seq ([liti "Segment"; plus space; Alt (liti "Reference") (liti "Ref")] ++ ref_tail).

(** [/Surveyed By:\s*([^\n]+)/] *)
Definition surveyedBy : regex := labelled "Surveyed By:" (plus not_nl).

(** [(?:\s+stop1|\s+stop2|...|$)] *)
Fixpoint until (stops : list string) : regex :=
  match stops with
  | [] => Eol false
  | t :: ts => Alt (seq [plus space; lit t]) (until ts)
  end.

(** [/Pre-cleaning:\s*([^\n]+?)(?:\s+Direction:|$)/] *)
Definition preCleaning : regex :=
  seq [labelled "Pre-cleaning:" (plus_lazy not_nl); until ["Direction:"]].
(** [/Direction:\s*([^\n]+?)(?:\s+Pipe Joint Length:|$)/] *)
Definition direction : regex :=
  seq [labelled "Direction:" (plus_lazy not_nl); until ["Pipe Joint Length:"]].

(** [/Upstream MH:\s*([\w\-]+)/] and [/Downstream MH:\s*([\w\-]+)/] *)
Definition upstream : regex := labelled "Upstream MH:" (plus word_or_dash).
Definition downstream : regex := labelled "Downstream MH:" (plus word_or_dash).

(** [/Pipe shape:\s*(\w+)/] *)
Definition shape : regex := labelled "Pipe shape:" (plus word).
(** [/Pipe size:\s*([\d\s\x22]+?)(?:\s+Sewer Category:|\s+Purpose:|$)/],
    the double quote of the source written [\x22] *)
Definition size : regex :=
  seq [labelled "Pipe size:"
         (plus_lazy (Cls (fun a => Chars.is_digit a || Chars.is_space a
                                   || Chars.is_chr dquote a)));
       until ["Sewer Category:"; "Purpose:"]].
(** [/Pipe material:\s*([^\n]+?)(?:\s+Purpose:|\s+Lining Method:|$)/] *)
Definition material : regex :=
  seq [labelled "Pipe material:" (plus_lazy not_nl);
       until ["Purpose:"; "Lining Method:"]].
(** [/Sewer Use:\s*([^\n]+?)(?:\s+Total gallons|$)/] *)
Definition sewerUse : regex :=
  seq [labelled "Sewer Use:" (plus_lazy not_nl); until ["Total gallons"]].
(** [/Sewer Category:\s*(\w+)/] *)
Definition category : regex := labelled "Sewer Category:" (plus word).

(** [/Joints passed:\s*(\d+)/] and [/Joints failed:\s*(\d+)/] *)
Definition jointsPassed : regex := labelled "Joints passed:" (plus digit).
Definition jointsFailed : regex := labelled "Joints failed:" (plus digit).
(** [/Total gallons used:\s*([\d.]+)/] *)
Definition gallons : regex := labelled "Total gallons used:" (plus digit_or_dot).

(** [\s*['\x22]] *)
Definition foot_mark : list regex :=
  [star space; Cls (fun a => Chars.is_chr "'" a || Chars.is_chr dquote a)].
(** [/Total Length:\s*([\d.]+)\s*['\x22]/] *)
Definition totalLength : regex :=
  seq (labelled "Total Length:" (plus digit_or_dot) :: foot_mark).
(** [/Length Surveyed:\s*([\d.]+)\s*['\x22]/] *)
Definition surveyedLength : regex :=
  seq (labelled "Length Surveyed:" (plus digit_or_dot) :: foot_mark).

(** [/LABEL\s*:?\s*[\r\n]+\s*(value)/i], the labelled-newline layout *)
Definition rating (label : string) (value : regex) : regex :=
  seq [liti label; star space; opt (chr ":"); star space; plus cr_or_nl;
       star space; Grp 1 value].

(** [/QSRQMR[^\n]*[\r\n]+\s*([\d.]+)/i] *)
Definition concat : regex :=
  seq [liti "QSRQMR"; star not_nl; plus cr_or_nl; star space;
       Grp 1 (plus digit_or_dot)].
(** [/\d\.\d/g] *)
Definition decimal : regex := seq [digit; chr "."; digit].
(** [/QOR[\r\n]+\s*(\d+)/i] *)
Definition qorBare : regex :=
  seq [liti "QOR"; plus cr_or_nl; star space; Grp 1 (plus digit)].

(** [/([\d.]+)\s+([A-Z]+)\s+([^\n]+?)\s+(\d{2}:\d{2}:\d{2})/g] *)
Definition obsPattern : regex :=
  seq [Grp 1 (plus digit_or_dot); plus space; Grp 2 (plus upper); plus space;
       Grp 3 (plus_lazy not_nl); plus space;
       Grp 4 (seq [times 2 2 digit; chr ":"; times 2 2 digit; chr ":";
                   times 2 2 digit])].

(** [/Street:\s*([^\n]+)/] and [/City:\s*([^\n]+)/] *)
Definition street : regex := labelled "Street:" (plus not_nl).
Definition city : regex := labelled "City:" (plus not_nl).

(** [/Inspection report/i], [/Section Pictures/i], [/\/\/ Page:/i] *)
Definition boundary : regex := liti "Inspection report".
Definition sectionPictures : regex := liti "Section Pictures".
Definition pageMarker : regex := liti "// Page:".

End ReportPatterns.

(** [m ? m[1] : absent] for [m = section.match(r)] *)
Definition field (r : regex) (s : string) : option string :=
  m ← exec r s; group m 1.

(** [a || b] on two match attempts *)
Definition orElse {A} (a b : option A) : option A :=
  match a with Some _ => a | None => b end.

(** The ratings of a report. *)
Record ratings : Type := Ratings {
  r_qsr : option Js.number;
  r_qmr : option Js.number;
  r_qor : option Js.number;
  r_spr : option Js.number;
  r_mpr : option Js.number;
  r_opr : option Js.number;
  r_spri : option Js.number;
  r_mpri : option Js.number;
  r_opri : option Js.number
}.

(** The ratings window of a report: its own section and, when another
    section follows, the start of that one: up to 2000 characters, up to
    "Section Pictures", or 50 characters past a page marker. *)
Definition ratingsSection (section : string) (next : option string) : string :=
  match next with
  | None => section
  | Some nextSection =>
      let sectionPicturesIdx := search ReportPatterns.sectionPictures nextSection in
      let pageMarkerIdx := search ReportPatterns.pageMarker nextSection in
      let below (i : option nat) : option nat :=
        i ≫= (fun n => if n <? 2000 then Some n else None) in
      let endIdx :=
        match below sectionPicturesIdx, below pageMarkerIdx with
        | Some i, _ => i
        | None, Some j => j + 50
        | None, None => 2000
        end in
      let endIdx := Nat.min endIdx (String.length nextSection) in
      section +:+ String Chars.nl "" +:+ Js.substring2 nextSection 0 (Z.of_nat endIdx)
  end.

(** [numbersLine]: the values of the concatenated layout, the run of digits
    and dots on the line after the one that holds the labels. *)
Definition numbersLine (ratingsSection : string) : option string :=
  (fun concatMatch => capture concatMatch 1)
    <$> exec ReportPatterns.concat ratingsSection.

(** [decimals]: the tokens digit-dot-digit found after the first 8
    characters of the values. *)
Definition decimals (numbersLine : string) : list string :=
  let decimalPart := Js.substring1 numbersLine 8 in
  matched <$> match_all ReportPatterns.decimal decimalPart.

(** The concatenated layout.  The result is the fields assigned when
    [usedConcatenatedFormat] becomes true ([qor] is assigned apart). *)
Definition concatenatedRatings (ratingsSection : string) : option ratings :=
  numbersLine ← numbersLine ratingsSection;
  let qsr := Js.substring2 numbersLine 0 4 in
  let qmr := Js.substring2 numbersLine 4 8 in
  match decimals numbersLine with
  | d0 :: d1 :: d2 :: d3 :: d4 :: d5 :: _ =>
      if Js.truthy (Some qsr) && Js.truthy (Some qmr) then
        Some {| r_qsr := Some (Js.parseInt qsr);
                r_qmr := Some (Js.parseInt qmr);
                r_qor := None;
                r_spr := Some (Js.parseFloat d0);
                r_mpr := Some (Js.parseFloat d1);
                r_spri := Some (Js.parseFloat d2);
                r_mpri := Some (Js.parseFloat d3);
                r_opri := Some (Js.parseFloat d4);
                r_opr := Some (Js.parseFloat d5) |}
      else None
  | _ => None
  end.

Definition intField (r : regex) (s : string) : option Js.number :=
  Js.parseInt <$> field r s.

Definition floatField (r : regex) (s : string) : option Js.number :=
  Js.parseFloat <$> field r s.

(** The ratings read from the ratings window: the labelled layout, and the
    concatenated one when no labelled QSR is found. *)
Definition extractRatings (ratingsSection : string) : ratings :=
  let int := plus digit in
  let dec := plus digit_or_dot in
  let labelled (qor : option Js.number) : ratings :=
    {| r_qsr := intField (ReportPatterns.rating "QSR" int) ratingsSection;
       r_qmr := intField (ReportPatterns.rating "QMR" int) ratingsSection;
       r_qor := qor;
       r_spr := floatField (ReportPatterns.rating "SPR" dec) ratingsSection;
       r_mpr := floatField (ReportPatterns.rating "MPR" dec) ratingsSection;
       r_opr := floatField (ReportPatterns.rating "OPR" dec) ratingsSection;
       r_spri := floatField (ReportPatterns.rating "SPRI" dec) ratingsSection;
       r_mpri := floatField (ReportPatterns.rating "MPRI" dec) ratingsSection;
       r_opri := floatField (ReportPatterns.rating "OPRI" dec) ratingsSection |} in
  match exec (ReportPatterns.rating "QSR" int) ratingsSection with
  | Some _ => labelled (intField (ReportPatterns.rating "QOR" int) ratingsSection)
  | None =>
      let qor := intField ReportPatterns.qorBare ratingsSection in
      match concatenatedRatings ratingsSection with
      | Some r =>
          {| r_qsr := r_qsr r; r_qmr := r_qmr r; r_qor := qor;
             r_spr := r_spr r; r_mpr := r_mpr r; r_opr := r_opr r;
             r_spri := r_spri r; r_mpri := r_mpri r; r_opri := r_opri r |}
      | None => labelled qor
      end
  end.

Definition extractObservations (section : string) : list Observation.t :=
  (fun obsMatch =>
     Observation.Make (Js.parseFloat (capture obsMatch 1)) (capture obsMatch 2)
                      (Js.trim (capture obsMatch 3)) (capture obsMatch 4))
    <$> match_all ReportPatterns.obsPattern section.

(** The body of the loop over the report sections: the report read from
    [section], with its ratings read from the ratings window. *)
Definition extractReport (section : string) (next : option string) : Report.t :=
  let rt := extractRatings (ratingsSection section next) in
  let observations := extractObservations section in
  {| Report.date :=
       orElse (exec ReportPatterns.date1 section) (exec ReportPatterns.date2 section)
         ≫= (fun m => group m 1);
     Report.certificateNumber := field ReportPatterns.cert section;
     Report.psr :=
       orElse (exec ReportPatterns.psr1 section)
         (orElse (exec ReportPatterns.psr2 section)
            (orElse (exec ReportPatterns.psr3 section)
               (exec ReportPatterns.psr4 section)))
         ≫= (fun m => group m 1);
     Report.surveyedBy := Js.trim <$> field ReportPatterns.surveyedBy section;
     Report.preCleaning := Js.trim <$> field ReportPatterns.preCleaning section;
     Report.direction := Js.trim <$> field ReportPatterns.direction section;
     Report.upstreamMH := field ReportPatterns.upstream section;
     Report.downstreamMH := field ReportPatterns.downstream section;
     Report.pipeShape := field ReportPatterns.shape section;
     Report.pipeSize := Js.trim <$> field ReportPatterns.size section;
     Report.pipeMaterial := Js.trim <$> field ReportPatterns.material section;
     Report.sewerUse := Js.trim <$> field ReportPatterns.sewerUse section;
     Report.sewerCategory := field ReportPatterns.category section;
     Report.jointsPassed := intField ReportPatterns.jointsPassed section;
     Report.jointsFailed := intField ReportPatterns.jointsFailed section;
     Report.totalGallonsUsed := floatField ReportPatterns.gallons section;
     Report.totalLength := floatField ReportPatterns.totalLength section;
     Report.lengthSurveyed := floatField ReportPatterns.surveyedLength section;
     Report.qsr := r_qsr rt;
     Report.qmr := r_qmr rt;
     Report.qor := r_qor rt;
     Report.spr := r_spr rt;
     Report.mpr := r_mpr rt;
     Report.opr := r_opr rt;
     Report.spri := r_spri rt;
     Report.mpri := r_mpri rt;
     Report.opri := r_opri rt;
     Report.observations :=
       match observations with [] => None | _ => Some observations end;
     Report.street := Js.trim <$> field ReportPatterns.street section;
     Report.city := Js.trim <$> field ReportPatterns.city section |}.

(** The loop over [reportSections[1..]]: each section is read with the one
    after it at hand; a report without any property is dropped. *)
Fixpoint reportsOf (reportSections : list string) : list Report.t :=
  match reportSections with
  | [] => []
  | section :: following =>
      let report := extractReport section (head following) in
      (if Report.hasKeys report then [report] else []) ++ reportsOf following
  end.

Definition extractInspectionReportData (text : string) : list Report.t :=
  reportsOf (tail (Js.split_re ReportPatterns.boundary text)).

(** *** parsePDF *)

Definition set_psr (v : string) (r : Report.t) : Report.t :=
  {| Report.date := Report.date r;
     Report.certificateNumber := Report.certificateNumber r;
     Report.psr := Some v;
     Report.surveyedBy := Report.surveyedBy r;
     Report.preCleaning := Report.preCleaning r;
     Report.direction := Report.direction r;
     Report.upstreamMH := Report.upstreamMH r;
     Report.downstreamMH := Report.downstreamMH r;
     Report.pipeShape := Report.pipeShape r;
     Report.pipeSize := Report.pipeSize r;
     Report.pipeMaterial := Report.pipeMaterial r;
     Report.sewerUse := Report.sewerUse r;
     Report.sewerCategory := Report.sewerCategory r;
     Report.jointsPassed := Report.jointsPassed r;
     Report.jointsFailed := Report.jointsFailed r;
     Report.totalGallonsUsed := Report.totalGallonsUsed r;
     Report.totalLength := Report.totalLength r;
     Report.lengthSurveyed := Report.lengthSurveyed r;
     Report.qsr := Report.qsr r;
     Report.qmr := Report.qmr r;
     Report.qor := Report.qor r;
     Report.spr := Report.spr r;
     Report.mpr := Report.mpr r;
     Report.opr := Report.opr r;
     Report.spri := Report.spri r;
     Report.mpri := Report.mpri r;
     Report.opri := Report.opri r;
     Report.observations := Report.observations r;
     Report.street := Report.street r;
     Report.city := Report.city r |}.

Definition set_pipeMaterial (v : string) (r : Report.t) : Report.t :=
  {| Report.date := Report.date r;
     Report.certificateNumber := Report.certificateNumber r;
     Report.psr := Report.psr r;
     Report.surveyedBy := Report.surveyedBy r;
     Report.preCleaning := Report.preCleaning r;
     Report.direction := Report.direction r;
     Report.upstreamMH := Report.upstreamMH r;
     Report.downstreamMH := Report.downstreamMH r;
     Report.pipeShape := Report.pipeShape r;
     Report.pipeSize := Report.pipeSize r;
     Report.pipeMaterial := Some v;
     Report.sewerUse := Report.sewerUse r;
     Report.sewerCategory := Report.sewerCategory r;
     Report.jointsPassed := Report.jointsPassed r;
     Report.jointsFailed := Report.jointsFailed r;
     Report.totalGallonsUsed := Report.totalGallonsUsed r;
     Report.totalLength := Report.totalLength r;
     Report.lengthSurveyed := Report.lengthSurveyed r;
     Report.qsr := Report.qsr r;
     Report.qmr := Report.qmr r;
     Report.qor := Report.qor r;
     Report.spr := Report.spr r;
     Report.mpr := Report.mpr r;
     Report.opr := Report.opr r;
     Report.spri := Report.spri r;
     Report.mpri := Report.mpri r;
     Report.opri := Report.opri r;
     Report.observations := Report.observations r;
     Report.street := Report.street r;
     Report.city := Report.city r |}.

(** [a === b] for a string [a] and a string [b] that may be [undefined] *)
Definition same (a : string) (b : option string) : bool :=
  bool_decide (Some a = b).

(** The predicate of the first [psrData.find]: same manholes and, when the
    report has a date, same date. *)
Definition matchesReport (report : Report.t) (p : Entry.t) : bool :=
  same (Entry.upstreamMH p) (Report.upstreamMH report)
  && same (Entry.downstreamMH p) (Report.downstreamMH report)
  && (negb (Js.truthy (Report.date report))
      || same (Entry.date p) (Report.date report)).

(** First step of the cross-reference: a report without PSR takes the one
    of the first profile row with its manholes (and date). *)
Definition backfillPsr (psrData : list Entry.t) (report : Report.t) : Report.t :=
  if negb (Js.truthy (Report.psr report)) && Js.truthy (Report.upstreamMH report)
     && Js.truthy (Report.downstreamMH report)
  then
    match List.find (matchesReport report) psrData with
    | Some matchingProfile => set_psr (Entry.psr matchingProfile) report
    | None => report
    end
  else report.

(** Second step: a report without pipe material takes the one of the first
    profile row with its PSR. *)
Definition backfillMaterial (psrData : list Entry.t) (report : Report.t) : Report.t :=
  if negb (Js.truthy (Report.pipeMaterial report)) && Js.truthy (Report.psr report)
  then
    match List.find (fun p => same (Entry.psr p) (Report.psr report)) psrData with
    | Some matchingProfile =>
        if Js.truthy (Some (Entry.material matchingProfile))
        then set_pipeMaterial (Entry.material matchingProfile) report
        else report
    | None => report
    end
  else report.

(** The [inspectionReports.forEach] of [parsePDF]; it updates the reports
    in place, which the embedding renders as the list of updated reports,
    and only reads [psrData]. *)
Definition crossReference (psrData : list Entry.t) (inspectionReports : list Report.t)
  : list Report.t :=
  (fun report => backfillMaterial psrData (backfillPsr psrData report))
    <$> inspectionReports.

(** What [pdf(dataBuffer, options)] of the pdf-parse library ends with: an
    exception, or the text and the page count of the document. *)
Inductive pdfOutcome : Type :=
| PdfThrows (message : string)
| PdfData (text : string) (numpages : nat).

Record metadata : Type := Metadata {
  totalPages : nat;
  totalPSREntries : nat;
  totalInspectionReports : nat;
  totalObservations : nat
}.

Record parsedData : Type := ParsedData {
  sectionProfile : list Entry.t;
  inspectionReports : list Report.t;
  meta : metadata
}.

Inductive parseResult : Type :=
| Success (rawText : string) (data : parsedData)
| Failure (error : string).

Definition countObservations (reports : list Report.t) : nat :=
  foldl (fun sum r => sum + match Report.observations r with
                           | Some obs => length obs
                           | None => 0
                           end) 0 reports.

Definition parsePDF (outcome : pdfOutcome) : parseResult :=
  match outcome with
  | PdfThrows message => Failure message
  | PdfData text numpages =>
      let psrData := extractSectionProfileData text in
      let inspectionReports := crossReference psrData (extractInspectionReportData text) in
      Success text
        {| sectionProfile := psrData;
           inspectionReports := inspectionReports;
           meta := {| totalPages := numpages;
                      totalPSREntries := length psrData;
                      totalInspectionReports := length inspectionReports;
                      totalObservations := countObservations inspectionReports |} |}
  end.

(** *** calculateStatistics and getConditionLabel *)

Definition getConditionLabel (opri : Js.number) : string :=
  if Js.le opri (Js.Fin 1.5) then "Excellent"
  else if Js.le opri (Js.Fin 2.5) then "Good"
  else if Js.le opri (Js.Fin 3.5) then "Fair"
  else if Js.le opri (Js.Fin 4.5) then "Poor"
  else "Very Poor".

(** [x || d] on numbers *)
Definition orNum (x d : Js.number) : Js.number :=
  if Js.truthy_num x then x else d.

(** The two reductions over [sectionProfile], started from its first row. *)
Definition longest (first : Entry.t) (sectionProfile : list Entry.t) : Entry.t :=
  foldl (fun max p =>
           if Js.gt (Entry.totalLength p) (orNum (Entry.totalLength max) (Js.Fin 0))
           then p else max) first sectionProfile.

Definition shortest (first : Entry.t) (sectionProfile : list Entry.t) : Entry.t :=
  foldl (fun min p =>
           if Js.lt (Entry.totalLength p) (orNum (Entry.totalLength min) Js.PosInf)
           then p else min) first sectionProfile.

(** [obj[k] = (obj[k] || 0) + 1] *)
Definition count (k : string) (m : gmap string nat) : gmap string nat :=
  <[k := default 0 (m !! k) + 1]> m.

Record opriScore : Type := OpriScore {
  s_psr : option string;
  s_opri : Js.number;
  s_condition : string
}.

(** The statistics object, without the fields that hold floating-point sums
    ([totalLength], [totalLengthSurveyed], [averageLength]) and locale
    dates ([dateRange]). *)
Record statistics : Type := Statistics {
  st_totalPSREntries : nat;
  st_totalInspectionReports : nat;
  materials : gmap string nat;
  longestSegment : option Entry.t;
  shortestSegment : option Entry.t;
  opriScores : list opriScore;
  observationCodes : gmap string nat
}.

Definition calculateStatistics (sectionProfile : list Entry.t)
           (inspectionReports : list Report.t) : statistics :=
  {| st_totalPSREntries := length sectionProfile;
     st_totalInspectionReports := length inspectionReports;
     materials := foldl (fun m p => count (Entry.material p) m) ∅ sectionProfile;
     longestSegment := (fun first => longest first sectionProfile) <$> head sectionProfile;
     shortestSegment := (fun first => shortest first sectionProfile) <$> head sectionProfile;
     opriScores :=
       omap (fun report =>
               (fun opri => OpriScore (Report.psr report) opri (getConditionLabel opri))
                 <$> Report.opri report) inspectionReports;
     observationCodes :=
       foldl (fun m report =>
                foldl (fun m obs => count (Observation.code obs) m) m
                      (default [] (Report.observations report)))
             ∅ inspectionReports |}.


(* ===================================================================== *)
(** ** The position-aware parser: parsePDFWithPositioning *)
(* ===================================================================== *)

(** The sibling parser built on pdf2json.  It first rebuilds [rawText] from
    the glyph coordinates of the pages (floating-point geometry, which is
    not embedded); the embedding starts from that text and the number of
    pages. *)
Module Positioning.

(** [/Section Profile[\s\S]*?(?=\n\n\n|\nInspection report|$)/i] *)
Definition sectionPattern : regex :=
  seq [liti "Section Profile"; star_lazy any;
       Look (Alt (seq [chr Chars.nl; chr Chars.nl; chr Chars.nl])
                 (Alt (seq [chr Chars.nl; liti "Inspection report"]) (Eol false)))].

(** [[\d\-A-Z]+] *)
Definition manhole : regex :=
  plus (Cls (fun a => Chars.is_digit a || Chars.is_chr "-" a || Chars.is_upper a)).

(** [/^\s*(\d+)\s+(\d+)\s+([\d\-A-Z]+)\s+([\d\-A-Z]+)\s+(\d{1,2}\/\d{1,2}\/\d{4})\s+([A-Z]+)\s+([\d.]+)\s+([\d.]+)/] *)
Definition spacedLine : regex :=
  seq [Bol false; star space;
       Grp 1 (plus digit); plus space;
       Grp 2 (plus digit); plus space;
       Grp 3 manhole; plus space;
       Grp 4 manhole; plus space;
       Grp 5 Patterns.date; plus space;
       Grp 6 (plus upper); plus space;
       Grp 7 (plus digit_or_dot); plus space;
       Grp 8 (plus digit_or_dot)].

Definition skippedLine (line : string) : bool :=
  match Js.trim line with
  | EmptyString => true
  | _ =>
      Js.includes line "No." || Js.includes line "PSR" || Js.includes line "Upstream"
      || Js.includes line "Circular" || Js.includes line "Total Length"
      || Js.includes line "Surveyed"
  end.

(** The split of this parser: no PSR below four digits, four digits of PSR
    from seven digits on. *)
Definition splitDigits (allDigits : string) : option (string * string) :=
  let n := String.length allDigits in
  let l := Js.len allDigits in
  if n =? 4 then Some (Js.substring2 allDigits 0 1, Js.substring1 allDigits 1)
  else if n =? 5 then Some (Js.substring2 allDigits 0 2, Js.substring1 allDigits 2)
  else if n =? 6 then Some (Js.substring2 allDigits 0 3, Js.substring1 allDigits 3)
  else if 7 <=? n then
    Some (Js.substring2 allDigits 0 (l - 4), Js.substring1 allDigits (l - 4))
  else None.

(** The no-space fallback of one line. *)
Definition fallbackLine (line : string) : option Entry.t :=
  '(upstreamMH, downstreamMH) ← anchors line;
  let mhStartIdx := Js.indexOf line upstreamMH in
  let beforeMH := Js.trim (Js.substring2 line 0 mhStartIdx) in
  digitsMatch ← exec Patterns.allDigits beforeMH;
  '(no, psr) ← splitDigits (capture digitsMatch 1);
  rm ← restMatch line downstreamMH;
  Some (Entry.Make no psr upstreamMH downstreamMH (capture rm 1) (capture rm 2)
          (Js.parseFloat (capture rm 3)) (Js.parseFloat (capture rm 4))).

(** One line: the spaced pattern first, the fallback when it fails. *)
Definition lineEntry (line : string) : option Entry.t :=
  if skippedLine line then None
  else
    match exec spacedLine line with
    | Some spacedMatch => Some (spacedEntry spacedMatch)
    | None => fallbackLine line
    end.

Definition extractSectionProfileFromText (text : string) : list Entry.t :=
  match exec sectionPattern text with
  | None => []
  | Some m => omap lineEntry (Js.split_nl (matched m))
  end.

(** The report of one section: fewer fields than [extractReport], and each
    rating read by its own labelled pattern. *)
Definition reportOf (section : string) (next : option string) : Report.t :=
  let window := ratingsSection section next in
  let int := plus digit in
  let dec := plus digit_or_dot in
  let observations := extractObservations section in
  {| Report.date := field ReportPatterns.date1 section;
     Report.certificateNumber := field ReportPatterns.cert section;
     Report.psr :=
       orElse (exec ReportPatterns.psr1 section)
         (orElse (exec ReportPatterns.psr2 section) (exec ReportPatterns.psr3 section))
         ≫= (fun m => group m 1);
     Report.surveyedBy := Js.trim <$> field ReportPatterns.surveyedBy section;
     Report.preCleaning := None;
     Report.direction := None;
     Report.upstreamMH := field ReportPatterns.upstream section;
     Report.downstreamMH := field ReportPatterns.downstream section;
     Report.pipeShape := field ReportPatterns.shape section;
     Report.pipeSize := Js.trim <$> field ReportPatterns.size section;
     Report.pipeMaterial := Js.trim <$> field ReportPatterns.material section;
     Report.sewerUse := None;
     Report.sewerCategory := None;
     Report.jointsPassed := None;
     Report.jointsFailed := None;
     Report.totalGallonsUsed := None;
     Report.totalLength := floatField ReportPatterns.totalLength section;
     Report.lengthSurveyed := None;
     Report.qsr := intField (ReportPatterns.rating "QSR" int) window;
     Report.qmr := intField (ReportPatterns.rating "QMR" int) window;
     Report.qor := intField (ReportPatterns.rating "QOR" int) window;
     Report.spr := floatField (ReportPatterns.rating "SPR" dec) window;
     Report.mpr := floatField (ReportPatterns.rating "MPR" dec) window;
     Report.opr := floatField (ReportPatterns.rating "OPR" dec) window;
     Report.spri := floatField (ReportPatterns.rating "SPRI" dec) window;
     Report.mpri := floatField (ReportPatterns.rating "MPRI" dec) window;
     Report.opri := floatField (ReportPatterns.rating "OPRI" dec) window;
     Report.observations :=
       match observations with [] => None | _ => Some observations end;
     Report.street := Js.trim <$> field ReportPatterns.street section;
     Report.city := Js.trim <$> field ReportPatterns.city section |}.

Fixpoint reportsFrom (reportSections : list string) : list Report.t :=
  match reportSections with
  | [] => []
  | section :: following =>
      let report := reportOf section (head following) in
      (if Report.hasKeys report then [report] else []) ++ reportsFrom following
  end.

Definition extractInspectionReportsFromText (text : string) : list Report.t :=
  reportsFrom (tail (Js.split_re ReportPatterns.boundary text)).

(** How the promise of [parsePDFWithPositioning] settles. *)
Inductive settled : Type :=
| Resolved (result : parseResult)
| Rejected (message : string).

(** [parsePDFWithPositioning] from the reconstructed text on. *)
Definition parsePDFWithPositioning (rawText : string) (numPages : nat) : settled :=
  if String.length rawText =? 0 then
    Rejected "No text extracted from PDF - pdf2json failed"
  else
    let sectionProfile := extractSectionProfileFromText rawText in
    let inspectionReports := extractInspectionReportsFromText rawText in
    Resolved
      (Success rawText
         {| sectionProfile := sectionProfile;
            inspectionReports := inspectionReports;
            meta := {| totalPages := numPages;
                       totalPSREntries := length sectionProfile;
                       totalInspectionReports := length inspectionReports;
                       totalObservations := countObservations inspectionReports |} |}).

End Positioning.

(* ===================================================================== *)
(** ** The specification's words, and sample documents *)
(* ===================================================================== *)

(** The length-based rule as the specification tabulates it: for a digit
    run of a given length, how many digits go to the sequence number and
    how many to the PSR ([None]: sequence number only). *)
Definition lengthSplit (len : nat) : option (nat * nat) :=
  if len <=? 3 then None
  else if len =? 4 then Some (1, 3)
  else if len =? 5 then Some (2, 3)
  else if len =? 6 then Some (3, 3)
  else if len =? 7 then Some (len - 4, 4)
  else Some (len - 3, 3).

(** The composite key of the specification. *)
Definition compositeKey (e : Entry.t) : string * string * string :=
  (Entry.psr e, Entry.upstreamMH e, Entry.downstreamMH e).

(** The rows of a text before deduplication. *)
Definition extractedRows (text : string) : list Entry.t :=
  match exec Patterns.fullSection text with
  | None => []
  | Some m => sectionRows (matched m)
  end.

(** The priority order as the specification words it, line by line: the
    spaced pattern first and the anchor-based reconstruction only when it
    fails on the line. *)
Definition spacedLineEntry (line : string) : option Entry.t :=
  m ← exec Patterns.spacedPattern line;
  if complete (spacedEntry m) then Some (spacedEntry m) else None.

Definition spacedFirstRows (section : string) : list Entry.t :=
  omap (fun line =>
          if skipped line then None
          else orElse (spacedLineEntry line) (anchorLine line))
       (Js.split_nl section).

(** A report agrees with a profile row: same manholes and, when the report
    has a date, the same date. *)
Definition agrees (report : Report.t) (p : Entry.t) : Prop :=
  Report.upstreamMH report = Some (Entry.upstreamMH p)
  ∧ Report.downstreamMH report = Some (Entry.downstreamMH p)
  ∧ ∀ d, Report.date report = Some d → d = Entry.date p.

(** A report with the PSR and the pipe material of another. *)
Definition withPsrMaterial (psr pipeMaterial : option string) (r : Report.t)
  : Report.t :=
  {| Report.date := Report.date r;
     Report.certificateNumber := Report.certificateNumber r;
     Report.psr := psr;
     Report.surveyedBy := Report.surveyedBy r;
     Report.preCleaning := Report.preCleaning r;
     Report.direction := Report.direction r;
     Report.upstreamMH := Report.upstreamMH r;
     Report.downstreamMH := Report.downstreamMH r;
     Report.pipeShape := Report.pipeShape r;
     Report.pipeSize := Report.pipeSize r;
     Report.pipeMaterial := pipeMaterial;
     Report.sewerUse := Report.sewerUse r;
     Report.sewerCategory := Report.sewerCategory r;
     Report.jointsPassed := Report.jointsPassed r;
     Report.jointsFailed := Report.jointsFailed r;
     Report.totalGallonsUsed := Report.totalGallonsUsed r;
     Report.totalLength := Report.totalLength r;
     Report.lengthSurveyed := Report.lengthSurveyed r;
     Report.qsr := Report.qsr r;
     Report.qmr := Report.qmr r;
     Report.qor := Report.qor r;
     Report.spr := Report.spr r;
     Report.mpr := Report.mpr r;
     Report.opr := Report.opr r;
     Report.spri := Report.spri r;
     Report.mpri := Report.mpri r;
     Report.opri := Report.opri r;
     Report.observations := Report.observations r;
     Report.street := Report.street r;
     Report.city := Report.city r |}.

(** The first entry of greatest, and of least, total length. *)
Definition firstMaximal (sectionProfile : list Entry.t) : option Entry.t :=
  List.find (fun e => forallb (fun x => Js.le (Entry.totalLength x) (Entry.totalLength e))
                              sectionProfile) sectionProfile.

Definition firstMinimal (sectionProfile : list Entry.t) : option Entry.t :=
  List.find (fun e => forallb (fun x => Js.le (Entry.totalLength e) (Entry.totalLength x))
                              sectionProfile) sectionProfile.

(** A reduction step that keeps the current element unless the next one is
    better, and what it has selected among the elements met so far: the
    first one of greatest value. *)
Definition keep {A} (better : A → A → bool) (m p : A) : A :=
  if better p m then p else m.

Definition selected {A} (val : A → Q) (done : list A) (m : A) : Prop :=
  ∃ before after,
    done = (before ++ m :: after)%list
    ∧ (∀ x, x ∈ before → (val x < val m)%Q)
    ∧ (∀ x, x ∈ after → (val x <= val m)%Q).

(** Entries whose total length is a number, and a number other than
    zero. *)
Definition finite (e : Entry.t) : Prop := ∃ q, Entry.totalLength e = Js.Fin q.

Definition positive (e : Entry.t) : Prop :=
  ∃ q, Entry.totalLength e = Js.Fin q ∧ ¬ (q == 0)%Q.

Definition lengthOf (e : Entry.t) : Q :=
  match Entry.totalLength e with Js.Fin q => q | _ => 0 end.

(** The number of dashes of a text.  A row has the documented shape when
    its PSR has no dash and its upstream manhole ID has three, as in
    138-33-20-028. *)
Fixpoint dashes (s : string) : nat :=
  match s with
  | EmptyString => 0
  | String a s' => (if Chars.is_chr "-" a then 1 else 0) + dashes s'
  end.

Definition shaped (e : Entry.t) : Prop :=
  dashes (Entry.psr e) = 0 ∧ dashes (Entry.upstreamMH e) = 3.

(** The text of a list of decimal digits, and a token digit-dot-digit. *)
Definition digitChar (d : nat) : ascii := ascii_of_nat (48 + d).

Definition digitsText (ds : list nat) : string :=
  foldr (fun d s => String (digitChar d) s) "" ds.

Definition token (a b : nat) : string :=
  String (digitChar a) (String "." (String (digitChar b) "")).

(** Texts are written line by line. *)
Definition lines (ls : list string) : string :=
  foldr (fun l text => l +:+ String Chars.nl text) "" ls.

Module Sample.

(** A Section Profile row with its columns run together, and the same row
    with its columns apart. *)
Definition smashedRow : string :=
  "82797138-33-20-028138-33-20-02711/20/2024VCP61.2061.20".
Definition spacedRow : string :=
  "82 797 138-33-20-028 138-33-20-027 11/20/2024 VCP 61.20 61.20".

(** A report without PSR on the manholes and the date of that row. *)
Definition reportLines : list string :=
  ["Inspection report";
   "Date: 11/20/2024";
   "Upstream MH: 138-33-20-028";
   "Downstream MH: 138-33-20-027";
   "12.50 MWL Water level 00:01:02";
   "OPRI";
   "2.0"].

Definition document : string :=
  lines (["Section Profile"; "No. PSR Upstream MH Downstream MH"; spacedRow]
           ++ reportLines).

(** A second row with its columns run together; a section that holds a
    spaced row and that row; and a section that repeats a row. *)
Definition otherSmashedRow : string :=
  "91787138-33-20-027138-33-20-02611/21/2024PVC50.0050.00".
Definition mixedSection : string := lines [spacedRow; otherSmashedRow].
Definition mixedDocument : string :=
  lines ["Section Profile"; spacedRow; otherSmashedRow; "Inspection report"].
Definition repeatingDocument : string :=
  lines ["Section Profile"; smashedRow; otherSmashedRow; smashedRow].

(** A document whose report has a PSR and a blank material field. *)
Definition blankMaterialDocument : string :=
  lines ["Section Profile"; smashedRow;
         "Inspection report"; "PSR: 797"; "Pipe material:  Purpose: Sanitary"].

(** A document with a row of length zero before a longer one. *)
Definition zeroLengthDocument : string :=
  lines ["Section Profile";
         "1 101 138-33-20-028 138-33-20-027 11/20/2024 VCP 0.00 0.00";
         "2 102 138-33-20-027 138-33-20-026 11/20/2024 VCP 5.00 5.00"].

(** The values of the concatenated ratings layout under their labels. *)
Definition concatenatedWindow : string :=
  lines ["QSRQMRSPRMPROPRSPRIMPRIOPRI"; "110031001.03.01.03.02.04.0"].

End Sample.

(* ===================================================================== *)
(** ** What matches and extracted records look like *)
(* ===================================================================== *)

(** [all f s]: every character of [s] is in the class [f]. *)
Fixpoint all (f : ascii → bool) (s : string) : bool :=
  match s with
  | EmptyString => true
  | String a s' => f a && all f s'
  end.

Definition join (ts : list string) : string := foldr String.append "" ts.

(** The texts of a pattern: [text_of r t] when [t] has the form that [r]
    describes, whatever stands around it (anchors and lookaheads, which
    consume nothing, put no condition on [t]). *)
Fixpoint text_of (r : regex) (t : string) : Prop :=
  match r with
  | Eps | Bol _ | Eol _ | Look _ => t = ""
  | Cls f => ∃ a, t = String a "" ∧ f a = true
  | Seq r1 r2 => ∃ t1 t2, t = t1 +:+ t2 ∧ text_of r1 t1 ∧ text_of r2 t2
  | Alt r1 r2 => text_of r1 t ∨ text_of r2 t
  | Rep _ lo hi r1 =>
      ∃ ts, t = join ts ∧ Forall (text_of r1) ts
            ∧ rep_min lo hi ≤ length ts ∧ ∀ h, hi = Some h → length ts ≤ h
  | Grp _ r1 => text_of r1 t
  end.

(** The groups that take part in every match, each with its own pattern. *)
Fixpoint captured (r : regex) : list (nat * regex) :=
  match r with
  | Seq r1 r2 =>
      filter (fun x => fst x ∉ groups r2) (captured r1) ++ captured r2
  | Grp n r1 => (n, r1) :: filter (fun x => fst x ≠ n) (captured r1)
  | _ => []
  end.

(** What holds between the two ends of a match of [r]: the text between
    them is a text of [r], and each group of [captured r] holds a text of
    its pattern. *)
Definition within (r : regex) (p : pos) (c : caps) (p' : pos) (c' : caps) : Prop :=
  (∃ t, rest p = t +:+ rest p' ∧ text_of r t)
  ∧ (∀ n, n ∉ groups r → c' n = c n)
  ∧ (∀ n rn, (n, rn) ∈ captured r → ∃ u, c' n = Some u ∧ text_of rn u).

Definition faithful (mr : cont → cont) (r : regex) : Prop :=
  ∀ k p c res, mr k p c = Some res →
    ∃ p' c', within r p c p' c' ∧ k p' c' = Some res.

Definition fits (r : regex) (m : mres) : Prop :=
  text_of r (matched m)
  ∧ ∀ n rn, (n, rn) ∈ captured r → ∃ u, group m n = Some u ∧ text_of rn u.

(** The greedy loop [[f]{lo,}] of a character class, as a recursion on the
    text: the longest run first, then shorter ones. *)
Fixpoint greedy_run (f : ascii → bool) (lo : nat) (k : cont) (pv : option ascii)
         (s : string) (c : caps) : option (pos * caps) :=
  let stop := if lo =? 0 then k (Pos pv s) c else None in
  match s with
  | String a s' =>
      if f a then
        match greedy_run f (Nat.pred lo) k (Some a) s' c with
        | Some x => Some x
        | None => stop
        end
      else stop
  | EmptyString => stop
  end.

(** The length of the run of [f] at the start of [s], and the position
    [j] characters further. *)
Fixpoint run_length (f : ascii → bool) (s : string) : nat :=
  match s with
  | String a s' => if f a then S (run_length f s') else 0
  | EmptyString => 0
  end.

Fixpoint advance (j : nat) (pv : option ascii) (s : string) : pos :=
  match j, s with
  | S j', String a s' => advance j' (Some a) s'
  | _, _ => Pos pv s
  end.







(** *** The shapes of the extracted texts *)

Definition digits (s : string) : Prop := s ≠ "" ∧ all Chars.is_digit s = true.

Definition capitals (s : string) : Prop := s ≠ "" ∧ all Chars.is_upper s = true.

Definition manholeChar (a : ascii) : bool :=
  Chars.is_digit a || Chars.is_chr "-" a || Chars.is_upper a.

Definition manholeText (s : string) : Prop := s ≠ "" ∧ all manholeChar s = true.

Definition wordChar (a : ascii) : bool := Chars.is_word a || Chars.is_chr "-" a.

Definition wordText (s : string) : Prop := s ≠ "" ∧ all wordChar s = true.

(** A date m/d/yyyy with one or two digits of month and of day. *)
Definition dateText (s : string) : Prop :=
  ∃ m d y, s = m +:+ "/" +:+ d +:+ "/" +:+ y
           ∧ all Chars.is_digit m = true ∧ 1 ≤ String.length m ≤ 2
           ∧ all Chars.is_digit d = true ∧ 1 ≤ String.length d ≤ 2
           ∧ all Chars.is_digit y = true ∧ String.length y = 4.

(** A video counter hh:mm:ss. *)
Definition counterText (s : string) : Prop :=
  ∃ h m sec, s = h +:+ ":" +:+ m +:+ ":" +:+ sec
             ∧ all Chars.is_digit h = true ∧ String.length h = 2
             ∧ all Chars.is_digit m = true ∧ String.length m = 2
             ∧ all Chars.is_digit sec = true ∧ String.length sec = 2.

(** A number that counts: a natural number or, read from more digits than
    a double holds, [Infinity]; not [NaN] and not negative. *)
Definition countNumber (n : Js.number) : Prop :=
  n = Js.PosInf ∨ ∃ k : nat, n = Js.of_Z (Z.of_nat k).

(** [when P o]: the property [o], when it is there, satisfies [P]. *)
Definition when {A} (P : A → Prop) (o : option A) : Prop := ∀ x, o = Some x → P x.

Definition wellFormed (e : Entry.t) : Prop :=
  digits (Entry.no e) ∧ digits (Entry.psr e)
  ∧ manholeText (Entry.upstreamMH e) ∧ manholeText (Entry.downstreamMH e)
  ∧ dateText (Entry.date e) ∧ capitals (Entry.material e).

Definition observationWellFormed (o : Observation.t) : Prop :=
  capitals (Observation.code o) ∧ counterText (Observation.counter o).

Definition reportWellFormed (r : Report.t) : Prop :=
  when digits (Report.psr r) ∧ when dateText (Report.date r)
  ∧ when wordText (Report.upstreamMH r) ∧ when wordText (Report.downstreamMH r)
  ∧ when wordText (Report.certificateNumber r)
  ∧ when countNumber (Report.jointsPassed r) ∧ when countNumber (Report.jointsFailed r)
  ∧ when countNumber (Report.qor r)
  ∧ when (fun l => l ≠ [] ∧ Forall observationWellFormed l) (Report.observations r).

(** *** Counting *)

(** The observations of all reports, in order. *)
Definition allObservations (reports : list Report.t) : list Observation.t :=
  reports ≫= (fun r => default [] (Report.observations r)).

(** The value of a counter object at a key that was counted [n] times. *)
Definition occurrences (n : nat) : option nat := if n =? 0 then None else Some n.

(** The rank of a condition label, from best to worst. *)
Definition severity (label : string) : nat :=
  if String.eqb label "Excellent" then 0
  else if String.eqb label "Good" then 1
  else if String.eqb label "Fair" then 2
  else if String.eqb label "Poor" then 3
  else 4.

(* ===================================================================== *)
(** ** frontend: InspectionReportsTable *)
(* ===================================================================== *)

(** The two helpers of the table of inspection reports; [opri] is the
    property of a report, a number or [undefined]. *)
Module Table.

(** [!opri] *)
Definition falsy (opri : option Js.number) : bool :=
  match opri with
  | Some n => negb (Js.truthy_num n)
  | None => true
  end.

(** [opri <= t]; a comparison with [undefined] is false. *)
Definition below (opri : option Js.number) (t : Q) : bool :=
  match opri with
  | Some n => Js.le n (Js.Fin t)
  | None => false
  end.

Definition getOPRIClass (opri : option Js.number) : string :=
  if falsy opri then ""
  else if below opri 1.5 then "opri-excellent"
  else if below opri 2.5 then "opri-good"
  else if below opri 3.5 then "opri-fair"
  else if below opri 4.5 then "opri-poor"
  else "opri-very-poor".

Definition getConditionLabel (opri : option Js.number) : string :=
  if falsy opri then "N/A"
  else if below opri 1.5 then "Excellent"
  else if below opri 2.5 then "Good"
  else if below opri 3.5 then "Fair"
  else if below opri 4.5 then "Poor"
  else "Very Poor".

End Table.

(* ===================================================================== *)
(** ** backend/server.js: the search of Section Profile entries *)
(* ===================================================================== *)

Module Server.

(** [c.toLowerCase()] on a code unit below 256: the capital letters A-Z
    and the capital letters of Latin-1 (U+00C0 to U+00DE without U+00D7)
    have their small letter 32 further. *)
Definition to_lower (a : ascii) : ascii :=
  if Chars.is_upper a || Chars.in_range 192 214 a || Chars.in_range 216 222 a
  then ascii_of_nat (Chars.code a + 32) else a.

Fixpoint toLowerCase (s : string) : string :=
  match s with
  | EmptyString => EmptyString
  | String a s' => String (to_lower a) (toLowerCase s')
  end.

(** The query string of [GET /api/data/:id/search]: each parameter is
    absent or given once. *)
Record query : Type := Query {
  q : option string;
  material : option string;
  minLength : option string;
  maxLength : option string
}.

(** The test of the filter by [q], on the query in lower case. *)
Definition matchesQuery (query : string) (p : Entry.t) : bool :=
  Js.includes (toLowerCase (Entry.psr p)) query
  || Js.includes (toLowerCase (Entry.upstreamMH p)) query
  || Js.includes (toLowerCase (Entry.downstreamMH p)) query.

(** One step [if (param) { results = results.filter(...) }]. *)
Definition narrow (param : option string) (test : string → Entry.t → bool)
           (results : list Entry.t) : list Entry.t :=
  match param with
  | Some v => if Js.truthy param then filter (fun p => test v p = true) results
              else results
  | None => results
  end.

(** The results of the handler for the stored [sectionProfile]. *)
Definition search (sectionProfile : list Entry.t) (qu : query) : list Entry.t :=
  let results := sectionProfile in
  let results := narrow (q qu) (fun v => matchesQuery (toLowerCase v)) results in
  let results :=
    narrow (material qu) (fun v p => bool_decide (Entry.material p = v)) results in
  let results :=
    narrow (minLength qu)
           (fun v p => Js.le (Js.parseFloat v) (Entry.totalLength p)) results in
  narrow (maxLength qu)
         (fun v p => Js.le (Entry.totalLength p) (Js.parseFloat v)) results.

End Server.

(** What a parameter asks of an entry: nothing when it is absent or empty;
    and the criteria of a query. *)
Definition asks (param : option string) (test : string → Entry.t → bool)
           (p : Entry.t) : bool :=
  match param with
  | Some (String a v) => test (String a v) p
  | _ => true
  end.

Definition passes (qu : Server.query) (p : Entry.t) : bool :=
  asks (Server.q qu) (fun v => Server.matchesQuery (Server.toLowerCase v)) p
  && asks (Server.material qu) (fun v p => bool_decide (Entry.material p = v)) p
  && asks (Server.minLength qu)
          (fun v p => Js.le (Js.parseFloat v) (Entry.totalLength p)) p
  && asks (Server.maxLength qu)
          (fun v p => Js.le (Entry.totalLength p) (Js.parseFloat v)) p.

(** More sample documents. *)
Module Example.

(** Two spaced rows with different keys and the same key text 1-2-3-4. *)
Definition collidingDocument : string :=
  lines ["Section Profile";
         "1 1 2-3 4 1/1/2024 VCP 1.0 1.0";
         "2 1 2 3-4 1/1/2024 VCP 1.0 1.0"].

(** The same with the second row repeated: the second and third rows share
    their key. *)
Definition shadowedDocument : string :=
  lines ["Section Profile";
         "1 1 2-3 4 1/1/2024 VCP 1.0 1.0";
         "2 1 2 3-4 1/1/2024 VCP 1.0 1.0";
         "3 1 2 3-4 1/1/2024 VCP 1.0 1.0"].

(** The report of [Sample.document] after a row with its columns run
    together. *)
Definition materialDocument : string :=
  lines (["Section Profile"; Sample.smashedRow] ++ Sample.reportLines).


End Example.

(** Closes the goal that a pattern without guaranteed group guarantees
    none. *)
Ltac no_guarantee := simpl; intros ? ? ?%elem_of_nil; done.

(** The same for the captured groups. *)
Ltac no_capture := simpl; intros ? ? ?%elem_of_nil; done.

(* ===================================================================== *)
(** ** Facts about strings *)
(* ===================================================================== *)

Section StringFacts.

Implicit Types s t : string.

Lemma length_substring0 (n : nat) s :
  String.length (substring 0 n s) = Nat.min n (String.length s).
Proof.
  revert n; induction s as [|a s IH]; intros [|n]; simpl; auto.
Qed.

Lemma length_substring (a m : nat) s :
  a + m ≤ String.length s → String.length (substring a m s) = m.
Proof.
  revert a m; induction s as [|c s IH]; intros a m H; simpl in H.
  - assert (a = 0 ∧ m = 0) as [-> ->] by lia. done.
  - destruct a as [|a].
    + destruct m as [|m]; [done|]. simpl. f_equal. apply (IH 0 m). lia.
    + simpl. apply IH. lia.
Qed.

Lemma substring_whole s : substring 0 (String.length s) s = s.
Proof. induction s as [|c s IH]; simpl; [done|by rewrite IH]. Qed.

Lemma append_cons (c : ascii) s t : String c s +:+ t = String c (s +:+ t).
Proof. reflexivity. Qed.

Lemma append_nil s : "" +:+ s = s.
Proof. reflexivity. Qed.

Lemma substring_cut (a : nat) s :
  a ≤ String.length s →
  substring 0 a s +:+ substring a (String.length s - a) s = s.
Proof.
  revert a; induction s as [|c s IH]; intros a H; simpl in H.
  - assert (a = 0) as -> by lia. done.
  - destruct a as [|a]; simpl.
    + by rewrite substring_whole.
    + rewrite append_cons. f_equal. apply IH. lia.
Qed.

(** [s.substring(a, b)] within the bounds of [s]. *)
Lemma substring2_inside s (a b : nat) :
  a ≤ b → b ≤ String.length s →
  Js.substring2 s (Z.of_nat a) (Z.of_nat b) = substring a (b - a) s.
Proof.
  intros Hab Hb. unfold Js.substring2, Js.clamp. rewrite !Nat2Z.id.
  replace (Nat.min a (String.length s)) with a by lia.
  replace (Nat.min b (String.length s)) with b by lia.
  replace (Nat.min a b) with a by lia. replace (Nat.max a b) with b by lia. done.
Qed.

Lemma substring1_inside s (a : nat) :
  a ≤ String.length s →
  Js.substring1 s (Z.of_nat a) = substring a (String.length s - a) s.
Proof. intros H. unfold Js.substring1. by apply substring2_inside. Qed.

(** Cutting [s] at [a]: the two parts, their lengths and their sum. *)
Lemma cut_at s (a : nat) :
  a ≤ String.length s →
  s = Js.substring2 s 0 (Z.of_nat a) +:+ Js.substring1 s (Z.of_nat a)
  ∧ String.length (Js.substring2 s 0 (Z.of_nat a)) = a
  ∧ String.length (Js.substring1 s (Z.of_nat a)) = String.length s - a.
Proof.
  intros H. change 0%Z with (Z.of_nat 0).
  rewrite (substring2_inside s 0 a) by lia.
  rewrite substring1_inside by done. rewrite Nat.sub_0_r.
  rewrite substring_cut by done. rewrite !length_substring by lia. done.
Qed.

Lemma truthy_Some s : Js.truthy (Some s) = true ↔ s ≠ "".
Proof. destruct s; simpl; split; (done || congruence). Qed.

Lemma truthy_nonempty (o : option string) :
  Js.truthy o = true ↔ ∃ s, o = Some s ∧ s ≠ "".
Proof.
  destruct o as [[|a s]|]; simpl; split; try done.
  - by intros (? & [= <-] & ?).
  - eauto.
  - by intros (? & ? & ?).
Qed.

Lemma length_nonempty s : 0 < String.length s → s ≠ "".
Proof. destruct s; simpl; [lia|done]. Qed.

End StringFacts.

(* ===================================================================== *)
(** ** Facts about the matcher *)
(* ===================================================================== *)

Section MatcherFacts.

Lemma length_consumed (s : string) (p' : pos) (m : nat) :
  String.length (rest p') + m ≤ String.length s →
  m ≤ String.length (consumed s p').
Proof.
  intros H. unfold consumed. rewrite length_substring0. lia.
Qed.

(** The loop of a quantifier consumes at least its required iterations and
    leaves the captures outside its body alone. *)
Lemma rep_loop_post (mr : cont → cont) (r : regex) (g : bool) :
  sound mr r →
  ∀ fuel lo hi k p c res,
    rep_loop mr g fuel lo hi k p c = Some res →
    ∃ p' c',
      (String.length (rest p') + rep_min lo hi * min_len r ≤ String.length (rest p)
       ∧ ∀ n, n ∉ groups r → c' n = c n)
      ∧ k p' c' = Some res.
Proof.
  intros Hmr. induction fuel as [|fuel IH]; intros lo hi k p c res H; [done|].
  assert (Hstop : k p c = Some res → rep_min lo hi = 0 →
          ∃ p' c', (String.length (rest p') + rep_min lo hi * min_len r
                      ≤ String.length (rest p)
                    ∧ ∀ n, n ∉ groups r → c' n = c n) ∧ k p' c' = Some res).
  { intros Hk Hz. exists p, c. rewrite Hz. split; [split; [simpl; lia | done] | done]. }
  assert (Hiter : ∀ d : cont,
             (d = fun p' c' =>
                if (lo =? 0) && (String.length (rest p') =? String.length (rest p))
                then None
                else rep_loop mr g fuel (Nat.pred lo) (Nat.pred <$> hi) k p' c') →
             hi ≠ Some 0 →
             mr d p c = Some res →
          ∃ p' c', (String.length (rest p') + rep_min lo hi * min_len r
                      ≤ String.length (rest p)
                    ∧ ∀ n, n ∉ groups r → c' n = c n) ∧ k p' c' = Some res).
  { intros d -> Hhi Hm. apply Hmr in Hm as (p1 & c1 & (Hl1 & Hc1 & _) & Hd).
    destruct ((lo =? 0) && _) in Hd; [done|].
    apply IH in Hd as (p2 & c2 & (Hl2 & Hc2) & Hk).
    exists p2, c2. split; [split|done].
    - assert (rep_min lo hi ≤ S (rep_min (Nat.pred lo) (Nat.pred <$> hi))).
      { destruct hi as [[|h]|]; simpl; [done|lia|lia]. }
      nia.
    - intros n Hn. rewrite Hc2, Hc1; done. }
  simpl in H. destruct hi as [[|h]|].
  - apply Hstop; [done|]. simpl. lia.
  - destruct (0 <? lo) eqn:Hlo.
    + eapply Hiter; [reflexivity|done|done].
    + apply Nat.ltb_ge in Hlo. destruct g.
      * destruct (mr _ p c) eqn:Hm.
        -- injection H as ->. eapply Hiter; [reflexivity|done|done].
        -- apply Hstop; [done|]. simpl. lia.
      * destruct (k p c) eqn:Hk.
        -- injection H as ->. apply Hstop; [done|]. simpl. lia.
        -- eapply Hiter; [reflexivity|done|done].
  - destruct (0 <? lo) eqn:Hlo.
    + eapply Hiter; [reflexivity|done|done].
    + apply Nat.ltb_ge in Hlo. destruct g.
      * destruct (mr _ p c) eqn:Hm.
        -- injection H as ->. eapply Hiter; [reflexivity|done|done].
        -- apply Hstop; [done|]. simpl. lia.
      * destruct (k p c) eqn:Hk.
        -- injection H as ->. apply Hstop; [done|]. simpl. lia.
        -- eapply Hiter; [reflexivity|done|done].
Qed.

(** A match of [r] consumes at least [min_len r] characters, sets no
    capture outside the groups of [r], and sets each guaranteed one. *)
Lemma rmatch_post (r : regex) : sound (rmatch r) r.
Proof.
  induction r as [|f|r1 IH1 r2 IH2|r1 IH1 r2 IH2|g lo hi r1 IH1|n r1 IH1|ml|ml|r1 IH1];
    intros k p c res H; simpl in H.
  - exists p, c. split; [|done]. split; [simpl; lia|]. split; [done|no_guarantee].
  - destruct (rest p) as [|a s] eqn:Hr; [done|]. destruct (f a); [|done].
    eexists _, _. split; [|exact H]. split; [simpl; rewrite Hr; simpl; lia|].
    split; [done|no_guarantee].
  - apply IH1 in H as (p1 & c1 & (Hl1 & Hc1 & Hg1) & H).
    apply IH2 in H as (p2 & c2 & (Hl2 & Hc2 & Hg2) & H).
    exists p2, c2. split; [|done]. split; [simpl; lia|]. split.
    + simpl. intros n Hn. rewrite not_elem_of_app in Hn. destruct Hn.
      rewrite Hc2, Hc1; done.
    + simpl. intros n ml [Hin|Hin]%elem_of_app.
      * apply list_elem_of_filter in Hin as [Hnot Hin]. simpl in Hnot.
        rewrite Hc2 by done. eauto.
      * eauto.
  - destruct (rmatch r1 k p c) eqn:H1.
    + injection H as ->. apply IH1 in H1 as (p1 & c1 & (Hl1 & Hc1 & _) & H).
      exists p1, c1. split; [|done]. split; [simpl; lia|]. split; [|no_guarantee].
      simpl. intros n Hn. rewrite not_elem_of_app in Hn. destruct Hn. auto.
    + apply IH2 in H as (p1 & c1 & (Hl1 & Hc1 & _) & H).
      exists p1, c1. split; [|done]. split; [simpl; lia|]. split; [|no_guarantee].
      simpl. intros n Hn. rewrite not_elem_of_app in Hn. destruct Hn. auto.
  - apply (rep_loop_post _ r1 g IH1) in H as (p1 & c1 & (Hl1 & Hc1) & H).
    exists p1, c1. split; [|done]. split; [exact Hl1|]. split; [exact Hc1|no_guarantee].
  - apply IH1 in H as (p1 & c1 & (Hl1 & Hc1 & Hg1) & H).
    eexists _, _. split; [|exact H]. split; [simpl; lia|]. split.
    + simpl. intros m Hm. rewrite not_elem_of_cons in Hm. destruct Hm as [Hne Hm].
      unfold set_cap. destruct (m =? n) eqn:E; [apply Nat.eqb_eq in E; done|]. auto.
    + simpl. intros m ml [Heq|Hin]%elem_of_cons.
      * injection Heq as -> ->. unfold set_cap. rewrite Nat.eqb_refl.
        eexists. split; [done|]. apply length_consumed. lia.
      * apply list_elem_of_filter in Hin as [Hne Hin]. simpl in Hne.
        unfold set_cap. destruct (m =? n) eqn:E; [apply Nat.eqb_eq in E; done|]. eauto.
  - destruct (at_bol ml p); [|done]. exists p, c. split; [|done].
    split; [simpl; lia|]. split; [done|no_guarantee].
  - destruct (at_eol ml p); [|done]. exists p, c. split; [|done].
    split; [simpl; lia|]. split; [done|no_guarantee].
  - destruct (rmatch r1 _ p c) as [[p1 c1]|] eqn:H1; [|done].
    apply IH1 in H1 as (p2 & c2 & (Hl1 & Hc1 & _) & H1). injection H1 as -> ->.
    exists p, c1. split; [|done]. split; [simpl; lia|]. split; [exact Hc1|no_guarantee].
Qed.

Lemma accept_good (r : regex) (pv : option ascii) (s : string) (i : nat)
      (p' : pos) (c : caps) :
  rmatch r accept (Pos pv s) no_caps = Some (p', c) →
  good r (MRes i (consumed s p') c p').
Proof.
  intros Hm. apply rmatch_post in Hm as (p1 & c1 & (Hl & _ & Hg) & Hk).
  injection Hk as -> ->. split; [apply length_consumed; exact Hl | exact Hg].
Qed.

Lemma exec_from_good (r : regex) (s : string) :
  ∀ pv i m, exec_from r pv s i = Some m → good r m.
Proof.
  induction s as [|a s IH]; intros pv i m H; simpl in H;
    destruct (rmatch r accept _ no_caps) as [[p' c']|] eqn:Hm.
  - injection H as <-. by eapply accept_good.
  - done.
  - injection H as <-. by eapply accept_good.
  - by eapply IH.
Qed.

Lemma exec_good (r : regex) (s : string) (m : mres) :
  exec r s = Some m → good r m.
Proof. apply exec_from_good. Qed.

Lemma all_from_good (r : regex) :
  ∀ fuel pv s i, Forall (good r) (all_from fuel r pv s i).
Proof.
  induction fuel as [|fuel IH]; intros pv s i; simpl; [constructor|].
  destruct (exec_from r pv s i) as [m|] eqn:H; [|constructor].
  constructor; [by eapply exec_from_good|].
  destruct (matched m); [destruct (rest (after m)); [constructor|apply IH]|apply IH].
Qed.

Lemma match_all_good (r : regex) (s : string) : Forall (good r) (match_all r s).
Proof. apply all_from_good. Qed.

(** The patterns run in an [exec] loop match no empty text, so each turn
    of the loop moves on in the text. *)
Lemma loop_matches_consume (s : string) (m : mres) :
  m ∈ match_all Patterns.spacedPattern s ∨ m ∈ match_all ReportPatterns.obsPattern s →
  matched m ≠ "".
Proof.
  intros [Hm|Hm].
  - pose proof (match_all_good Patterns.spacedPattern s) as Hg.
    rewrite Forall_forall in Hg. destruct (Hg m Hm) as [Hl _].
    apply length_nonempty.
    assert (0 < min_len Patterns.spacedPattern) by (vm_compute; lia). lia.
  - pose proof (match_all_good ReportPatterns.obsPattern s) as Hg.
    rewrite Forall_forall in Hg. destruct (Hg m Hm) as [Hl _].
    apply length_nonempty.
    assert (0 < min_len ReportPatterns.obsPattern) by (vm_compute; lia). lia.
Qed.

(** A capture that the pattern guarantees, with its least length. *)
Lemma group_guaranteed (r : regex) (s : string) (m : mres) (n ml : nat) :
  exec r s = Some m → (n, ml) ∈ guaranteed r →
  ∃ t, group m n = Some t ∧ ml ≤ String.length t.
Proof. intros H Hin. apply exec_good in H as [_ Hg]. eauto. Qed.

Lemma field_length (r : regex) (s t : string) (ml : nat) :
  field r s = Some t → (1, ml) ∈ guaranteed r → ml ≤ String.length t.
Proof.
  unfold field. intros H Hin. destruct (exec r s) as [m|] eqn:Hm; [|done]. simpl in H.
  destruct (group_guaranteed _ _ _ _ _ Hm Hin) as (t' & Ht & Hl). congruence.
Qed.

(** *** The fuel of the loops is enough *)

Lemma agree_upto_le (n m : nat) (k k' : cont) :
  m ≤ n → agree_upto n k k' → agree_upto m k k'.
Proof. intros Hmn H p' c' Hp. apply H. lia. Qed.

Lemma rep_loop_local (mr : cont → cont) (g : bool) :
  local mr → ∀ fuel lo hi, local (rep_loop mr g fuel lo hi).
Proof.
  intros Hmr. induction fuel as [|fuel IH]; intros lo hi k k' p c Hk; simpl; [done|].
  assert (k p c = k' p c) as Hkp by (by apply Hk).
  assert (mr (fun p' c' =>
                if (lo =? 0) && (String.length (rest p') =? String.length (rest p))
                then None
                else rep_loop mr g fuel (Nat.pred lo) (Nat.pred <$> hi) k p' c') p c
          = mr (fun p' c' =>
                if (lo =? 0) && (String.length (rest p') =? String.length (rest p))
                then None
                else rep_loop mr g fuel (Nat.pred lo) (Nat.pred <$> hi) k' p' c') p c)
    as Hm.
  { apply Hmr. intros p' c' Hp. destruct (_ && _); [done|].
    apply IH. by apply agree_upto_le with (String.length (rest p)). }
  destruct hi as [[|h]|]; [done|by rewrite Hm, Hkp..].
Qed.

(** A match from a position calls its continuation only at that position
    or further in the text. *)
Lemma rmatch_local (r : regex) : local (rmatch r).
Proof.
  induction r as [|f|r1 IH1 r2 IH2|r1 IH1 r2 IH2|g lo hi r1 IH1|n r1 IH1|ml|ml|r1 IH1];
    intros k k' p c Hk; simpl.
  - by apply Hk.
  - destruct (rest p) as [|a s] eqn:Hr; [done|]. destruct (f a); [|done].
    apply Hk. simpl. lia.
  - apply IH1. intros p1 c1 Hp1. apply IH2.
    by apply agree_upto_le with (String.length (rest p)).
  - by rewrite (IH1 k k'), (IH2 k k').
  - by apply rep_loop_local.
  - apply IH1. intros p1 c1 Hp1. by apply Hk.
  - destruct (at_bol ml p); [by apply Hk|done].
  - destruct (at_eol ml p); [by apply Hk|done].
  - destruct (rmatch r1 _ p c) as [[p1 c1]|]; [by apply Hk|done].
Qed.

(** Beyond [lo + length (rest p)], more fuel changes nothing: the loop of a
    quantifier never runs out of the fuel [rmatch] gives it. *)
Lemma rep_loop_fuel (mr : cont → cont) (g : bool) :
  local mr →
  ∀ fuel fuel' lo hi k p c,
    lo + String.length (rest p) < fuel → lo + String.length (rest p) < fuel' →
    rep_loop mr g fuel lo hi k p c = rep_loop mr g fuel' lo hi k p c.
Proof.
  intros Hmr. induction fuel as [|fuel IH]; intros fuel' lo hi k p c Hf Hf'; [lia|].
  destruct fuel' as [|fuel']; [lia|]. simpl.
  assert (mr (fun p' c' =>
                if (lo =? 0) && (String.length (rest p') =? String.length (rest p))
                then None
                else rep_loop mr g fuel (Nat.pred lo) (Nat.pred <$> hi) k p' c') p c
          = mr (fun p' c' =>
                if (lo =? 0) && (String.length (rest p') =? String.length (rest p))
                then None
                else rep_loop mr g fuel' (Nat.pred lo) (Nat.pred <$> hi) k p' c') p c)
    as Hm.
  { apply Hmr. intros p' c' Hp.
    destruct (lo =? 0) eqn:Hlo; simpl.
    - apply Nat.eqb_eq in Hlo.
      destruct (String.length (rest p') =? String.length (rest p)) eqn:He; [done|].
      apply Nat.eqb_neq in He. apply IH; lia.
    - apply Nat.eqb_neq in Hlo. apply IH; lia. }
  destruct hi as [[|h]|]; [done|by rewrite Hm..].
Qed.

Lemma rmatch_rep_fuel (g : bool) (lo : nat) (hi : option nat) (r : regex)
      (k : cont) (p : pos) (c : caps) (more : nat) :
  rep_loop (rmatch r) g (lo + String.length (rest p) + 1 + more) lo hi k p c
  = rmatch (Rep g lo hi r) k p c.
Proof. simpl. apply rep_loop_fuel; [apply rmatch_local|lia..]. Qed.

Lemma exec_from_bound (r : regex) (s : string) :
  ∀ pv i m, exec_from r pv s i = Some m →
    String.length (rest (after m)) + String.length (matched m) ≤ String.length s.
Proof.
  assert (∀ pv s0 p' c, rmatch r accept (Pos pv s0) no_caps = Some (p', c) →
            String.length (rest p') + String.length (consumed s0 p')
            ≤ String.length s0) as Hacc.
  { intros pv s0 p' c Hm. apply rmatch_post in Hm as (p1 & c1 & (Hl & _) & Hk).
    injection Hk as -> ->. simpl in Hl. unfold consumed. rewrite length_substring0. lia. }
  induction s as [|a s IH]; intros pv i m H; simpl in H;
    destruct (rmatch r accept _ no_caps) as [[p' c']|] eqn:Hm.
  - injection H as <-. by eapply Hacc.
  - done.
  - injection H as <-. by eapply Hacc.
  - apply IH in H. simpl. lia.
Qed.

(** Beyond the length of the text, more fuel changes nothing: the list of
    the successive matches is complete. *)
Lemma all_from_fuel (r : regex) :
  ∀ fuel fuel' pv s i,
    String.length s < fuel → String.length s < fuel' →
    all_from fuel r pv s i = all_from fuel' r pv s i.
Proof.
  induction fuel as [|fuel IH]; intros fuel' pv s i Hf Hf'; [lia|].
  destruct fuel' as [|fuel']; [lia|]. simpl.
  destruct (exec_from r pv s i) as [m|] eqn:Hm; [|done]. f_equal.
  apply exec_from_bound in Hm.
  destruct (matched m) as [|a t] eqn:Ht.
  - destruct (rest (after m)) as [|b s'] eqn:Hr; [done|]. simpl in Hm. apply IH; lia.
  - simpl in Hm. apply IH; lia.
Qed.

Lemma match_all_fuel (r : regex) (s : string) (more : nat) :
  all_from (S (String.length s) + more) r None s 0 = match_all r s.
Proof. apply all_from_fuel; lia. Qed.

End MatcherFacts.

(* ===================================================================== *)
(** ** The Section Profile extractor *)
(* ===================================================================== *)

Section SectionProfile.

(** The split of a digit run follows the table of the specification. *)
Lemma splitNoPsr_table (allDigits : string) :
  match lengthSplit (String.length allDigits) with
  | None => splitNoPsr allDigits = (allDigits, None)
  | Some (a, b) =>
      ∃ no psr, splitNoPsr allDigits = (no, Some psr)
                ∧ allDigits = no +:+ psr
                ∧ String.length no = a ∧ String.length psr = b
  end.
Proof.
  unfold lengthSplit, splitNoPsr, Js.len.
  set (n := String.length allDigits).
  assert (Hcut : ∀ a : nat, a ≤ n →
            allDigits = Js.substring2 allDigits 0 (Z.of_nat a)
                        +:+ Js.substring1 allDigits (Z.of_nat a)
            ∧ String.length (Js.substring2 allDigits 0 (Z.of_nat a)) = a
            ∧ String.length (Js.substring1 allDigits (Z.of_nat a)) = n - a)
    by (intros a Ha; by apply cut_at).
  assert (Hend : ∀ a, Js.substring2 allDigits a (Z.of_nat n) = Js.substring1 allDigits a)
    by done.
  destruct (n <=? 3) eqn:E3; [done|]. apply Nat.leb_gt in E3.
  destruct (n =? 4) eqn:E4.
  { apply Nat.eqb_eq in E4. destruct (Hcut 1) as (H1 & H2 & H3); [lia|].
    rewrite <- (Hend (Z.of_nat 1)), E4 in H1, H3.
    change (Z.of_nat 1) with 1%Z in *. change (Z.of_nat 4) with 4%Z in *.
    eexists _, _. split; [done|]. split; [exact H1|]. split; [exact H2|].
    rewrite H3. lia. }
  destruct (n =? 5) eqn:E5.
  { apply Nat.eqb_eq in E5. destruct (Hcut 2) as (H1 & H2 & H3); [lia|].
    rewrite <- (Hend (Z.of_nat 2)), E5 in H1, H3.
    change (Z.of_nat 2) with 2%Z in *. change (Z.of_nat 5) with 5%Z in *.
    eexists _, _. split; [done|]. split; [exact H1|]. split; [exact H2|].
    rewrite H3. lia. }
  destruct (n =? 6) eqn:E6.
  { apply Nat.eqb_eq in E6. destruct (Hcut 3) as (H1 & H2 & H3); [lia|].
    rewrite <- (Hend (Z.of_nat 3)), E6 in H1, H3.
    change (Z.of_nat 3) with 3%Z in *. change (Z.of_nat 6) with 6%Z in *.
    eexists _, _. split; [done|]. split; [exact H1|]. split; [exact H2|].
    rewrite H3. lia. }
  destruct (n =? 7) eqn:E7.
  { destruct (Hcut (n - 4)) as (H1 & H2 & H3); [lia|].
    replace (Z.of_nat n - 4)%Z with (Z.of_nat (n - 4)) by lia.
    eexists _, _. split; [done|]. split; [exact H1|]. split; [exact H2|].
    rewrite H3. lia. }
  destruct (Hcut (n - 3)) as (H1 & H2 & H3); [lia|].
  replace (Z.of_nat n - 3)%Z with (Z.of_nat (n - 3)) by lia.
  eexists _, _. split; [done|]. split; [exact H1|]. split; [exact H2|].
  rewrite H3. lia.
Qed.

(** The entry of a line carries the two parts of the split of its digit
    run. *)
Lemma anchorLine_split (line upstreamMH downstreamMH allDigits : string)
      (e : Entry.t) :
  anchors line = Some (upstreamMH, downstreamMH) →
  digitsBeforeMH line upstreamMH = Some allDigits →
  anchorLine line = Some e →
  splitNoPsr allDigits = (Entry.no e, Some (Entry.psr e))
  ∧ Entry.psr e ≠ ""
  ∧ Entry.upstreamMH e = upstreamMH ∧ Entry.downstreamMH e = downstreamMH.
Proof.
  intros Ha Hd. unfold anchorLine. rewrite Ha. simpl. rewrite Hd. simpl.
  destruct (splitNoPsr allDigits) as [no psr].
  destruct (restMatch line downstreamMH) as [rm|]; simpl; [|done].
  destruct (Js.truthy psr) eqn:Ht; [|done].
  apply truthy_nonempty in Ht as (s & -> & Hs). by intros [= <-].
Qed.

(** C1.  On a line handled by the anchor-based reconstruction, the digit
    run before the first manhole ID is split by its length alone, as the
    table [lengthSplit] says: up to 3 digits give a sequence number and no
    PSR (and the line gives no entry); 4 digits split 1/3, 5 digits 2/3,
    6 digits 3/3, 7 digits (len-4)/4 and longer runs (len-3)/3, the entry
    of the line carrying the two parts.  The runs 1407, 82797 and 191642
    give 1 and 407, 82 and 797, 191 and 642. *)
Theorem C1_length_split :
  (∀ line upstreamMH downstreamMH allDigits,
     anchors line = Some (upstreamMH, downstreamMH) →
     digitsBeforeMH line upstreamMH = Some allDigits →
     match lengthSplit (String.length allDigits) with
     | None => splitNoPsr allDigits = (allDigits, None) ∧ anchorLine line = None
     | Some (a, b) =>
         ∃ no psr, splitNoPsr allDigits = (no, Some psr)
                   ∧ allDigits = no +:+ psr
                   ∧ String.length no = a ∧ String.length psr = b
                   ∧ ∀ e, anchorLine line = Some e →
                          Entry.no e = no ∧ Entry.psr e = psr
     end)
  ∧ splitNoPsr "1407" = ("1", Some "407")
  ∧ splitNoPsr "82797" = ("82", Some "797")
  ∧ splitNoPsr "191642" = ("191", Some "642").
Proof.
  split; [|by vm_compute].
  intros line upstreamMH downstreamMH allDigits Ha Hd.
  pose proof (splitNoPsr_table allDigits) as Ht.
  destruct (lengthSplit (String.length allDigits)) as [[a b]|].
  - destruct Ht as (no & psr & Hs & Hcat & Hno & Hpsr).
    exists no, psr. do 4 (split; [done|]). intros e He.
    destruct (anchorLine_split _ _ _ _ e Ha Hd He) as [Hs' _].
    rewrite Hs in Hs'. by injection Hs' as -> ->.
  - split; [done|]. destruct (anchorLine line) as [e|] eqn:He; [|done].
    destruct (anchorLine_split _ _ _ _ e Ha Hd He) as [Hs _]. congruence.
Qed.

Lemma C1_length_split_witness :
  anchors Sample.smashedRow = Some ("138-33-20-028", "138-33-20-027")
  ∧ digitsBeforeMH Sample.smashedRow "138-33-20-028" = Some "82797"
  ∧ ∃ no psr, splitNoPsr "82797" = (no, Some psr)
              ∧ "82797" = no +:+ psr
              ∧ String.length no = 2 ∧ String.length psr = 3
              ∧ ∀ e, anchorLine Sample.smashedRow = Some e →
                     Entry.no e = no ∧ Entry.psr e = psr.
Proof.
  split; [by vm_compute|]. split; [by vm_compute|].
  apply (proj1 C1_length_split Sample.smashedRow "138-33-20-028" "138-33-20-027"
           "82797"); by vm_compute.
Defined.

(** *** Where the rows come from *)

Lemma anchors_length (line upstreamMH downstreamMH : string) :
  anchors line = Some (upstreamMH, downstreamMH) →
  12 ≤ String.length upstreamMH ∧ 12 ≤ String.length downstreamMH.
Proof.
  unfold anchors. pose proof (match_all_good Patterns.mhPattern line) as Hg.
  destruct (match_all Patterns.mhPattern line) as [|m0 [|m1 ms]]; [done..|].
  intros [= <- <-].
  apply Forall_cons in Hg as [[H0 _] Hg]. apply Forall_cons in Hg as [[H1 _] _].
  done.
Qed.

Lemma anchorLine_inv (line : string) (e : Entry.t) :
  anchorLine line = Some e →
  ∃ allDigits,
    anchors line = Some (Entry.upstreamMH e, Entry.downstreamMH e)
    ∧ digitsBeforeMH line (Entry.upstreamMH e) = Some allDigits
    ∧ splitNoPsr allDigits = (Entry.no e, Some (Entry.psr e))
    ∧ Entry.psr e ≠ "".
Proof.
  intros He. destruct (anchors line) as [[up down]|] eqn:Ha;
    [|by unfold anchorLine in He; rewrite Ha in He].
  destruct (digitsBeforeMH line up) as [d|] eqn:Hd;
    [|by unfold anchorLine in He; rewrite Ha in He; simpl in He; rewrite Hd in He].
  destruct (anchorLine_split _ _ _ _ _ Ha Hd He) as (Hs & Hp & <- & <-).
  by exists d.
Qed.

Lemma elem_of_anchorRows (section : string) (e : Entry.t) :
  e ∈ anchorRows section ↔
  ∃ line, line ∈ Js.split_nl section ∧ skipped line = false
          ∧ anchorLine line = Some e.
Proof.
  unfold anchorRows. rewrite list_elem_of_omap. split.
  - intros (line & Hin & H). exists line. destruct (skipped line); [done|]. done.
  - intros (line & Hin & Hs & H). exists line. by rewrite Hs.
Qed.

Lemma anchorRows_nil (section : string) :
  anchorRows section = [] ↔
  ∀ line, line ∈ Js.split_nl section → skipped line = false →
          anchorLine line = None.
Proof.
  split.
  - intros Hnil line Hin Hs. destruct (anchorLine line) as [e|] eqn:He; [|done].
    assert (e ∈ anchorRows section) as Hin' by (apply elem_of_anchorRows; eauto).
    rewrite Hnil in Hin'. by apply elem_of_nil in Hin'.
  - intros Hall. destruct (anchorRows section) as [|e l] eqn:Hrows; [done|].
    assert (e ∈ anchorRows section) as Hin by (rewrite Hrows; left).
    apply elem_of_anchorRows in Hin as (line & Hin & Hs & He).
    rewrite (Hall line Hin Hs) in He. done.
Qed.

Lemma elem_of_spacedRows (section : string) (e : Entry.t) :
  e ∈ spacedRows section ↔
  ∃ m, m ∈ match_all Patterns.spacedPattern section
       ∧ e = spacedEntry m ∧ complete e = true.
Proof.
  unfold spacedRows. rewrite list_elem_of_filter, list_elem_of_fmap. split.
  - intros (Hc & m & -> & Hm). by exists m.
  - intros (m & Hm & -> & Hc). split; [done|]. by exists m.
Qed.

Lemma complete_nonempty (e : Entry.t) :
  complete e = true →
  Entry.psr e ≠ "" ∧ Entry.upstreamMH e ≠ "" ∧ Entry.downstreamMH e ≠ "".
Proof.
  unfold complete. rewrite !andb_true_iff, !truthy_Some. tauto.
Qed.

Lemma sectionRows_cases (section : string) :
  (anchorRows section ≠ [] ∧ sectionRows section = anchorRows section)
  ∨ (anchorRows section = [] ∧ sectionRows section = spacedRows section).
Proof.
  unfold sectionRows. destruct (anchorRows section) as [|e l]; simpl; [by right|by left].
Qed.

(** Every row has a PSR and two manhole IDs that are not empty. *)
Lemma sectionRows_nonempty (section : string) (e : Entry.t) :
  e ∈ sectionRows section →
  Entry.psr e ≠ "" ∧ Entry.upstreamMH e ≠ "" ∧ Entry.downstreamMH e ≠ "".
Proof.
  destruct (sectionRows_cases section) as [[_ ->]|[_ ->]].
  - intros (line & _ & _ & He)%elem_of_anchorRows.
    apply anchorLine_inv in He as (d & Ha & _ & _ & Hp).
    apply anchors_length in Ha as [Hu Hd].
    split; [done|]. split; apply length_nonempty; lia.
  - intros (m & _ & _ & Hc)%elem_of_spacedRows. by apply complete_nonempty.
Qed.

(** *** The deduplication loop *)

Lemma uniqueEntries_sublist (rows : list Entry.t) :
  ∀ seen, sublist (uniqueEntries seen rows) rows.
Proof.
  induction rows as [|x rows IH]; intros seen; simpl; [done|].
  case_bool_decide; [apply sublist_cons, IH | apply sublist_skip, IH].
Qed.

Lemma uniqueEntries_fresh (rows : list Entry.t) :
  ∀ seen e, e ∈ uniqueEntries seen rows → key e ∉ seen.
Proof.
  induction rows as [|x rows IH]; intros seen e; simpl; [by intros ?%elem_of_nil|].
  case_bool_decide as Hx.
  - apply IH.
  - intros [->|Hin]%elem_of_cons; [done|]. apply IH in Hin. set_solver.
Qed.

Lemma uniqueEntries_NoDup (rows : list Entry.t) :
  ∀ seen, NoDup (key <$> uniqueEntries seen rows).
Proof.
  induction rows as [|x rows IH]; intros seen; simpl; [constructor|].
  case_bool_decide as Hx; [apply IH|]. rewrite fmap_cons. constructor; [|apply IH].
  intros (e & Hk & Hin)%list_elem_of_fmap. apply uniqueEntries_fresh in Hin.
  rewrite <- Hk in Hin. set_solver.
Qed.

(** A kept entry is the first row with its key. *)
Lemma uniqueEntries_first (rows : list Entry.t) :
  ∀ seen e, e ∈ uniqueEntries seen rows →
    ∃ before after, rows = before ++ e :: after
                    ∧ ∀ x, x ∈ before → key x ≠ key e.
Proof.
  induction rows as [|x rows IH]; intros seen e; simpl; [by intros ?%elem_of_nil|].
  case_bool_decide as Hx.
  - intros Hin. pose proof (uniqueEntries_fresh _ _ _ Hin) as Hfresh.
    apply IH in Hin as (before & after & -> & Hb).
    exists (x :: before), after. split; [done|].
    intros y [->|Hy]%elem_of_cons; [congruence|by apply Hb].
  - intros [->|Hin]%elem_of_cons.
    + exists [], rows. split; [done|]. by intros ? ?%elem_of_nil.
    + pose proof (uniqueEntries_fresh _ _ _ Hin) as Hfresh.
      apply IH in Hin as (before & after & -> & Hb).
      exists (x :: before), after. split; [done|].
      intros y [->|Hy]%elem_of_cons; [set_solver|by apply Hb].
Qed.

(** Every row is kept or has its key among the seen or the kept ones, and
    the first row of a key not yet seen is kept. *)
Lemma uniqueEntries_covers (rows : list Entry.t) :
  ∀ seen x, x ∈ rows →
    key x ∈ seen ∨ ∃ e, e ∈ uniqueEntries seen rows ∧ key e = key x.
Proof.
  induction rows as [|y rows IH]; intros seen x; simpl; [by intros ?%elem_of_nil|].
  case_bool_decide as Hy.
  - intros [->|Hin]%elem_of_cons; [by left|]. by apply IH.
  - intros [->|Hin]%elem_of_cons.
    + right. exists y. split; [left|done].
    + destruct (IH ({[key y]} ∪ seen) x Hin) as [Hs|(e & He & Hk)].
      * apply elem_of_union in Hs as [Hs%elem_of_singleton|Hs]; [|by left].
        right. exists y. split; [left|done].
      * right. exists e. split; [by right|done].
Qed.

Lemma uniqueEntries_keeps_first (rows : list Entry.t) :
  ∀ seen before x after,
    rows = before ++ x :: after → key x ∉ seen →
    (∀ y, y ∈ before → key y ≠ key x) →
    x ∈ uniqueEntries seen rows.
Proof.
  induction rows as [|y rows IH]; intros seen before x after Hrows Hfresh Hb.
  - by destruct before.
  - destruct before as [|b before]; simpl in Hrows; injection Hrows as -> ->; simpl.
    + rewrite bool_decide_eq_false_2 by done. left.
    + assert (key b ≠ key x) by (apply Hb; left).
      assert (∀ y, y ∈ before → key y ≠ key x) by (intros; apply Hb; by right).
      case_bool_decide; [by eapply IH|]. right. eapply IH; [done| |done].
      rewrite not_elem_of_union, not_elem_of_singleton. split; [congruence|done].
Qed.

Lemma key_of_compositeKey (x y : Entry.t) :
  compositeKey x = compositeKey y → key x = key y.
Proof. unfold compositeKey, key. by intros [= -> -> ->]. Qed.

(** Two texts joined by a dash to the same text are the same two texts
    when their first parts have as many dashes; so rows of the documented
    shape have the same joined text only when they have the same key. *)
Lemma append_dash_inj (a a' b b' : string) :
  dashes a = dashes a' → a +:+ "-" +:+ b = a' +:+ "-" +:+ b' → a = a' ∧ b = b'.
Proof.
  revert a'; induction a as [|c a IH]; intros [|c' a'] Hd H;
    rewrite ?append_cons, ?append_nil in H.
  - by injection H as ->.
  - injection H as <- _. by simpl in Hd.
  - injection H as -> _. by simpl in Hd.
  - injection H as -> H. simpl in Hd.
    destruct (IH a') as [-> ->]; [lia|done|done].
Qed.

Lemma key_injective (x y : Entry.t) :
  shaped x → shaped y → key x = key y → compositeKey x = compositeKey y.
Proof.
  intros [Hx1 Hx2] [Hy1 Hy2] Hk. unfold key in Hk.
  apply append_dash_inj in Hk as [Hp Hk]; [|congruence].
  apply append_dash_inj in Hk as [Hu Hd]; [|congruence].
  unfold compositeKey. congruence.
Qed.

Lemma extract_unfold (text : string) :
  extractSectionProfileData text = uniqueEntries ∅ (extractedRows text).
Proof.
  unfold extractSectionProfileData, extractedRows.
  by destruct (exec Patterns.fullSection text).
Qed.

(** In the list returned for any text, two entries at different positions
    differ in the composite key (PSR, upstreamMH, downstreamMH); the list
    keeps the order of the extracted rows, and an entry that is kept is
    the first extracted row with its key.  The loop compares the three
    fields joined by dashes: every row has a kept entry with the same
    joined text, the first row of a joined text is kept, and so is the
    first row of every key when the rows have the documented shape of PSR
    and manhole ID. *)
Theorem dedup_first_of_key_text (text : string) :
  let out := extractSectionProfileData text in
  let rows := extractedRows text in
  (∀ i j e1 e2, out !! i = Some e1 → out !! j = Some e2 → i ≠ j →
                compositeKey e1 ≠ compositeKey e2)
  ∧ sublist out rows
  ∧ (∀ e, e ∈ out →
       ∃ before after, rows = before ++ e :: after
                       ∧ ∀ x, x ∈ before → compositeKey x ≠ compositeKey e)
  ∧ (∀ x, x ∈ rows → ∃ e, e ∈ out ∧ key e = key x)
  ∧ (∀ before x after, rows = before ++ x :: after →
       (∀ y, y ∈ before → key y ≠ key x) → x ∈ out)
  ∧ ((∀ x, x ∈ rows → shaped x) →
     ∀ before x after, rows = before ++ x :: after →
       (∀ y, y ∈ before → compositeKey y ≠ compositeKey x) → x ∈ out).
Proof.
  intros out rows. subst out rows. rewrite extract_unfold.
  set (rows := extractedRows text).
  assert (∀ before x after, rows = (before ++ x :: after)%list →
            (∀ y, y ∈ before → key y ≠ key x) → x ∈ uniqueEntries ∅ rows) as Hfirst.
  { intros before x after Hrows Hb.
    eapply uniqueEntries_keeps_first; [done|apply not_elem_of_empty|done]. }
  split; [|split; [|split; [|split; [|split]]]].
  - intros i j e1 e2 H1 H2 Hij Hk. apply key_of_compositeKey in Hk.
    pose proof (uniqueEntries_NoDup rows ∅) as Hnd.
    apply Hij. eapply NoDup_lookup; [exact Hnd| |].
    + rewrite list_lookup_fmap, H1. done.
    + rewrite list_lookup_fmap, H2. simpl. by rewrite Hk.
  - apply uniqueEntries_sublist.
  - intros e (before & after & Hrows & Hb)%uniqueEntries_first.
    exists before, after. split; [done|].
    intros x Hx Hk. by apply (Hb x Hx), key_of_compositeKey.
  - intros x Hx. destruct (uniqueEntries_covers rows ∅ x Hx) as [Hs|H]; [|done].
    by apply not_elem_of_empty in Hs.
  - exact Hfirst.
  - intros Hshape before x after Hrows Hb. apply (Hfirst before x after Hrows).
    intros y Hy Hk. apply (Hb y Hy), key_injective; [| |done]; apply Hshape;
      rewrite Hrows, elem_of_app; [by left|right; left].
Qed.

(** C4.  Rows that share a key do not always leave their first occurrence
    in the list.  Of three spaced rows with the keys (1, 2-3, 4),
    (1, 2, 3-4) and (1, 2, 3-4) the list returned holds the first only:
    the three keys give the same text 1-2-3-4 when joined by dashes, which
    is what the loop compares, so the first occurrence of the key
    (1, 2, 3-4) is discarded together with its duplicate, and no entry of
    the list has this key. *)
Theorem C4_dedup_collision :
  compositeKey <$> extractedRows Example.shadowedDocument
  = [("1", "2-3", "4"); ("1", "2", "3-4"); ("1", "2", "3-4")]
  ∧ key <$> extractedRows Example.shadowedDocument
    = ["1-2-3-4"; "1-2-3-4"; "1-2-3-4"]
  ∧ compositeKey <$> extractSectionProfileData Example.shadowedDocument
    = [("1", "2-3", "4")]
  ∧ ∃ before x after,
      extractedRows Example.shadowedDocument = before ++ x :: after
      ∧ (∀ y, y ∈ before → compositeKey y ≠ compositeKey x)
      ∧ (∃ z, z ∈ after ∧ compositeKey z = compositeKey x)
      ∧ ∀ e, e ∈ extractSectionProfileData Example.shadowedDocument →
             compositeKey e ≠ compositeKey x.
Proof.
  split; [by vm_compute|]. split; [by vm_compute|]. split; [by vm_compute|].
  assert (∃ r1 r2 r3,
            extractedRows Example.shadowedDocument = [r1; r2; r3]
            ∧ extractSectionProfileData Example.shadowedDocument = [r1]
            ∧ compositeKey r1 = ("1", "2-3", "4")
            ∧ compositeKey r2 = ("1", "2", "3-4")
            ∧ compositeKey r3 = ("1", "2", "3-4"))
    as (r1 & r2 & r3 & Hrows & Hout & H1 & H2 & H3).
  { eexists _, _, _. split; [vm_compute; reflexivity|]. by vm_compute. }
  rewrite Hrows, Hout. exists [r1], r2, [r3]. split; [done|].
  split; [|split].
  - intros y ->%list_elem_of_singleton. by rewrite H1, H2.
  - exists r3. split; [by apply list_elem_of_singleton|]. by rewrite H2, H3.
  - intros e ->%list_elem_of_singleton. by rewrite H1, H2.
Qed.

(** C9.  Every entry returned has a PSR that is not the empty string.  A
    line whose digit run before the first manhole ID has three digits or
    fewer gives no entry in the anchor-based reconstruction; an entry of
    the spaced pattern comes from a match whose PSR capture (the second
    group) is not empty. *)
Theorem C9_psr_never_empty :
  (∀ text e, e ∈ extractSectionProfileData text → Entry.psr e ≠ "")
  ∧ (∀ line upstreamMH downstreamMH allDigits,
       anchors line = Some (upstreamMH, downstreamMH) →
       digitsBeforeMH line upstreamMH = Some allDigits →
       String.length allDigits ≤ 3 →
       splitNoPsr allDigits = (allDigits, None) ∧ anchorLine line = None)
  ∧ (∀ section e, e ∈ spacedRows section →
       ∃ m, m ∈ match_all Patterns.spacedPattern section
            ∧ e = spacedEntry m ∧ capture m 2 ≠ "").
Proof.
  split; [|split].
  - intros text e He. rewrite extract_unfold in He.
    assert (e ∈ extractedRows text) as Hrow.
    { eapply elem_of_sublist; [exact He|apply uniqueEntries_sublist]. }
    unfold extractedRows in Hrow.
    destruct (exec Patterns.fullSection text); [|by apply elem_of_nil in Hrow].
    by apply sectionRows_nonempty in Hrow as [? _].
  - intros line up down d Ha Hd Hlen.
    pose proof (splitNoPsr_table d) as H.
    unfold lengthSplit in H. rewrite (proj2 (Nat.leb_le _ _) Hlen) in H.
    split; [done|]. destruct (anchorLine line) as [e|] eqn:He; [|done].
    destruct (anchorLine_split _ _ _ _ e Ha Hd He) as [Hs _]. congruence.
  - intros section e (m & Hm & -> & Hc)%elem_of_spacedRows.
    exists m. split; [done|]. split; [done|].
    by apply complete_nonempty in Hc as [? _].
Qed.

Lemma dedup_first_of_key_text_witness :
  Entry.psr <$> extractedRows Sample.repeatingDocument = ["797"; "787"; "797"]
  ∧ Entry.psr <$> extractSectionProfileData Sample.repeatingDocument = ["797"; "787"]
  ∧ Forall shaped (extractedRows Sample.repeatingDocument)
  ∧ sublist (extractSectionProfileData Sample.repeatingDocument)
            (extractedRows Sample.repeatingDocument).
Proof.
  split; [by vm_compute|]. split; [by vm_compute|].
  split; [vm_compute; repeat constructor|].
  exact (proj1 (proj2 (dedup_first_of_key_text Sample.repeatingDocument))).
Defined.

Lemma C9_psr_never_empty_witness :
  anchors "82138-33-20-028138-33-20-02711/20/2024VCP61.2061.20"
    = Some ("138-33-20-028", "138-33-20-027")
  ∧ digitsBeforeMH "82138-33-20-028138-33-20-02711/20/2024VCP61.2061.20"
      "138-33-20-028" = Some "82"
  ∧ String.length "82" ≤ 3
  ∧ splitNoPsr "82" = ("82", None)
  ∧ anchorLine "82138-33-20-028138-33-20-02711/20/2024VCP61.2061.20" = None.
Proof.
  split; [by vm_compute|]. split; [by vm_compute|]. split; [simpl; lia|].
  apply (proj1 (proj2 C9_psr_never_empty)
           "82138-33-20-028138-33-20-02711/20/2024VCP61.2061.20"
           "138-33-20-028" "138-33-20-027" "82");
    [by vm_compute|by vm_compute|simpl; lia].
Defined.

(** C6, as the specification words it, fails: on a section with a spaced
    row followed by a row whose columns run together, trying the spaced
    pattern first on each line would give both rows; the extractor gives
    the second only, since the anchor-based reconstruction found a row and
    the spaced pattern is then never tried. *)
Lemma C6_counterexample :
  Entry.psr <$> spacedFirstRows Sample.mixedSection = ["797"; "787"]
  ∧ Entry.psr <$> sectionRows Sample.mixedSection = ["787"]
  ∧ Entry.psr <$> extractSectionProfileData Sample.mixedDocument = ["787"].
Proof. by vm_compute. Qed.

(** C6, amended.  The anchor-based reconstruction is tried first, on every
    candidate line of the region; the spaced pattern is tried afterwards,
    on the region as a whole, and only when the anchor-based
    reconstruction gave no entry on any line.  So a row comes from the
    anchor-based reconstruction of a candidate line, or else no line has
    one and the row is a match of the spaced pattern. *)
Theorem C6_anchor_first (section : string) :
  (∀ line e, line ∈ Js.split_nl section → skipped line = false →
             anchorLine line = Some e →
             sectionRows section = anchorRows section ∧ e ∈ sectionRows section)
  ∧ ((∀ line, line ∈ Js.split_nl section → skipped line = false →
              anchorLine line = None) →
     sectionRows section = spacedRows section)
  ∧ (∀ e, e ∈ sectionRows section →
       (∃ line, line ∈ Js.split_nl section ∧ skipped line = false
                ∧ anchorLine line = Some e)
       ∨ ((∀ line, line ∈ Js.split_nl section → skipped line = false →
                   anchorLine line = None)
          ∧ e ∈ spacedRows section)).
Proof.
  split; [|split].
  - intros line e Hin Hs He.
    assert (e ∈ anchorRows section) as Hrow by (apply elem_of_anchorRows; eauto).
    destruct (sectionRows_cases section) as [[_ ->]|[Hnil _]]; [done|].
    rewrite Hnil in Hrow. by apply elem_of_nil in Hrow.
  - intros Hnone%anchorRows_nil.
    by destruct (sectionRows_cases section) as [[? _]|[_ ->]].
  - intros e He. destruct (sectionRows_cases section) as [[_ Hrows]|[Hnil Hrows]];
      rewrite Hrows in He.
    + left. by apply elem_of_anchorRows.
    + right. split; [by apply anchorRows_nil|done].
Qed.

Lemma C6_anchor_first_witness :
  "91787138-33-20-027138-33-20-02611/21/2024PVC50.0050.00"
    ∈ Js.split_nl Sample.mixedSection
  ∧ Entry.psr <$> anchorLine Sample.otherSmashedRow = Some "787"
  ∧ sectionRows Sample.mixedSection = anchorRows Sample.mixedSection.
Proof.
  assert ("91787138-33-20-027138-33-20-02611/21/2024PVC50.0050.00"
            ∈ Js.split_nl Sample.mixedSection) as Hin.
  { vm_compute. apply list_elem_of_In. simpl. tauto. }
  split; [exact Hin|]. split; [by vm_compute|].
  destruct (anchorLine Sample.otherSmashedRow) as [e|] eqn:He; [|by vm_compute in He].
  exact (proj1 (proj1 (C6_anchor_first Sample.mixedSection) _ e Hin eq_refl He)).
Defined.

(** The position-aware parser does follow the order of the specification
    on each line that it does not pass over: the entry of a line that the
    spaced pattern matches is the one of that match, and the no-space
    fallback is tried only on a line that the spaced pattern does not
    match. *)
Lemma positioning_spaced_first (line : string) :
  Positioning.skippedLine line = false →
  (∀ m, exec Positioning.spacedLine line = Some m →
        Positioning.lineEntry line = Some (spacedEntry m))
  ∧ (exec Positioning.spacedLine line = None →
     Positioning.lineEntry line = Positioning.fallbackLine line).
Proof.
  intros Hs. unfold Positioning.lineEntry. rewrite Hs.
  split; [by intros m ->|by intros ->].
Qed.

Lemma positioning_spaced_first_witness :
  Positioning.skippedLine Sample.spacedRow = false
  ∧ Entry.psr <$> Positioning.lineEntry Sample.spacedRow = Some "797"
  ∧ Entry.psr <$> Positioning.lineEntry Sample.otherSmashedRow = Some "787".
Proof.
  split; [by vm_compute|].
  destruct (exec Positioning.spacedLine Sample.spacedRow) as [m|] eqn:Hm;
    [|by vm_compute in Hm].
  split.
  - rewrite (proj1 (positioning_spaced_first Sample.spacedRow eq_refl) m Hm).
    vm_compute in Hm. by injection Hm as <-.
  - rewrite (proj2 (positioning_spaced_first Sample.otherSmashedRow eq_refl));
      by vm_compute.
Defined.

End SectionProfile.

(* ===================================================================== *)
(** ** The Inspection Report extractor *)
(* ===================================================================== *)

Section InspectionReports.

#[local] Arguments extractReport : simpl never.
#[local] Arguments Regex.exec : simpl never.
#[local] Arguments Regex.match_all : simpl never.

Lemma substring_empty (a m : nat) : substring a m "" = "".
Proof. by destruct a, m. Qed.

Lemma substring_beyond (s : string) (a m : nat) :
  String.length s ≤ a → substring a m s = "".
Proof.
  revert a m; induction s as [|c s IH]; intros a m H; [apply substring_empty|].
  simpl in H. destruct a as [|a]; [lia|]. simpl. apply IH. lia.
Qed.

(** Tokens are found only past the first eight characters of the values. *)
Lemma decimals_length (numbersLine : string) :
  decimals numbersLine ≠ [] → 8 < String.length numbersLine.
Proof.
  intros H. destruct (decide (8 < String.length numbersLine)) as [|Hn]; [done|].
  exfalso. apply H. unfold decimals, Js.substring1, Js.substring2, Js.clamp.
  rewrite substring_beyond; [done|]. rewrite Nat2Z.id. lia.
Qed.

Lemma substring2_nonempty (s : string) (a b : Z) :
  (0 ≤ a < b)%Z → (a < Js.len s)%Z →
  Js.truthy (Some (Js.substring2 s a b)) = true.
Proof.
  intros Hab Ha. apply truthy_Some, length_nonempty.
  unfold Js.substring2, Js.clamp, Js.len in *.
  set (n := String.length s) in *.
  replace (Nat.min (Nat.min (Z.to_nat a) n) (Nat.min (Z.to_nat b) n))
    with (Z.to_nat a) by lia.
  replace (Nat.max (Nat.min (Z.to_nat a) n) (Nat.min (Z.to_nat b) n))
    with (Nat.min (Z.to_nat b) n) by lia.
  rewrite length_substring; lia.
Qed.

(** The ratings of the concatenated layout, when it applies. *)
Lemma concatenatedRatings_fields (window v t0 t1 t2 t3 t4 t5 : string)
      (more : list string) :
  numbersLine window = Some v →
  decimals v = t0 :: t1 :: t2 :: t3 :: t4 :: t5 :: more →
  concatenatedRatings window =
    Some {| r_qsr := Some (Js.parseInt (Js.substring2 v 0 4));
            r_qmr := Some (Js.parseInt (Js.substring2 v 4 8));
            r_qor := None;
            r_spr := Some (Js.parseFloat t0);
            r_mpr := Some (Js.parseFloat t1);
            r_opr := Some (Js.parseFloat t5);
            r_spri := Some (Js.parseFloat t2);
            r_mpri := Some (Js.parseFloat t3);
            r_opri := Some (Js.parseFloat t4) |}.
Proof.
  intros Hv Hd. unfold concatenatedRatings. rewrite Hv.
  unfold mbind, option_bind. rewrite Hd.
  assert (8 < String.length v) as Hlen by (apply decimals_length; by rewrite Hd).
  rewrite (substring2_nonempty v 0 4) by (unfold Js.len; lia).
  rewrite (substring2_nonempty v 4 8) by (unfold Js.len; lia). done.
Qed.

(** The number that [parseInt] reads in four digits, and [parseFloat] in a
    token. *)
Lemma read_digit (d : nat) (acc : Z) (n : nat) (s : string) :
  d < 10 →
  Js.read_digits Js.digit_val 10 acc n (String (digitChar d) s)
  = Js.read_digits Js.digit_val 10 (acc * 10 + Z.of_nat d) (S n) s.
Proof.
  intros H. do 10 (destruct d as [|d]; [reflexivity|]). lia.
Qed.

Lemma number_value_small (z : Z) :
  (Z.abs z < 2 ^ 53)%Z → Js.number_value z = Js.of_Z z.
Proof.
  intros H. apply Z.ltb_lt in H. unfold Js.number_value. cbv zeta. by rewrite H.
Qed.

Lemma parseInt_four_digits (a b c d : nat) :
  a < 10 → b < 10 → c < 10 → d < 10 →
  Js.parseInt (digitsText [a; b; c; d])
  = Js.of_Z (Z.of_nat (1000 * a + 100 * b + 10 * c + d)).
Proof.
  intros Ha Hb Hc Hd.
  assert (Js.parseInt (digitsText [a; b; c; d])
          = let '(v, n, _) :=
              Js.read_digits Js.digit_val 10 0 0 (digitsText [a; b; c; d]) in
            if n =? 0 then Js.NaN else Js.number_value v) as ->.
  { do 10 (destruct a as [|a]; [do 10 (destruct b as [|b]; [reflexivity|]); lia|]).
    lia. }
  unfold digitsText. simpl foldr. rewrite !read_digit by done.
  cbn [Js.read_digits Nat.eqb].
  assert (2 ^ 53 = 9007199254740992)%Z as H53 by reflexivity.
  rewrite number_value_small by lia. f_equal. lia.
Qed.

Lemma parseFloat_token (a b : nat) :
  a < 10 → b < 10 →
  Js.parseFloat (token a b) = Js.Fin (Qred (Z.of_nat (10 * a + b) # 10)).
Proof.
  intros Ha Hb.
  do 10 (destruct a as [|a]; [do 10 (destruct b as [|b]; [by vm_compute|]); lia|]).
  lia.
Qed.

(** C2.  When the concatenated layout applies to the ratings window of a
    report (no labelled QSR, a line of values [v] after the labels, six or
    more digit-dot-digit tokens after its first eight characters), the
    first four characters of [v] give [qsr], the next four [qmr], and the
    tokens give, in this order, SPR, MPR, SPRI, MPRI, OPRI and OPR; four
    digits are read as the number they spell and a token a.b as a + b/10.
    The values 110031001.03.01.03.02.04.0 give qsr 1100, qmr 3100, spr 1.0,
    mpr 3.0, spri 1.0, mpri 3.0, opri 2.0 and opr 4.0. *)
Theorem C2_concatenated_order :
  (∀ section next v t0 t1 t2 t3 t4 t5 more,
     let window := ratingsSection section next in
     exec (ReportPatterns.rating "QSR" (plus digit)) window = None →
     numbersLine window = Some v →
     decimals v = t0 :: t1 :: t2 :: t3 :: t4 :: t5 :: more →
     let report := extractReport section next in
     Report.qsr report = Some (Js.parseInt (Js.substring2 v 0 4))
     ∧ Report.qmr report = Some (Js.parseInt (Js.substring2 v 4 8))
     ∧ Report.spr report = Some (Js.parseFloat t0)
     ∧ Report.mpr report = Some (Js.parseFloat t1)
     ∧ Report.spri report = Some (Js.parseFloat t2)
     ∧ Report.mpri report = Some (Js.parseFloat t3)
     ∧ Report.opri report = Some (Js.parseFloat t4)
     ∧ Report.opr report = Some (Js.parseFloat t5))
  ∧ (∀ a b c d, a < 10 → b < 10 → c < 10 → d < 10 →
       Js.parseInt (digitsText [a; b; c; d])
       = Js.of_Z (Z.of_nat (1000 * a + 100 * b + 10 * c + d)))
  ∧ (∀ a b, a < 10 → b < 10 →
       Js.parseFloat (token a b) = Js.Fin (Qred (Z.of_nat (10 * a + b) # 10)))
  ∧ numbersLine Sample.concatenatedWindow = Some "110031001.03.01.03.02.04.0"
  ∧ decimals "110031001.03.01.03.02.04.0" = ["1.0"; "3.0"; "1.0"; "3.0"; "2.0"; "4.0"]
  ∧ extractRatings Sample.concatenatedWindow =
      {| r_qsr := Some (Js.Fin 1100); r_qmr := Some (Js.Fin 3100); r_qor := None;
         r_spr := Some (Js.Fin 1); r_mpr := Some (Js.Fin 3);
         r_opr := Some (Js.Fin 4); r_spri := Some (Js.Fin 1);
         r_mpri := Some (Js.Fin 3); r_opri := Some (Js.Fin 2) |}.
Proof.
  split; [|split; [exact parseInt_four_digits|split; [exact parseFloat_token|by vm_compute]]].
  intros section next v t0 t1 t2 t3 t4 t5 more window Hq Hv Hd report.
  subst report. unfold extractReport. fold window. cbn [Report.qsr Report.qmr Report.spr
    Report.mpr Report.spri Report.mpri Report.opri Report.opr].
  unfold extractRatings. rewrite Hq.
  rewrite (concatenatedRatings_fields _ _ _ _ _ _ _ _ _ Hv Hd). done.
Qed.

Lemma C2_concatenated_order_witness :
  exec (ReportPatterns.rating "QSR" (plus digit))
       (ratingsSection Sample.concatenatedWindow None) = None
  ∧ numbersLine (ratingsSection Sample.concatenatedWindow None)
    = Some "110031001.03.01.03.02.04.0"
  ∧ Report.qsr (extractReport Sample.concatenatedWindow None) = Some (Js.Fin 1100)
  ∧ Report.qmr (extractReport Sample.concatenatedWindow None) = Some (Js.Fin 3100)
  ∧ Report.spr (extractReport Sample.concatenatedWindow None) = Some (Js.Fin 1)
  ∧ Report.mpr (extractReport Sample.concatenatedWindow None) = Some (Js.Fin 3)
  ∧ Report.spri (extractReport Sample.concatenatedWindow None) = Some (Js.Fin 1)
  ∧ Report.mpri (extractReport Sample.concatenatedWindow None) = Some (Js.Fin 3)
  ∧ Report.opri (extractReport Sample.concatenatedWindow None) = Some (Js.Fin 2)
  ∧ Report.opr (extractReport Sample.concatenatedWindow None) = Some (Js.Fin 4).
Proof.
  split; [by vm_compute|]. split; [by vm_compute|].
  apply (proj1 C2_concatenated_order Sample.concatenatedWindow None
           "110031001.03.01.03.02.04.0" "1.0" "3.0" "1.0" "3.0" "2.0" "4.0" []);
    by vm_compute.
Defined.

(** *** What the extractor guarantees about a report *)

Lemma orElse_Some {A} (a b : option A) (x : A) :
  orElse a b = Some x → a = Some x ∨ b = Some x.
Proof. destruct a; simpl; auto. Qed.

Lemma extractReport_date (section : string) (next : option string) (d : string) :
  Report.date (extractReport section next) = Some d → d ≠ "".
Proof.
  unfold extractReport. cbn [Report.date]. intros H. apply bind_Some in H as (m & Hm & Hg).
  assert (∃ r, exec r section = Some m ∧ (1, 8) ∈ guaranteed r) as (r & Hr & Hin).
  { apply orElse_Some in Hm as [Hm|Hm]; eexists; (split; [exact Hm|]);
      vm_compute; apply list_elem_of_In; simpl; tauto. }
  destruct (group_guaranteed _ _ _ _ _ Hr Hin) as (t & Ht & Hl).
  apply length_nonempty. assert (t = d) as <- by congruence. lia.
Qed.

Lemma extractReport_psr (section : string) (next : option string) (s : string) :
  Report.psr (extractReport section next) = Some s → s ≠ "".
Proof.
  unfold extractReport. cbn [Report.psr]. intros H. apply bind_Some in H as (m & Hm & Hg).
  assert (∃ r, exec r section = Some m ∧ (1, 1) ∈ guaranteed r) as (r & Hr & Hin).
  { apply orElse_Some in Hm as [Hm|Hm]; [|apply orElse_Some in Hm as [Hm|Hm];
      [|apply orElse_Some in Hm as [Hm|Hm]]]; eexists; (split; [exact Hm|]);
      vm_compute; apply list_elem_of_In; simpl; tauto. }
  destruct (group_guaranteed _ _ _ _ _ Hr Hin) as (t & Ht & Hl).
  apply length_nonempty. assert (t = s) as <- by congruence. lia.
Qed.

Lemma elem_of_reportsOf (reportSections : list string) (report : Report.t) :
  report ∈ reportsOf reportSections →
  ∃ section next, report = extractReport section next.
Proof.
  induction reportSections as [|section following IH]; cbn [reportsOf].
  - by intros ?%elem_of_nil.
  - intros [Hin|Hin]%elem_of_app; [|by apply IH].
    destruct (Report.hasKeys _); [|by apply elem_of_nil in Hin].
    apply list_elem_of_singleton in Hin. eauto.
Qed.

(** An extracted report has a date and a PSR that are not empty, when it
    has them. *)
Lemma extracted_report (text : string) (report : Report.t) :
  report ∈ extractInspectionReportData text →
  (∀ d, Report.date report = Some d → d ≠ "")
  ∧ (∀ s, Report.psr report = Some s → s ≠ "").
Proof.
  intros (section & next & ->)%elem_of_reportsOf.
  split; [apply extractReport_date | apply extractReport_psr].
Qed.

(** *** The cross-reference *)

Lemma find_first {A} (f : A → bool) (before : list A) (p : A) (after : list A) :
  f p = true → (∀ q, q ∈ before → f q = false) →
  List.find f (before ++ p :: after) = Some p.
Proof.
  intros Hp. induction before as [|b before IH]; intros Hb; simpl.
  - by rewrite Hp.
  - rewrite (Hb b) by left. apply IH. intros q Hq. apply Hb. by right.
Qed.

Lemma find_nowhere {A} (f : A → bool) (l : list A) :
  (∀ q, q ∈ l → f q = false) → List.find f l = None.
Proof.
  induction l as [|b l IH]; intros Hb; simpl; [done|].
  rewrite (Hb b) by left. apply IH. intros q Hq. apply Hb. by right.
Qed.

Lemma find_elem_of {A} (f : A → bool) (l : list A) (p : A) :
  List.find f l = Some p → p ∈ l ∧ f p = true.
Proof.
  intros [Hin Hf]%List.find_some. split; [by apply list_elem_of_In|done].
Qed.

Lemma same_spec (a : string) (b : option string) : same a b = true ↔ b = Some a.
Proof. unfold same. rewrite bool_decide_eq_true. split; congruence. Qed.

(** The test of the first lookup is the agreement of the specification,
    for a report whose date, if any, is not empty. *)
Lemma matchesReport_agrees (report : Report.t) (p : Entry.t) :
  (∀ d, Report.date report = Some d → d ≠ "") →
  matchesReport report p = true ↔ agrees report p.
Proof.
  intros Hdate. unfold matchesReport, agrees.
  rewrite !andb_true_iff, orb_true_iff, negb_true_iff, !same_spec.
  split.
  - intros [[Hu Hd] Hdt]. split; [done|]. split; [done|].
    intros d Hd'. destruct Hdt as [Hdt|Hdt]; [|congruence].
    rewrite Hd' in Hdt. destruct d; [by destruct (Hdate _ Hd')|done].
  - intros (Hu & Hd & Hdt). split; [done|].
    destruct (Report.date report) as [d|] eqn:Hd'; [|by left].
    right. by rewrite (Hdt d).
Qed.

Lemma backfillMaterial_psr (psrData : list Entry.t) (report : Report.t) :
  Report.psr (backfillMaterial psrData report) = Report.psr report.
Proof.
  unfold backfillMaterial. destruct (_ && _); [|done].
  destruct (List.find _ psrData); [|done]. by destruct (Js.truthy _).
Qed.

Lemma backfillPsr_cases (psrData : list Entry.t) (report : Report.t) :
  backfillPsr psrData report = report
  ∨ (Js.truthy (Report.psr report) = false
     ∧ ∃ p, p ∈ psrData ∧ backfillPsr psrData report = set_psr (Entry.psr p) report).
Proof.
  unfold backfillPsr. destruct (Js.truthy (Report.psr report)); [by left|].
  destruct (_ && _); [|by left].
  destruct (List.find _ psrData) as [p|] eqn:Hf; [|by left].
  right. split; [done|]. exists p. by apply find_elem_of in Hf as [? _].
Qed.

Lemma backfillMaterial_cases (psrData : list Entry.t) (report : Report.t) :
  backfillMaterial psrData report = report
  ∨ (Js.truthy (Report.pipeMaterial report) = false
     ∧ ∃ p, p ∈ psrData
            ∧ backfillMaterial psrData report
              = set_pipeMaterial (Entry.material p) report).
Proof.
  unfold backfillMaterial. destruct (Js.truthy (Report.pipeMaterial report)); [by left|].
  destruct (_ && _); [|by left].
  destruct (List.find _ psrData) as [p|] eqn:Hf; [|by left].
  destruct (Js.truthy (Some (Entry.material p))); [|by left].
  right. split; [done|]. exists p. by apply find_elem_of in Hf as [? _].
Qed.

Lemma withPsrMaterial_id (report : Report.t) :
  withPsrMaterial (Report.psr report) (Report.pipeMaterial report) report = report.
Proof. by destruct report. Qed.

(** What the two steps do to one report: they touch its PSR and its pipe
    material only, each only when it is absent or empty, and give it the
    PSR and the material of profile rows. *)
Lemma backfill_frame (psrData : list Entry.t) (report : Report.t) :
  let report' := backfillMaterial psrData (backfillPsr psrData report) in
  report' = withPsrMaterial (Report.psr report') (Report.pipeMaterial report') report
  ∧ (Js.truthy (Report.psr report) = true → Report.psr report' = Report.psr report)
  ∧ (Js.truthy (Report.pipeMaterial report) = true →
     Report.pipeMaterial report' = Report.pipeMaterial report)
  ∧ (Report.psr report' = Report.psr report
     ∨ ∃ p, p ∈ psrData ∧ Report.psr report' = Some (Entry.psr p))
  ∧ (Report.pipeMaterial report' = Report.pipeMaterial report
     ∨ ∃ p, p ∈ psrData ∧ Report.pipeMaterial report' = Some (Entry.material p)).
Proof.
  intros report'. subst report'.
  destruct (backfillPsr_cases psrData report) as [->|(Hpsr & p & Hp & ->)];
    [destruct (backfillMaterial_cases psrData report) as [->|(Hmat & q & Hq & ->)]
    |destruct (backfillMaterial_cases psrData (set_psr (Entry.psr p) report))
       as [->|(Hmat & q & Hq & ->)]];
    destruct report; cbn in *; (split; [done|]); (split; [congruence|]);
    (split; [congruence|]);
    (split; [first [by left | right; eauto] | first [by left | right; eauto]]).
Qed.

Lemma crossReference_lookup (psrData : list Entry.t) (reports : list Report.t)
      (i : nat) :
  crossReference psrData reports !! i
  = (fun report => backfillMaterial psrData (backfillPsr psrData report))
      <$> reports !! i.
Proof. unfold crossReference. apply list_lookup_fmap. Qed.


(** An entry of the profile has a PSR and manhole IDs that are not empty. *)
Lemma extracted_entry (text : string) (p : Entry.t) :
  p ∈ extractSectionProfileData text →
  Entry.psr p ≠ "" ∧ Entry.upstreamMH p ≠ "" ∧ Entry.downstreamMH p ≠ "".
Proof.
  intros Hp. rewrite extract_unfold in Hp.
  assert (p ∈ extractedRows text) as Hrow.
  { eapply elem_of_sublist; [exact Hp|apply uniqueEntries_sublist]. }
  unfold extractedRows in Hrow.
  destruct (exec Patterns.fullSection text); [|by apply elem_of_nil in Hrow].
  by apply sectionRows_nonempty in Hrow.
Qed.

(** The first step on a report without PSR, in a profile whose manhole IDs
    are not empty. *)
Lemma backfillPsr_first (psrData : list Entry.t) (report : Report.t) :
  Report.psr report = None →
  (∀ d, Report.date report = Some d → d ≠ "") →
  (∀ p, p ∈ psrData → Entry.upstreamMH p ≠ "" ∧ Entry.downstreamMH p ≠ "") →
  (∀ before p after,
     psrData = (before ++ p :: after)%list → agrees report p →
     (∀ q, q ∈ before → ¬ agrees report q) →
     Report.psr (backfillPsr psrData report) = Some (Entry.psr p))
  ∧ ((∀ q, q ∈ psrData → ¬ agrees report q) →
     Report.psr (backfillPsr psrData report) = None).
Proof.
  intros Hpsr Hdate Hwf. split.
  - intros before p after -> Hp Hb.
    assert (p ∈ before ++ p :: after) as Hin by (apply elem_of_app; right; left).
    destruct (Hwf p Hin) as [Hu Hd]. destruct Hp as (Hup & Hdown & Hdt).
    unfold backfillPsr. rewrite Hpsr, Hup, Hdown.
    rewrite (proj2 (truthy_Some _) Hu), (proj2 (truthy_Some _) Hd). cbn [Js.truthy negb andb].
    rewrite (find_first _ before p after); [done| |].
    + apply matchesReport_agrees; [done|]. by repeat split.
    + intros q Hq. apply not_true_is_false. intros Hm.
      by apply (Hb q Hq), matchesReport_agrees.
  - intros Hnone. unfold backfillPsr. destruct (_ && _); [|done].
    rewrite find_nowhere; [done|]. intros q Hq. apply not_true_is_false. intros Hm.
    by apply (Hnone q Hq), matchesReport_agrees.
Qed.

(** C5.  After the cross-reference of [parsePDF], a report that had no
    PSR, and whose upstream and downstream manhole IDs are those of some
    profile entry, the date of the report, when it has one, being that of
    the entry too, has the PSR of the first such entry; a report without
    PSR that no entry matches in this way still has none. *)
Theorem C5_psr_backfill (text : string) (numpages : nat) (data : parsedData)
        (i : nat) (report : Report.t) :
  parsePDF (PdfData text numpages) = Success text data →
  extractInspectionReportData text !! i = Some report →
  Report.psr report = None →
  ∃ report',
    inspectionReports data !! i = Some report'
    ∧ (∀ before p after,
         sectionProfile data = (before ++ p :: after)%list → agrees report p →
         (∀ q, q ∈ before → ¬ agrees report q) →
         Report.psr report' = Some (Entry.psr p))
    ∧ ((∀ q, q ∈ sectionProfile data → ¬ agrees report q) →
       Report.psr report' = None).
Proof.
  intros [= <-] Hi Hpsr. cbn [inspectionReports sectionProfile].
  rewrite crossReference_lookup, Hi. eexists. split; [done|].
  rewrite backfillMaterial_psr.
  apply backfillPsr_first; [done| |].
  - by apply (extracted_report text), list_elem_of_lookup_2 with i.
  - intros p Hp. by apply extracted_entry in Hp as (_ & ? & ?).
Qed.

Lemma C5_psr_backfill_witness :
  Report.psr <$> extractInspectionReportData Sample.document !! 0 = Some None
  ∧ (Entry.upstreamMH <$> extractSectionProfileData Sample.document,
     Entry.downstreamMH <$> extractSectionProfileData Sample.document,
     Entry.date <$> extractSectionProfileData Sample.document,
     Entry.psr <$> extractSectionProfileData Sample.document)
    = (["138-33-20-028"], ["138-33-20-027"], ["11/20/2024"], ["797"])
  ∧ ∃ data report',
      parsePDF (PdfData Sample.document 2) = Success Sample.document data
      ∧ inspectionReports data !! 0 = Some report'
      ∧ Report.psr report' = Some "797".
Proof.
  split; [by vm_compute|]. split; [by vm_compute|].
  destruct (extractInspectionReportData Sample.document !! 0) as [report|] eqn:Hr;
    [|by vm_compute in Hr].
  destruct (extractSectionProfileData Sample.document) as [|p [|? ?]] eqn:Hp;
    [by vm_compute in Hp| |by vm_compute in Hp].
  destruct (C5_psr_backfill Sample.document 2 _ 0 report eq_refl Hr)
    as (report' & Hl & Hfirst & _).
  { vm_compute in Hr. by injection Hr as <-. }
  eexists _, report'. split; [reflexivity|]. split; [exact Hl|].
  rewrite (Hfirst [] p []).
  - vm_compute in Hp. by injection Hp as <-.
  - cbn [sectionProfile]. by rewrite Hp.
  - vm_compute in Hr, Hp. injection Hr as <-. injection Hp as <-.
    repeat split. by intros d [= <-].
  - intros q Hq. apply elem_of_nil in Hq. destruct Hq.
Defined.

(** C10, as stated, fails for a pipe material that was extracted as the
    empty string (a blank material field): the report has the property,
    and the cross-reference replaces it by the material of the profile
    row of its PSR. *)
Lemma C10_counterexample :
  Report.psr <$> extractInspectionReportData Sample.blankMaterialDocument
    = [Some "797"]
  ∧ Report.pipeMaterial <$> extractInspectionReportData Sample.blankMaterialDocument
    = [Some ""]
  ∧ ∃ data,
      parsePDF (PdfData Sample.blankMaterialDocument 1)
        = Success Sample.blankMaterialDocument data
      ∧ Report.pipeMaterial <$> inspectionReports data = [Some "VCP"].
Proof.
  split; [by vm_compute|]. split; [by vm_compute|].
  eexists. split; [reflexivity|]. by vm_compute.
Qed.

(** C10, amended.  The cross-reference of [parsePDF] leaves the profile
    entries, the number and the order of the reports and every field of a
    report other than [psr] and [pipeMaterial] as they were.  A report
    that has a PSR keeps it, and a report that has a pipe material other
    than the empty string keeps it; a field that changes was absent (or,
    for the material, empty) and takes the value of a profile entry. *)
Theorem C10_cross_reference_frame (text : string) (numpages : nat)
        (data : parsedData) :
  parsePDF (PdfData text numpages) = Success text data →
  sectionProfile data = extractSectionProfileData text
  ∧ length (inspectionReports data) = length (extractInspectionReportData text)
  ∧ ∀ i report,
      extractInspectionReportData text !! i = Some report →
      ∃ report',
        inspectionReports data !! i = Some report'
        ∧ report' = withPsrMaterial (Report.psr report') (Report.pipeMaterial report')
                                    report
        ∧ (∀ s, Report.psr report = Some s → Report.psr report' = Some s)
        ∧ (∀ s, Report.pipeMaterial report = Some s → s ≠ "" →
                Report.pipeMaterial report' = Some s)
        ∧ (Report.psr report' = Report.psr report
           ∨ Report.psr report = None
             ∧ ∃ p, p ∈ sectionProfile data ∧ Report.psr report' = Some (Entry.psr p))
        ∧ (Report.pipeMaterial report' = Report.pipeMaterial report
           ∨ (Report.pipeMaterial report = None ∨ Report.pipeMaterial report = Some "")
             ∧ ∃ p, p ∈ sectionProfile data
                    ∧ Report.pipeMaterial report' = Some (Entry.material p)).
Proof.
  intros [= <-]. cbn [inspectionReports sectionProfile].
  split; [done|]. split; [unfold crossReference; by rewrite length_fmap|].
  intros i report Hi. rewrite crossReference_lookup, Hi. eexists. split; [done|].
  destruct (backfill_frame (extractSectionProfileData text) report)
    as (Hframe & Hpsr & Hmat & Hpsr' & Hmat').
  assert (∀ s, Report.psr report = Some s → Js.truthy (Report.psr report) = true)
    as Hhas.
  { intros s Hs. rewrite Hs. apply truthy_Some.
    eapply (extracted_report text); [by apply list_elem_of_lookup_2 with i|done]. }
  split; [exact Hframe|]. split; [|split; [|split]].
  - intros s Hs. rewrite Hpsr; [done|by eapply Hhas].
  - intros s Hs Hne. rewrite Hmat; [done|]. rewrite Hs. by apply truthy_Some.
  - destruct Hpsr' as [?|Hp]; [by left|].
    destruct (Report.psr report) as [s|] eqn:Hs; [|by right].
    left. rewrite Hpsr; [done|by eapply Hhas].
  - destruct Hmat' as [?|Hp]; [by left|].
    destruct (Report.pipeMaterial report) as [[|a s]|] eqn:Hs; [right|left|right].
    + split; [by right|done].
    + by rewrite Hmat.
    + split; [by left|done].
Qed.

Lemma C10_cross_reference_frame_witness :
  ∃ data,
    parsePDF (PdfData Sample.document 2) = Success Sample.document data
    ∧ sectionProfile data = extractSectionProfileData Sample.document
    ∧ length (inspectionReports data)
      = length (extractInspectionReportData Sample.document).
Proof.
  eexists. split; [reflexivity|].
  destruct (C10_cross_reference_frame Sample.document 2 _ eq_refl) as (H1 & H2 & _).
  split; [exact H1|exact H2].
Defined.

End InspectionReports.

(* ===================================================================== *)
(** ** Statistics, and the parse as a whole *)
(* ===================================================================== *)

Section Statistics.

Lemma Qle_bool_false (a b : Q) : Qle_bool a b = false ↔ (b < a)%Q.
Proof.
  rewrite <- not_true_iff_false, Qle_bool_iff. split; [apply Qnot_le_lt|apply Qlt_not_le].
Qed.

(** C3.  For every finite value [v] of the overall index, the label is
    Excellent exactly when v <= 1.5, Good exactly when 1.5 < v <= 2.5, Fair
    exactly when 2.5 < v <= 3.5, Poor exactly when 3.5 < v <= 4.5 and Very
    Poor exactly when 4.5 < v: each band holds its upper threshold.  So
    1.5 is Excellent, 1.6 and 2.5 are Good, 2.6 is Fair, 4.5 is Poor and
    4.6 is Very Poor.  The two infinities fall in the outer bands. *)
Theorem C3_condition_bands (v : Q) :
  ((getConditionLabel (Js.Fin v) = "Excellent" ↔ v <= 1.5)
   ∧ (getConditionLabel (Js.Fin v) = "Good" ↔ 1.5 < v ∧ v <= 2.5)
   ∧ (getConditionLabel (Js.Fin v) = "Fair" ↔ 2.5 < v ∧ v <= 3.5)
   ∧ (getConditionLabel (Js.Fin v) = "Poor" ↔ 3.5 < v ∧ v <= 4.5)
   ∧ (getConditionLabel (Js.Fin v) = "Very Poor" ↔ 4.5 < v))%Q
  ∧ getConditionLabel (Js.Fin 1.5) = "Excellent"
  ∧ getConditionLabel (Js.Fin 1.6) = "Good"
  ∧ getConditionLabel (Js.Fin 2.5) = "Good"
  ∧ getConditionLabel (Js.Fin 2.6) = "Fair"
  ∧ getConditionLabel (Js.Fin 4.5) = "Poor"
  ∧ getConditionLabel (Js.Fin 4.6) = "Very Poor"
  ∧ getConditionLabel Js.NegInf = "Excellent"
  ∧ getConditionLabel Js.PosInf = "Very Poor".
Proof.
  split; [|by vm_compute].
  unfold getConditionLabel, Js.le.
  destruct (Qle_bool v 1.5) eqn:H1;
    [apply Qle_bool_iff in H1|apply Qle_bool_false in H1;
  destruct (Qle_bool v 2.5) eqn:H2;
    [apply Qle_bool_iff in H2|apply Qle_bool_false in H2;
  destruct (Qle_bool v 3.5) eqn:H3;
    [apply Qle_bool_iff in H3|apply Qle_bool_false in H3;
  destruct (Qle_bool v 4.5) eqn:H4;
    [apply Qle_bool_iff in H4|apply Qle_bool_false in H4]]]];
    repeat split; intros; try discriminate; try lra.
Qed.

(** The label of a value that is not a number: the last branch. *)
Lemma getConditionLabel_NaN : getConditionLabel Js.NaN = "Very Poor".
Proof. reflexivity. Qed.

(** C7 fails on the code when a row has total length 0: the reduction for
    the shortest segment reads a current minimum of 0 as if there were
    none ([min.totalLength || Infinity]), so the next row replaces it.  In
    the profile of [Sample.zeroLengthDocument], of total lengths 0 and 5,
    the first row of least length is the row of PSR 101, and
    [shortestSegment] is the row of PSR 102; [longestSegment] is the first
    row of greatest length. *)
Theorem C7_shortest_skips_zero :
  let sectionProfile := extractSectionProfileData Sample.zeroLengthDocument in
  let stats := calculateStatistics sectionProfile [] in
  (Entry.psr <$> sectionProfile, Entry.totalLength <$> sectionProfile)
    = (["101"; "102"], [Js.Fin 0; Js.Fin 5])
  ∧ Entry.psr <$> firstMinimal sectionProfile = Some "101"
  ∧ Entry.psr <$> shortestSegment stats = Some "102"
  ∧ longestSegment stats = firstMaximal sectionProfile.
Proof.
  cbv zeta. split; [by vm_compute|]. split; [by vm_compute|].
  split; by vm_compute.
Qed.

(** C8 fails on the code of [parsePDF]: for a document from which no
    character of text is extracted it succeeds, with empty record lists.
    The position-aware parser does fail on such a document, with a
    message. *)
Theorem C8_empty_text_succeeds (numpages : nat) :
  parsePDF (PdfData "" numpages)
    = Success ""
        {| sectionProfile := [];
           inspectionReports := [];
           meta := {| totalPages := numpages; totalPSREntries := 0;
                      totalInspectionReports := 0; totalObservations := 0 |} |}
  ∧ Positioning.parsePDFWithPositioning "" numpages
    = Positioning.Rejected "No text extracted from PDF - pdf2json failed".
Proof.
  split; [|reflexivity].
  unfold parsePDF.
  assert (extractSectionProfileData "" = []) as -> by (by vm_compute).
  assert (extractInspectionReportData "" = []) as -> by (by vm_compute).
  reflexivity.
Qed.

End Statistics.

(* ===================================================================== *)
(** ** The longest and the shortest segment *)
(* ===================================================================== *)

Section Extremes.

(** A reduction that keeps the current element unless the next one is
    better, started from the first element, selects the first element of
    greatest value, [val] being a measure for which better is greater. *)
Section FirstBest.

Context {A : Type} (val : A → Q) (better : A → A → bool) (D : A → Prop).
Hypothesis better_spec :
  ∀ p m, D p → D m → better p m = true ↔ (val m < val p)%Q.

Lemma selected_step (done : list A) (m p : A) :
  Forall D done → D p → selected val done m → selected val (done ++ [p]) (keep better m p).
Proof.
  intros Hdone Hp (before & after & -> & Hb & Ha).
  assert (D m) as Hm.
  { rewrite Forall_forall in Hdone. apply Hdone, elem_of_app. right. left. }
  unfold keep. destruct (better p m) eqn:Hbt.
  - apply better_spec in Hbt; [|done..].
    exists (before ++ m :: after)%list, []. split; [done|]. split.
    + intros x [Hx|[->|Hx]%elem_of_cons]%elem_of_app.
      * specialize (Hb x Hx). lra.
      * done.
      * specialize (Ha x Hx). lra.
    + by intros x ?%elem_of_nil.
  - assert (¬ (val m < val p)%Q) as Hnb.
    { intros H. apply better_spec in H; [congruence|done..]. }
    exists before, (after ++ [p])%list. split; [by rewrite <- app_assoc|].
    split; [done|].
    intros x [Hx|Hx%list_elem_of_singleton]%elem_of_app; [by apply Ha|].
    subst x. lra.
Qed.

Lemma selected_foldl (rest : list A) :
  ∀ done m, Forall D (done ++ rest) → selected val done m →
            selected val (done ++ rest) (foldl (keep better) m rest).
Proof.
  induction rest as [|p rest IH]; intros done m HD Hsel; simpl.
  - by rewrite app_nil_r.
  - replace (done ++ p :: rest)%list with ((done ++ [p]) ++ rest)%list in *
      by (by rewrite <- app_assoc).
    apply IH; [done|]. apply Forall_app in HD as [HD _].
    apply Forall_app in HD as [HD Hp]. apply Forall_cons in Hp as [Hp _].
    by apply selected_step.
Qed.

(** The reduction of the source, which meets the first element twice. *)
Lemma selected_reduce (first : A) (rest : list A) :
  Forall D (first :: rest) →
  selected val (first :: rest) (foldl (keep better) first (first :: rest)).
Proof.
  intros HD. pose proof HD as HD'. apply Forall_cons in HD' as [Hf _].
  assert (keep better first first = first) as Hk.
  { unfold keep. destruct (better first first) eqn:Hb; [|done].
    apply better_spec in Hb; [lra|done..]. }
  simpl. rewrite Hk. apply (selected_foldl rest [first] first); [done|].
  exists [], []. split; [done|]. split; by intros x ?%elem_of_nil.
Qed.

End FirstBest.

Lemma longer_spec (p m : Entry.t) :
  finite p → finite m →
  Js.gt (Entry.totalLength p) (orNum (Entry.totalLength m) (Js.Fin 0)) = true
  ↔ (lengthOf m < lengthOf p)%Q.
Proof.
  intros [a Ha] [q Hq]. unfold lengthOf, orNum, Js.gt. rewrite Ha, Hq. simpl.
  destruct (Qeq_bool q 0) eqn:Hz; simpl; rewrite negb_true_iff, Qle_bool_false.
  - apply Qeq_bool_iff in Hz. split; lra.
  - done.
Qed.

Lemma shorter_spec (p m : Entry.t) :
  positive p → positive m →
  Js.lt (Entry.totalLength p) (orNum (Entry.totalLength m) Js.PosInf) = true
  ↔ (- lengthOf m < - lengthOf p)%Q.
Proof.
  intros (a & Ha & _) (q & Hq & Hne). unfold lengthOf, orNum, Js.lt. rewrite Ha, Hq.
  simpl. destruct (Qeq_bool q 0) eqn:Hz; [by apply Qeq_bool_iff in Hz|]. simpl.
  rewrite negb_true_iff, Qle_bool_false. split; lra.
Qed.

Lemma le_finite (x e : Entry.t) :
  finite x → finite e →
  Js.le (Entry.totalLength x) (Entry.totalLength e) = true
  ↔ (lengthOf x <= lengthOf e)%Q.
Proof.
  intros [a Ha] [q Hq]. unfold lengthOf. rewrite Ha, Hq. simpl. apply Qle_bool_iff.
Qed.

(** The first entry of greatest total length of a profile of finite
    lengths is the longest segment of the statistics. *)
Lemma longestSegment_firstMaximal (sectionProfile : list Entry.t)
      (reports : list Report.t) :
  Forall finite sectionProfile →
  longestSegment (calculateStatistics sectionProfile reports)
  = firstMaximal sectionProfile.
Proof.
  intros HD. cbn [calculateStatistics longestSegment].
  destruct sectionProfile as [|first rest]; [done|]. cbn [head fmap option_fmap option_map].
  destruct (selected_reduce lengthOf
              (fun p m => Js.gt (Entry.totalLength p)
                                (orNum (Entry.totalLength m) (Js.Fin 0)))
              finite longer_spec first rest HD)
    as (before & after & Hl & Hb & Ha).
  unfold longest, firstMaximal. fold (keep (fun p m : Entry.t =>
    Js.gt (Entry.totalLength p) (orNum (Entry.totalLength m) (Js.Fin 0)))).
  set (m := foldl _ first (first :: rest)) in *. clearbody m.
  rewrite Hl in *. clear Hl. rewrite Forall_forall in HD.
  assert (finite m) as Hm by (apply HD; rewrite elem_of_app; right; left).
  assert (∀ x, x ∈ before → finite x) as HDb
    by (intros x Hx; apply HD; rewrite elem_of_app; by left).
  symmetry. f_equal. apply find_first.
  - apply forallb_forall. intros x Hx%list_elem_of_In.
    apply le_finite; [by apply HD|done|].
    apply elem_of_app in Hx as [Hx|[->|Hx]%elem_of_cons].
    + specialize (Hb x Hx). lra.
    + lra.
    + by apply Ha.
  - intros x Hx. apply not_true_is_false. intros Hall.
    rewrite forallb_forall in Hall. specialize (Hall m).
    rewrite le_finite in Hall; [|done|by apply HDb].
    specialize (Hb x Hx). assert (lengthOf m <= lengthOf x)%Q; [|lra].
    apply Hall, list_elem_of_In. rewrite elem_of_app. right. left.
Qed.

(** The first entry of least total length of a profile of finite lengths
    other than zero is the shortest segment of the statistics. *)
Lemma shortestSegment_firstMinimal (sectionProfile : list Entry.t)
      (reports : list Report.t) :
  Forall positive sectionProfile →
  shortestSegment (calculateStatistics sectionProfile reports)
  = firstMinimal sectionProfile.
Proof.
  intros HD. cbn [calculateStatistics shortestSegment].
  destruct sectionProfile as [|first rest]; [done|]. cbn [head fmap option_fmap option_map].
  destruct (selected_reduce (fun e => - lengthOf e)%Q
              (fun p m => Js.lt (Entry.totalLength p)
                                (orNum (Entry.totalLength m) Js.PosInf))
              positive shorter_spec first rest HD)
    as (before & after & Hl & Hb & Ha).
  unfold shortest, firstMinimal. fold (keep (fun p m : Entry.t =>
    Js.lt (Entry.totalLength p) (orNum (Entry.totalLength m) Js.PosInf))).
  set (m := foldl _ first (first :: rest)) in *. clearbody m.
  rewrite Hl in *. clear Hl. rewrite Forall_forall in HD.
  assert (∀ x, x ∈ before ++ m :: after → finite x) as HF.
  { intros x Hx. destruct (HD x Hx) as (q & Hq & _). by exists q. }
  assert (finite m) as Hm by (apply HF; rewrite elem_of_app; right; left).
  assert (∀ x, x ∈ before → finite x) as HDb
    by (intros x Hx; apply HF; rewrite elem_of_app; by left).
  symmetry. f_equal. apply find_first.
  - apply forallb_forall. intros x Hx%list_elem_of_In.
    apply le_finite; [done|by apply HF|].
    apply elem_of_app in Hx as [Hx|[->|Hx]%elem_of_cons].
    + specialize (Hb x Hx). simpl in Hb. lra.
    + lra.
    + specialize (Ha x Hx). simpl in Ha. lra.
  - intros x Hx. apply not_true_is_false. intros Hall.
    rewrite forallb_forall in Hall. specialize (Hall m).
    rewrite le_finite in Hall; [|by apply HDb|done].
    specialize (Hb x Hx). simpl in Hb. assert (lengthOf x <= lengthOf m)%Q; [|lra].
    apply Hall, list_elem_of_In. rewrite elem_of_app. right. left.
Qed.

Lemma longestSegment_firstMaximal_witness :
  Forall finite (extractSectionProfileData Sample.repeatingDocument)
  ∧ Entry.psr <$> longestSegment
      (calculateStatistics (extractSectionProfileData Sample.repeatingDocument) [])
    = Some "797".
Proof.
  assert (Forall finite (extractSectionProfileData Sample.repeatingDocument)) as HD.
  { vm_compute. repeat constructor; eexists; reflexivity. }
  split; [exact HD|].
  rewrite (longestSegment_firstMaximal _ [] HD). by vm_compute.
Defined.

Lemma shortestSegment_firstMinimal_witness :
  Forall positive (extractSectionProfileData Sample.repeatingDocument)
  ∧ Entry.psr <$> shortestSegment
      (calculateStatistics (extractSectionProfileData Sample.repeatingDocument) [])
    = Some "787".
Proof.
  assert (Forall positive (extractSectionProfileData Sample.repeatingDocument)) as HD.
  { vm_compute. repeat constructor; eexists; (split; [reflexivity|by vm_compute]). }
  split; [exact HD|].
  rewrite (shortestSegment_firstMinimal _ [] HD). by vm_compute.
Defined.

End Extremes.

(* ===================================================================== *)
(** ** Matches are texts of their patterns *)
(* ===================================================================== *)

Section MatchTexts.

Lemma append_assoc' (a b c : string) : (a +:+ b) +:+ c = a +:+ (b +:+ c).
Proof. induction a as [|x a IH]; [done|]. rewrite !append_cons. by rewrite IH. Qed.

Lemma length_append' (a b : string) :
  String.length (a +:+ b) = String.length a + String.length b.
Proof. induction a as [|x a IH]; [done|]. rewrite append_cons. simpl. by rewrite IH. Qed.

Lemma consumed_prefix (t : string) (p' : pos) :
  consumed (t +:+ rest p') p' = t.
Proof.
  unfold consumed. rewrite length_append'.
  replace (String.length t + String.length (rest p') - String.length (rest p'))
    with (String.length t) by lia.
  induction t as [|x t IH].
  - rewrite append_nil. simpl. by destruct (rest p').
  - rewrite append_cons. simpl. by rewrite IH.
Qed.

Lemma rep_loop_text (mr : cont → cont) (r : regex) (g : bool) :
  faithful mr r →
  ∀ fuel lo hi k p c res,
    rep_loop mr g fuel lo hi k p c = Some res →
    ∃ p' c',
      ((∃ t, rest p = t +:+ rest p' ∧ text_of (Rep g lo hi r) t)
       ∧ ∀ n, n ∉ groups r → c' n = c n)
      ∧ k p' c' = Some res.
Proof.
  intros Hmr. induction fuel as [|fuel IH]; intros lo hi k p c res H; [done|].
  assert (Hstop : k p c = Some res → rep_min lo hi = 0 →
          ∃ p' c', ((∃ t, rest p = t +:+ rest p' ∧ text_of (Rep g lo hi r) t)
                    ∧ ∀ n, n ∉ groups r → c' n = c n) ∧ k p' c' = Some res).
  { intros Hk Hz. exists p, c. split; [|done]. split; [|done].
    exists "". split; [done|]. exists []. rewrite Hz. simpl.
    split; [done|]. split; [constructor|]. split; [lia|]. intros; lia. }
  assert (Hiter : ∀ d : cont,
             (d = fun p' c' =>
                if (lo =? 0) && (String.length (rest p') =? String.length (rest p))
                then None
                else rep_loop mr g fuel (Nat.pred lo) (Nat.pred <$> hi) k p' c') →
             hi ≠ Some 0 →
             mr d p c = Some res →
          ∃ p' c', ((∃ t, rest p = t +:+ rest p' ∧ text_of (Rep g lo hi r) t)
                    ∧ ∀ n, n ∉ groups r → c' n = c n) ∧ k p' c' = Some res).
  { intros d -> Hhi Hm. apply Hmr in Hm as (p1 & c1 & ((t1 & Ht1 & Hs1) & Hc1 & _) & Hd).
    destruct ((lo =? 0) && _) in Hd; [done|].
    apply IH in Hd as (p2 & c2 & ((t2 & Ht2 & ts & -> & Hts & Hlo & Hhi2) & Hc2) & Hk).
    exists p2, c2. split; [split|done].
    - exists (t1 +:+ join ts). split; [by rewrite Ht1, Ht2, append_assoc'|].
      exists (t1 :: ts). split; [done|]. split; [by constructor|]. simpl. split.
      + destruct hi as [[|h]|]; simpl in *; lia.
      + intros h ->. simpl in Hhi2. specialize (Hhi2 _ eq_refl).
        destruct h; [done|simpl in Hhi2; lia].
    - intros n Hn. rewrite Hc2, Hc1; done. }
  simpl in H. destruct hi as [[|h]|].
  - apply Hstop; [done|]. simpl. lia.
  - destruct (0 <? lo) eqn:Hlo.
    + eapply Hiter; [reflexivity|done|done].
    + apply Nat.ltb_ge in Hlo. destruct g.
      * destruct (mr _ p c) eqn:Hm.
        -- injection H as ->. eapply Hiter; [reflexivity|done|done].
        -- apply Hstop; [done|]. simpl. lia.
      * destruct (k p c) eqn:Hk.
        -- injection H as ->. apply Hstop; [done|]. simpl. lia.
        -- eapply Hiter; [reflexivity|done|done].
  - destruct (0 <? lo) eqn:Hlo.
    + eapply Hiter; [reflexivity|done|done].
    + apply Nat.ltb_ge in Hlo. destruct g.
      * destruct (mr _ p c) eqn:Hm.
        -- injection H as ->. eapply Hiter; [reflexivity|done|done].
        -- apply Hstop; [done|]. simpl. lia.
      * destruct (k p c) eqn:Hk.
        -- injection H as ->. apply Hstop; [done|]. simpl. lia.
        -- eapply Hiter; [reflexivity|done|done].
Qed.

Lemma rmatch_text (r : regex) : faithful (rmatch r) r.
Proof.
  induction r as [|f|r1 IH1 r2 IH2|r1 IH1 r2 IH2|g lo hi r1 IH1|n r1 IH1|ml|ml|r1 IH1];
    intros k p c res H; simpl in H.
  - exists p, c. split; [|done]. split; [by exists ""|]. split; [done|no_capture].
  - destruct (rest p) as [|a s] eqn:Hr; [done|]. destruct (f a) eqn:Hf; [|done].
    eexists _, _. split; [|exact H]. split.
    + exists (String a ""). rewrite Hr. simpl. split; [done|]. by exists a.
    + split; [done|no_capture].
  - apply IH1 in H as (p1 & c1 & ((t1 & Ht1 & Hs1) & Hc1 & Hg1) & H).
    apply IH2 in H as (p2 & c2 & ((t2 & Ht2 & Hs2) & Hc2 & Hg2) & H).
    exists p2, c2. split; [|done]. split.
    { exists (t1 +:+ t2). split; [by rewrite Ht1, Ht2, append_assoc'|].
      simpl. by exists t1, t2. }
    split.
    + simpl. intros n Hn. rewrite not_elem_of_app in Hn. destruct Hn.
      rewrite Hc2, Hc1; done.
    + simpl. intros n rn [Hin|Hin]%elem_of_app.
      * apply list_elem_of_filter in Hin as [Hnot Hin]. simpl in Hnot.
        rewrite Hc2 by done. eauto.
      * eauto.
  - destruct (rmatch r1 k p c) eqn:H1.
    + injection H as ->. apply IH1 in H1 as (p1 & c1 & ((t1 & Ht1 & Hs1) & Hc1 & _) & H).
      exists p1, c1. split; [|done]. split; [exists t1; simpl; auto|].
      split; [|no_capture].
      simpl. intros n Hn. rewrite not_elem_of_app in Hn. destruct Hn. auto.
    + apply IH2 in H as (p1 & c1 & ((t1 & Ht1 & Hs1) & Hc1 & _) & H).
      exists p1, c1. split; [|done]. split; [exists t1; simpl; auto|].
      split; [|no_capture].
      simpl. intros n Hn. rewrite not_elem_of_app in Hn. destruct Hn. auto.
  - apply (rep_loop_text _ r1 g IH1) in H as (p1 & c1 & (Hl1 & Hc1) & H).
    exists p1, c1. split; [|done]. split; [exact Hl1|]. split; [exact Hc1|no_capture].
  - apply IH1 in H as (p1 & c1 & ((t1 & Ht1 & Hs1) & Hc1 & Hg1) & H).
    eexists _, _. split; [|exact H]. split; [by exists t1|]. split.
    + simpl. intros m Hm. rewrite not_elem_of_cons in Hm. destruct Hm as [Hne Hm].
      unfold set_cap. destruct (m =? n) eqn:E; [apply Nat.eqb_eq in E; done|]. auto.
    + simpl. intros m rn [Heq|Hin]%elem_of_cons.
      * injection Heq as -> ->. unfold set_cap. rewrite Nat.eqb_refl.
        eexists. split; [done|]. rewrite Ht1, consumed_prefix. done.
      * apply list_elem_of_filter in Hin as [Hne Hin]. simpl in Hne.
        unfold set_cap. destruct (m =? n) eqn:E; [apply Nat.eqb_eq in E; done|]. eauto.
  - destruct (at_bol ml p); [|done]. exists p, c. split; [|done].
    split; [by exists ""|]. split; [done|no_capture].
  - destruct (at_eol ml p); [|done]. exists p, c. split; [|done].
    split; [by exists ""|]. split; [done|no_capture].
  - destruct (rmatch r1 _ p c) as [[p1 c1]|] eqn:H1; [|done].
    apply IH1 in H1 as (p2 & c2 & (_ & Hc1 & _) & H1). injection H1 as -> ->.
    exists p, c1. split; [|done]. split; [by exists ""|]. split; [exact Hc1|no_capture].
Qed.

Lemma accept_fits (r : regex) (pv : option ascii) (s : string) (i : nat)
      (p' : pos) (c : caps) :
  rmatch r accept (Pos pv s) no_caps = Some (p', c) →
  fits r (MRes i (consumed s p') c p').
Proof.
  intros Hm. apply rmatch_text in Hm as (p1 & c1 & ((t & Ht & Hs) & _ & Hg) & Hk).
  injection Hk as -> ->. simpl in Ht. split; [|exact Hg]. simpl.
  by rewrite Ht, consumed_prefix.
Qed.

Lemma exec_from_fits (r : regex) (s : string) :
  ∀ pv i m, exec_from r pv s i = Some m → fits r m.
Proof.
  induction s as [|a s IH]; intros pv i m H; simpl in H;
    destruct (rmatch r accept _ no_caps) as [[p' c']|] eqn:Hm.
  - injection H as <-. by eapply accept_fits.
  - done.
  - injection H as <-. by eapply accept_fits.
  - by eapply IH.
Qed.

Lemma exec_fits (r : regex) (s : string) (m : mres) :
  exec r s = Some m → fits r m.
Proof. apply exec_from_fits. Qed.

Lemma all_from_fits (r : regex) :
  ∀ fuel pv s i, Forall (fits r) (all_from fuel r pv s i).
Proof.
  induction fuel as [|fuel IH]; intros pv s i; simpl; [constructor|].
  destruct (exec_from r pv s i) as [m|] eqn:H; [|constructor].
  constructor; [by eapply exec_from_fits|].
  destruct (matched m); [destruct (rest (after m)); [constructor|apply IH]|apply IH].
Qed.

Lemma match_all_fits (r : regex) (s : string) : Forall (fits r) (match_all r s).
Proof. apply all_from_fits. Qed.

Lemma text_of_rep_cls g lo hi f t :
  text_of (Rep g lo hi (Cls f)) t →
  all f t = true ∧ rep_min lo hi ≤ String.length t
  ∧ ∀ h, hi = Some h → String.length t ≤ h.
Proof.
  simpl. intros (ts & -> & Hts & Hlo & Hhi).
  assert (all f (join ts) = true ∧ String.length (join ts) = length ts) as [Ha Hl].
  { clear Hlo Hhi. induction Hts as [|t ts (a & -> & Hf) _ [IH1 IH2]]; [done|].
    change (join (String a "" :: ts)) with (String a "" +:+ join ts).
    rewrite append_cons, append_nil. simpl. by rewrite Hf, IH1, IH2. }
  rewrite Hl. done.
Qed.

Lemma text_of_chr (c : ascii) (t : string) : text_of (chr c) t → t = String c "".
Proof.
  intros (a & -> & Ha). unfold Chars.is_chr in Ha. apply Ascii.eqb_eq in Ha. by subst.
Qed.

Lemma text_of_plus (f : ascii → bool) (t : string) :
  text_of (plus (Cls f)) t → t ≠ "" ∧ all f t = true.
Proof.
  intros (H1 & H2 & _)%text_of_rep_cls. simpl in H2. split; [|done].
  apply length_nonempty. lia.
Qed.

Lemma text_of_digit (t : string) :
  text_of digit t → ∃ d, d < 10 ∧ t = String (digitChar d) "".
Proof.
  intros (a & -> & Ha). unfold Chars.is_digit, Chars.in_range in Ha.
  apply andb_true_iff in Ha as [H1%Nat.leb_le H2%Nat.leb_le].
  exists (Chars.code a - 48). split; [lia|]. unfold digitChar.
  replace (48 + (Chars.code a - 48)) with (Chars.code a) by lia.
  unfold Chars.code. by rewrite ascii_nat_embedding.
Qed.

Lemma all_append (f : ascii → bool) (a b : string) :
  all f (a +:+ b) = all f a && all f b.
Proof. induction a as [|x a IH]; [done|]. rewrite append_cons. simpl. by rewrite IH, andb_assoc. Qed.

Lemma all_impl (f g : ascii → bool) (s : string) :
  (∀ a, f a = true → g a = true) → all f s = true → all g s = true.
Proof.
  intros Hfg. induction s as [|x s IH]; [done|]. simpl. rewrite !andb_true_iff.
  intros [? ?]. auto.
Qed.

Lemma captured_grp (n : nat) (r : regex) : (n, r) ∈ captured (Grp n r).
Proof. simpl. left. Qed.

Lemma captured_seq_l (x : nat * regex) (r1 r2 : regex) :
  x ∈ captured r1 → fst x ∉ groups r2 → x ∈ captured (Seq r1 r2).
Proof. intros H1 H2. simpl. apply elem_of_app. left. by apply list_elem_of_filter. Qed.

Lemma captured_seq_r (x : nat * regex) (r1 r2 : regex) :
  x ∈ captured r2 → x ∈ captured (Seq r1 r2).
Proof. intros H. simpl. apply elem_of_app. by right. Qed.

Lemma capture_Some (m : mres) (n : nat) (u : string) :
  group m n = Some u → capture m n = u.
Proof. unfold capture. by intros ->. Qed.

Lemma field_text (r rn : regex) (s t : string) :
  field r s = Some t → (1, rn) ∈ captured r → text_of rn t.
Proof.
  unfold field. intros H Hin. destruct (exec r s) as [m|] eqn:Hm; [|done]. simpl in H.
  apply exec_fits in Hm as [_ Hc]. destruct (Hc _ _ Hin) as (u & Hu & Hs). congruence.
Qed.

Lemma exec_group_text (r rn : regex) (s t : string) (m : mres) (n : nat) :
  exec r s = Some m → group m n = Some t → (n, rn) ∈ captured r → text_of rn t.
Proof.
  intros Hm Hg Hin. apply exec_fits in Hm as [_ Hc].
  destruct (Hc _ _ Hin) as (u & Hu & Hs). congruence.
Qed.

Lemma exec_from_rmatch (r : regex) (s : string) :
  ∀ pv i m, exec_from r pv s i = Some m →
    ∃ pv' s', rmatch r accept (Pos pv' s') no_caps = Some (after m, group m).
Proof.
  induction s as [|a s IH]; intros pv i m H; simpl in H;
    destruct (rmatch r accept _ no_caps) as [[p' c']|] eqn:Hm.
  - injection H as <-. eauto.
  - done.
  - injection H as <-. eauto.
  - by eapply IH.
Qed.

Lemma accept_place (r : regex) (pv : option ascii) (s : string) (p' : pos) (c : caps) :
  rmatch r accept (Pos pv s) no_caps = Some (p', c) →
  s = consumed s p' +:+ rest p'.
Proof.
  intros Hm. apply rmatch_text in Hm as (p1 & c1 & ((t & Ht & _) & _) & Hk).
  injection Hk as -> ->. simpl in Ht. subst s. by rewrite consumed_prefix.
Qed.

Lemma exec_from_place (r : regex) (s : string) :
  ∀ pv i m, exec_from r pv s i = Some m →
    ∃ pre, s = pre +:+ matched m +:+ rest (after m)
           ∧ index m = i + String.length pre.
Proof.
  induction s as [|a s IH]; intros pv i m H; simpl in H;
    destruct (rmatch r accept _ no_caps) as [[p' c']|] eqn:Hm.
  - injection H as <-. exists "". simpl. rewrite append_nil.
    split; [by eapply accept_place|lia].
  - done.
  - injection H as <-. exists "". simpl. rewrite append_nil.
    split; [by eapply accept_place|lia].
  - apply IH in H as (pre & Hs & Hi). exists (String a pre).
    rewrite append_cons. split; [by rewrite <- Hs|simpl; lia].
Qed.

Lemma search_bound (r : regex) (s : string) (i : nat) :
  search r s = Some i → i + min_len r ≤ String.length s.
Proof.
  unfold search. destruct (exec r s) as [m|] eqn:Hm; [|done]. intros [= <-].
  pose proof (exec_good _ _ _ Hm) as [Hl _].
  apply exec_from_place in Hm as (pre & Hs & Hi).
  rewrite Hs, !length_append'. lia.
Qed.

End MatchTexts.

(** Finds a group in the list of the captured groups of a pattern. *)
Ltac in_captured :=
  lazymatch goal with
  | |- ?x ∈ captured ?r =>
      let r' := eval hnf in r in
      change (x ∈ captured r');
      first [ apply captured_grp
            | apply captured_seq_l;
              [in_captured | apply (bool_decide_unpack _); vm_compute; exact I]
            | apply captured_seq_r; in_captured ]
  end.

(* ===================================================================== *)
(** ** The greedy and the lazy loop of a character class *)
(* ===================================================================== *)

Section Loops.

Lemma rmatch_grp (n : nat) (r : regex) (k : cont) (p : pos) (c : caps) :
  rmatch (Grp n r) k p c
  = rmatch r (fun p' c' => k p' (set_cap n (consumed (rest p) p') c')) p c.
Proof. reflexivity. Qed.

Lemma rmatch_seq (r1 r2 : regex) (k : cont) (p : pos) (c : caps) :
  rmatch (Seq r1 r2) k p c = rmatch r1 (rmatch r2 k) p c.
Proof. reflexivity. Qed.

Lemma rep_loop_greedy (mr : cont → cont) (f : ascii → bool) (k : cont) (c : caps) :
  (∀ d pv a s c, mr d (Pos pv (String a s)) c
                 = if f a then d (Pos (Some a) s) c else None) →
  (∀ d pv c, mr d (Pos pv "") c = None) →
  ∀ s fuel lo pv, String.length s < fuel →
    rep_loop mr true fuel lo None k (Pos pv s) c = greedy_run f lo k pv s c.
Proof.
  intros Hchar Hend.
  induction s as [|a s IH]; intros fuel lo pv Hf; (destruct fuel as [|fuel]; [simpl in Hf; lia|]).
  - simpl. rewrite Hend. destruct lo; simpl; [by destruct (k _ c)|done].
  - simpl in Hf. simpl. rewrite Hchar. simpl.
    replace (String.length s =? S (String.length s)) with false
      by (symmetry; apply Nat.eqb_neq; lia).
    rewrite andb_false_r. rewrite (IH fuel (Nat.pred lo) (Some a)) by lia.
    destruct lo as [|lo]; simpl.
    + destruct (f a); [|by destruct (k _ c)]. done.
    + destruct (f a); [|done]. by destruct (greedy_run _ _ _ _ _ _).
Qed.

Lemma rmatch_greedy (f : ascii → bool) (lo : nat) (k : cont) (p : pos) (c : caps) :
  rmatch (Rep true lo None (Cls f)) k p c = greedy_run f lo k (prev p) (rest p) c.
Proof.
  destruct p as [pv s]. cbn [rmatch]. apply rep_loop_greedy; [done|done|simpl; lia].
Qed.

Lemma greedy_none (f : ascii → bool) (k : cont) (c : caps) (s : string) :
  ∀ lo pv, greedy_run f lo k pv s c = None →
    ∀ j, lo ≤ j → j ≤ run_length f s → k (advance j pv s) c = None.
Proof.
  induction s as [|a s IH]; intros lo pv H j Hlo Hj; simpl in *.
  - assert (j = 0) as -> by lia. assert (lo = 0) as -> by lia. done.
  - destruct (f a) eqn:Hf.
    + destruct (greedy_run f (Nat.pred lo) k (Some a) s c) eqn:Hr; [done|].
      destruct j as [|j].
      * assert (lo = 0) as -> by lia. done.
      * simpl. eapply IH; [exact Hr|lia|lia].
    + assert (j = 0) as -> by lia. assert (lo = 0) as -> by lia. done.
Qed.

Lemma greedy_found (f : ascii → bool) (k : cont) (c : caps) (s : string) :
  ∀ lo pv res, greedy_run f lo k pv s c = Some res →
    ∃ j, lo ≤ j ∧ j ≤ run_length f s ∧ k (advance j pv s) c = Some res
         ∧ ∀ j', j < j' → j' ≤ run_length f s → k (advance j' pv s) c = None.
Proof.
  induction s as [|a s IH]; intros lo pv res H; simpl in *.
  - destruct lo; [|done]. exists 0. split; [lia|]. split; [lia|]. split; [done|]. intros; lia.
  - destruct (f a) eqn:Hf.
    + destruct (greedy_run f (Nat.pred lo) k (Some a) s c) eqn:Hr.
      * injection H as ->. apply IH in Hr as (j & H1 & H2 & H3 & H4).
        exists (S j). split; [lia|]. split; [lia|]. split; [done|].
        intros [|j'] ? ?; [lia|]. simpl. apply H4; lia.
      * destruct lo; [|done]. exists 0. split; [lia|]. split; [lia|]. split; [done|].
        intros [|j'] ? ?; [lia|]. simpl. eapply greedy_none; [exact Hr|simpl; lia|lia].
    + destruct lo; [|done]. exists 0. split; [lia|]. split; [lia|]. split; [done|]. intros; lia.
Qed.

Lemma greedy_longest (f : ascii → bool) (k : cont) (c : caps) (s : string) :
  ∀ lo pv res, lo ≤ run_length f s → k (advance (run_length f s) pv s) c = Some res →
    greedy_run f lo k pv s c = Some res.
Proof.
  induction s as [|a s IH]; intros lo pv res Hlo Hk; simpl in *.
  - assert (lo = 0) as -> by lia. done.
  - destruct (f a) eqn:Hf.
    + simpl in Hk. rewrite (IH (Nat.pred lo) (Some a) res); [done|lia|done].
    + assert (lo = 0) as -> by lia. done.
Qed.

Lemma run_length_advance (f : ascii → bool) (s : string) :
  ∀ j pv, j ≤ run_length f s → run_length f (rest (advance j pv s)) = run_length f s - j.
Proof.
  induction s as [|a s IH]; intros [|j] pv Hj; simpl in *; try done; try lia.
  destruct (f a); [|lia]. apply IH. lia.
Qed.

Lemma two_runs (f : ascii → bool) (n m : nat) (p : pos) (c : caps) (res : pos * caps) :
  rmatch (Seq (Grp n (Rep true 1 None (Cls f))) (Grp m (Rep true 1 None (Cls f))))
         accept p c = Some res →
  ∃ a, f a = true ∧ snd res m = Some (String a "").
Proof.
  rewrite rmatch_seq, rmatch_grp, rmatch_greedy. intros H.
  apply greedy_found in H as (j & Hj1 & Hj2 & Hk & Hmax).
  set (s := rest p) in *. set (pv := prev p) in *.
  assert (Hinner : ∀ i c', i < run_length f s →
            ∃ a, f a = true
              ∧ rmatch (Grp m (Rep true 1 None (Cls f))) accept (advance i pv s) c'
                = Some (advance (run_length f s - i) (prev (advance i pv s)) (rest (advance i pv s)),
                        set_cap m (consumed (rest (advance i pv s))
                                     (advance (run_length f s - i) (prev (advance i pv s))
                                        (rest (advance i pv s)))) c')).
  { intros i c' Hi. rewrite rmatch_grp, rmatch_greedy.
    assert (run_length f (rest (advance i pv s)) = run_length f s - i) as Hsp by (apply run_length_advance; lia).
    destruct (rest (advance i pv s)) as [|a s'] eqn:Hr; [simpl in Hsp; lia|].
    exists a. simpl in Hsp. destruct (f a) eqn:Hf; [|lia]. split; [done|].
    apply greedy_longest; [simpl; rewrite Hf; lia|]. simpl run_length. rewrite Hf, Hsp. done. }
  assert (j < run_length f s) as Hlt.
  { destruct (decide (j < run_length f s)); [done|]. exfalso.
    rewrite rmatch_grp, rmatch_greedy in Hk. apply greedy_found in Hk as (i & Hi1 & Hi2 & _).
    rewrite run_length_advance in Hi2 by lia. lia. }
  assert (j = run_length f s - 1) as Hjs.
  { destruct (decide (j = run_length f s - 1)); [done|]. exfalso.
    specialize (Hmax (S j) ltac:(lia) ltac:(lia)).
    destruct (Hinner (S j) (set_cap n (consumed s (advance (S j) pv s)) c) ltac:(lia))
      as (a & _ & Hin).
    rewrite Hin in Hmax. done. }
  destruct (Hinner j (set_cap n (consumed s (advance j pv s)) c) Hlt) as (a & Hf & Hin).
  rewrite Hin in Hk. injection Hk as <-. simpl.
  assert (run_length f (rest (advance j pv s)) = 1) as Hsp by (rewrite run_length_advance; lia).
  replace (run_length f s - j) with 1 by lia.
  destruct (rest (advance j pv s)) as [|b s'] eqn:Hr; [simpl in Hsp; lia|].
  simpl in Hsp. destruct (f b) eqn:Hb; [|lia].
  exists b. split; [done|]. unfold set_cap. rewrite Nat.eqb_refl. f_equal.
  simpl. unfold consumed. simpl.
  replace (S (String.length s') - String.length s') with 1 by lia.
  simpl. by destruct s'.
Qed.






End Loops.

(* ===================================================================== *)
(** ** The entries of the Section Profile *)
(* ===================================================================== *)

Section EntryTexts.

Lemma text_of_date (t : string) : text_of Patterns.date t → dateText t.
Proof.
  unfold Patterns.date. cbn [seq].
  intros (m & t1 & -> & Hm & (s1 & t2 & -> & Hs1 & (d & t3 & -> & Hd & (s2 & y & -> & Hs2 & Hy)))).
  apply text_of_chr in Hs1 as ->. apply text_of_chr in Hs2 as ->.
  apply text_of_rep_cls in Hm as (Hm1 & Hm2 & Hm3).
  apply text_of_rep_cls in Hd as (Hd1 & Hd2 & Hd3).
  apply text_of_rep_cls in Hy as (Hy1 & Hy2 & Hy3).
  specialize (Hm3 _ eq_refl). specialize (Hd3 _ eq_refl). specialize (Hy3 _ eq_refl).
  simpl in Hm2, Hd2, Hy2.
  exists m, d, y. split; [done|]. repeat split; (done || lia).
Qed.

Lemma dateText_length (s : string) : dateText s → 8 ≤ String.length s ≤ 10.
Proof.
  intros (m & d & y & -> & _ & ? & _ & ? & _ & ?).
  rewrite !length_append'. simpl. lia.
Qed.

Lemma dashes_append (a b : string) : dashes (a +:+ b) = dashes a + dashes b.
Proof. induction a as [|x a IH]; [done|]. rewrite append_cons. simpl. rewrite IH. lia. Qed.

Lemma dashes_none (f : ascii → bool) (s : string) :
  (∀ a, f a = true → Chars.is_chr "-" a = false) → all f s = true → dashes s = 0.
Proof.
  intros Hf. induction s as [|x s IH]; [done|]. cbn [dashes all]. rewrite andb_true_iff.
  intros [Hx Hs]. rewrite (Hf x Hx), IH; done.
Qed.

Lemma digit_no_dash (a : ascii) : Chars.is_digit a = true → Chars.is_chr "-" a = false.
Proof.
  intros H. destruct (Chars.is_chr "-" a) eqn:E; [|done].
  apply Ascii.eqb_eq in E. subst. done.
Qed.

Lemma upper_no_dash (a : ascii) : Chars.is_upper a = true → Chars.is_chr "-" a = false.
Proof.
  intros H. destruct (Chars.is_chr "-" a) eqn:E; [|done].
  apply Ascii.eqb_eq in E. subst. done.
Qed.

Lemma text_of_mhPattern (t : string) :
  text_of Patterns.mhPattern t → manholeText t ∧ dashes t = 3.
Proof.
  unfold Patterns.mhPattern. cbn [seq text_of].
  intros (a & t1 & -> & Ha & (s1 & t2 & -> & Hs1 & (b & t3 & -> & Hb
            & (s2 & t4 & -> & Hs2 & (c & t5 & -> & Hc & (s3 & t6 & -> & Hs3
            & (d & u & -> & Hd & Hu))))))).
  apply text_of_chr in Hs1 as ->. apply text_of_chr in Hs2 as ->. apply text_of_chr in Hs3 as ->.
  apply text_of_rep_cls in Ha as (Ha & Hla & _). apply text_of_rep_cls in Hb as (Hb & _ & _).
  apply text_of_rep_cls in Hc as (Hc & _ & _). apply text_of_rep_cls in Hd as (Hd & _ & _).
  apply text_of_rep_cls in Hu as (Hu & _ & _). simpl in Hla.
  assert (∀ s, all Chars.is_digit s = true → all manholeChar s = true) as Hdig.
  { intros s. apply all_impl. intros x Hx. unfold manholeChar. by rewrite Hx. }
  assert (∀ s, all Chars.is_upper s = true → all manholeChar s = true) as Hup.
  { intros s. apply all_impl. intros x Hx. unfold manholeChar. rewrite Hx.
    by rewrite orb_true_r. }
  split; [split|].
  - apply length_nonempty. rewrite length_append'. lia.
  - rewrite !all_append, (Hdig a), (Hdig b), (Hdig c), (Hdig d), (Hup u); done.
  - rewrite !dashes_append.
    rewrite (dashes_none _ a digit_no_dash), (dashes_none _ b digit_no_dash),
      (dashes_none _ c digit_no_dash), (dashes_none _ d digit_no_dash),
      (dashes_none _ u upper_no_dash); done.
Qed.

Lemma anchors_text (line up down : string) :
  anchors line = Some (up, down) →
  text_of Patterns.mhPattern up ∧ text_of Patterns.mhPattern down.
Proof.
  unfold anchors. pose proof (match_all_fits Patterns.mhPattern line) as Hg.
  destruct (match_all Patterns.mhPattern line) as [|m0 [|m1 ms]]; [done..|].
  intros [= <- <-].
  apply Forall_cons in Hg as [[H0 _] Hg]. apply Forall_cons in Hg as [[H1 _] _].
  done.
Qed.

Lemma digitsBeforeMH_digits (line up d : string) :
  digitsBeforeMH line up = Some d → digits d.
Proof.
  unfold digitsBeforeMH. intros H. apply bind_Some in H as (m & Hm & Hg).
  apply exec_fits in Hm as [_ Hc].
  destruct (Hc 1 (plus digit)) as (u & Hu & Hs).
  { in_captured. }
  assert (u = d) as -> by congruence. by apply text_of_plus in Hs.
Qed.

Lemma anchorLine_fields (line : string) (e : Entry.t) :
  anchorLine line = Some e →
  ∃ d rm,
    anchors line = Some (Entry.upstreamMH e, Entry.downstreamMH e)
    ∧ digitsBeforeMH line (Entry.upstreamMH e) = Some d
    ∧ splitNoPsr d = (Entry.no e, Some (Entry.psr e))
    ∧ restMatch line (Entry.downstreamMH e) = Some rm
    ∧ Entry.date e = capture rm 1 ∧ Entry.material e = capture rm 2
    ∧ Entry.totalLength e = Js.parseFloat (capture rm 3)
    ∧ Entry.lengthSurveyed e = Js.parseFloat (capture rm 4).
Proof.
  unfold anchorLine. intros He.
  destruct (anchors line) as [[up down]|] eqn:Ha; [|done]. simpl in He.
  destruct (digitsBeforeMH line up) as [d|] eqn:Hd; [|done]. simpl in He.
  destruct (splitNoPsr d) as [no psr] eqn:Hs.
  destruct (restMatch line down) as [rm|] eqn:Hr; [|done]. simpl in He.
  destruct (Js.truthy psr) eqn:Ht; [|done].
  apply truthy_nonempty in Ht as (s & -> & Hne). injection He as <-. simpl.
  by exists d, rm.
Qed.

Lemma lengthSplit_parts (n a b : nat) :
  lengthSplit n = Some (a, b) → 1 ≤ a ∧ 3 ≤ b ∧ a + b = n.
Proof.
  unfold lengthSplit.
  destruct (n <=? 3) eqn:E3; [done|]. apply Nat.leb_gt in E3.
  destruct (n =? 4) eqn:E4; [apply Nat.eqb_eq in E4; intros [= <- <-]; lia|].
  destruct (n =? 5) eqn:E5; [apply Nat.eqb_eq in E5; intros [= <- <-]; lia|].
  destruct (n =? 6) eqn:E6; [apply Nat.eqb_eq in E6; intros [= <- <-]; lia|].
  destruct (n =? 7) eqn:E7; [apply Nat.eqb_eq in E7; intros [= <- <-]; lia|].
  intros [= <- <-]. lia.
Qed.

Lemma split_digits (d no psr : string) :
  digits d → splitNoPsr d = (no, Some psr) → digits no ∧ digits psr.
Proof.
  intros [_ Hd] Hs. pose proof (splitNoPsr_table d) as Ht.
  destruct (lengthSplit (String.length d)) as [[a b]|] eqn:Hl; [|congruence].
  destruct Ht as (no' & psr' & Hs' & Hcat & Hno & Hpsr).
  rewrite Hs in Hs'. injection Hs' as <- <-.
  rewrite Hcat, all_append, andb_true_iff in Hd. destruct Hd as [H1 H2].
  apply lengthSplit_parts in Hl as (Ha & Hb & _).
  split; (split; [apply length_nonempty; lia|done]).
Qed.

Lemma rest_captures (s : string) (rm : mres) :
  exec Patterns.rest s = Some rm →
  dateText (capture rm 1) ∧ capitals (capture rm 2).
Proof.
  intros [_ Hc]%exec_fits.
  destruct (Hc 1 Patterns.date) as (u1 & Hu1 & Hs1).
  { in_captured. }
  destruct (Hc 2 (times 2 4 upper)) as (u2 & Hu2 & Hs2).
  { in_captured. }
  rewrite (capture_Some _ _ _ Hu1), (capture_Some _ _ _ Hu2).
  split; [by apply text_of_date|].
  apply text_of_rep_cls in Hs2 as (H1 & H2 & _). simpl in H2.
  split; [apply length_nonempty; lia|done].
Qed.

Lemma anchorLine_wellFormed (line : string) (e : Entry.t) :
  anchorLine line = Some e → wellFormed e ∧ shaped e.
Proof.
  intros (d & rm & Ha & Hd & Hs & Hr & Hdate & Hmat & _)%anchorLine_fields.
  apply anchors_text in Ha as [[Hu Hu3]%text_of_mhPattern [Hd' _]%text_of_mhPattern].
  apply digitsBeforeMH_digits in Hd. destruct (split_digits _ _ _ Hd Hs) as [Hno Hpsr].
  unfold restMatch in Hr. apply rest_captures in Hr as [Hdt Hm].
  rewrite <- Hdate, <- Hmat in *.
  split; [exact (conj Hno (conj Hpsr (conj Hu (conj Hd' (conj Hdt Hm)))))|].
  split; [|done].
  destruct Hpsr as [_ Hp]. by apply (dashes_none _ _ digit_no_dash).
Qed.

Lemma spacedEntry_wellFormed (section : string) (m : mres) :
  m ∈ match_all Patterns.spacedPattern section → wellFormed (spacedEntry m).
Proof.
  intros Hm. pose proof (match_all_fits Patterns.spacedPattern section) as Hg.
  rewrite Forall_forall in Hg. destruct (Hg m Hm) as [_ Hc].
  destruct (Hc 1 (plus digit)) as (u1 & Hu1 & Hs1);
    [in_captured|].
  destruct (Hc 2 (plus digit)) as (u2 & Hu2 & Hs2);
    [in_captured|].
  destruct (Hc 3 (plus (Cls (fun a => Chars.is_digit a || Chars.is_chr "-" a))))
    as (u3 & Hu3 & Hs3); [in_captured|].
  destruct (Hc 4 (plus (Cls (fun a => Chars.is_digit a || Chars.is_chr "-" a
                                      || Chars.is_upper a))))
    as (u4 & Hu4 & Hs4); [in_captured|].
  destruct (Hc 5 Patterns.date) as (u5 & Hu5 & Hs5);
    [in_captured|].
  destruct (Hc 6 (plus upper)) as (u6 & Hu6 & Hs6);
    [in_captured|].
  unfold wellFormed, spacedEntry. cbn [Entry.no Entry.psr Entry.upstreamMH
    Entry.downstreamMH Entry.date Entry.material].
  rewrite (capture_Some _ _ _ Hu1), (capture_Some _ _ _ Hu2), (capture_Some _ _ _ Hu3),
    (capture_Some _ _ _ Hu4), (capture_Some _ _ _ Hu5), (capture_Some _ _ _ Hu6).
  apply text_of_plus in Hs1, Hs2, Hs3, Hs4, Hs6. apply text_of_date in Hs5.
  repeat split; try tauto.
  - destruct Hs3 as [_ H]. revert H. apply all_impl. intros a Ha. unfold manholeChar.
    by rewrite Ha.
Qed.

Lemma sectionRows_wellFormed (section : string) (e : Entry.t) :
  e ∈ sectionRows section → wellFormed e.
Proof.
  destruct (sectionRows_cases section) as [[_ ->]|[_ ->]].
  - intros (line & _ & _ & He)%elem_of_anchorRows. by apply anchorLine_wellFormed in He as [? _].
  - intros (m & Hm & -> & _)%elem_of_spacedRows. by eapply spacedEntry_wellFormed.
Qed.

Lemma extractedRows_unfold (text : string) (e : Entry.t) :
  e ∈ extractedRows text →
  ∃ m, exec Patterns.fullSection text = Some m ∧ e ∈ sectionRows (matched m).
Proof.
  unfold extractedRows. destruct (exec Patterns.fullSection text) as [m|]; [eauto|].
  by intros ?%elem_of_nil.
Qed.

Lemma extracted_is_row (text : string) (e : Entry.t) :
  e ∈ extractSectionProfileData text → e ∈ extractedRows text.
Proof.
  rewrite extract_unfold. intros He.
  eapply elem_of_sublist; [exact He|apply uniqueEntries_sublist].
Qed.

Lemma profile_wellFormed (text : string) (e : Entry.t) :
  e ∈ extractSectionProfileData text → wellFormed e.
Proof.
  intros (m & _ & He)%extracted_is_row%extractedRows_unfold.
  by eapply sectionRows_wellFormed.
Qed.

(** Every entry that [extractSectionProfileData] returns, for any text, has
    a sequence number and a PSR that are runs of decimal digits, two
    manhole IDs made of digits, dashes and capital letters, a date of the
    form m/d/yyyy (8 to 10 characters) and a material code of capital
    letters; none of these texts is empty. *)
Theorem entries_well_formed (text : string) (e : Entry.t) :
  e ∈ extractSectionProfileData text →
  wellFormed e ∧ 8 ≤ String.length (Entry.date e) ≤ 10.
Proof.
  intros He. apply extracted_is_row, extractedRows_unfold in He as (m & _ & He).
  apply sectionRows_wellFormed in He. split; [exact He|].
  destruct He as (_ & _ & _ & _ & Hd & _). by apply dateText_length.
Qed.

Lemma entries_well_formed_witness :
  ∃ e, extractSectionProfileData Sample.document = [e]
       ∧ Entry.date e = "11/20/2024" ∧ wellFormed e.
Proof.
  assert (∃ e, extractSectionProfileData Sample.document = [e]
               ∧ Entry.date e = "11/20/2024") as (e & He & Hp).
  { eexists. split; [vm_compute; reflexivity|reflexivity]. }
  exists e. split; [exact He|]. split; [exact Hp|].
  apply (entries_well_formed Sample.document). rewrite He. left.
Defined.

(** When the anchor-based reconstruction gives the rows of a text, every
    row has a PSR without dash and an upstream manhole ID with exactly
    three dashes, so the key text that the deduplication loop compares
    (the three fields joined by dashes) stands for the key itself: the
    first row of every key (PSR, upstreamMH, downstreamMH) is returned.
    On the spaced pattern this can fail: the two rows of
    [Example.collidingDocument] have different keys and the same key
    text, and the second one is dropped. *)
Theorem anchor_rows_keyed :
  (∀ text m,
     exec Patterns.fullSection text = Some m →
     anchorRows (matched m) ≠ [] →
     (∀ x, x ∈ extractedRows text → shaped x)
     ∧ ∀ before x after,
         extractedRows text = (before ++ x :: after)%list →
         (∀ y, y ∈ before → compositeKey y ≠ compositeKey x) →
         x ∈ extractSectionProfileData text)
  ∧ (compositeKey <$> extractedRows Example.collidingDocument)
    = [("1", "2-3", "4"); ("1", "2", "3-4")]
  ∧ (compositeKey <$> extractSectionProfileData Example.collidingDocument)
    = [("1", "2-3", "4")].
Proof.
  split; [|by vm_compute]. intros text m Hm Hrows.
  assert (∀ x, x ∈ extractedRows text → shaped x) as Hshape.
  { unfold extractedRows. rewrite Hm.
    destruct (sectionRows_cases (matched m)) as [[_ ->]|[? _]]; [|done].
    intros x (line & _ & _ & He)%elem_of_anchorRows.
    by apply anchorLine_wellFormed in He as [_ ?]. }
  split; [done|]. intros before x after Hcat Hb. rewrite extract_unfold.
  eapply uniqueEntries_keeps_first; [exact Hcat|apply not_elem_of_empty|].
  intros y Hy Hk. apply (Hb y Hy), key_injective; [| |done]; apply Hshape;
    rewrite Hcat, elem_of_app; [by left|right; left].
Qed.

Lemma anchor_rows_keyed_witness :
  ∃ m, exec Patterns.fullSection Sample.repeatingDocument = Some m
       ∧ length (anchorRows (matched m)) = 3
       ∧ ∀ x, x ∈ extractedRows Sample.repeatingDocument → shaped x.
Proof.
  destruct (exec Patterns.fullSection Sample.repeatingDocument) as [m|] eqn:Hm;
    [|by vm_compute in Hm].
  exists m. split; [done|].
  assert (length (anchorRows (matched m)) = 3) as Hl.
  { vm_compute in Hm. injection Hm as <-. by vm_compute. }
  split; [done|].
  refine (proj1 (proj1 anchor_rows_keyed Sample.repeatingDocument m Hm _)).
  intros Hnil. by rewrite Hnil in Hl.
Defined.

Lemma rest_last_char (s : string) (rm : mres) :
  exec Patterns.rest s = Some rm →
  ∃ a, (Chars.is_digit a || Chars.is_chr "." a) = true
       ∧ capture rm 4 = String a "".
Proof.
  intros (pv & s' & H)%exec_from_rmatch.
  unfold Patterns.rest in H. cbn [seq] in H.
  rewrite rmatch_seq in H. apply rmatch_post in H as (p1 & c1 & _ & H).
  rewrite rmatch_seq in H. apply rmatch_post in H as (p2 & c2 & _ & H).
  rewrite rmatch_seq in H. apply rmatch_post in H as (p3 & c3 & _ & H).
  apply two_runs in H as (a & Ha & Hc). exists a. split; [done|].
  simpl in Hc. unfold capture. by rewrite Hc.
Qed.

Lemma parseFloat_char (a : ascii) :
  (Chars.is_digit a || Chars.is_chr "." a) = true →
  Js.parseFloat (String a "") = Js.NaN
  ∨ ∃ d : nat, d ≤ 9 ∧ Js.parseFloat (String a "") = Js.of_Z (Z.of_nat d).
Proof.
  destruct a as [[] [] [] [] [] [] [] []]; intros H; try discriminate H;
    first [ by left
          | right; (exists 0 + exists 1 + exists 2 + exists 3 + exists 4 + exists 5
                    + exists 6 + exists 7 + exists 8 + exists 9);
            split; [lia|reflexivity] ].
Qed.

(** On a line with its columns run together, [lengthSurveyed] is read from
    one character.  The pattern of the two lengths is [([\d.]+)([\d.]+)]:
    the first group is greedy and leaves to the second one the last
    character of the run of digits and dots.  So in an entry of the
    anchor-based reconstruction, of [pdfParser.js] and of the fallback of
    [check-position.js] alike, [lengthSurveyed] is a whole number from 0 to
    9 or NaN (when that character is a dot), and [totalLength] is read from
    the two lengths together without that character. *)
Theorem anchor_lengthSurveyed_digit (line : string) (e : Entry.t) :
  anchorLine line = Some e ∨ Positioning.fallbackLine line = Some e →
  Entry.lengthSurveyed e = Js.NaN
  ∨ ∃ d : nat, d ≤ 9 ∧ Entry.lengthSurveyed e = Js.of_Z (Z.of_nat d).
Proof.
  intros [He|He].
  - apply anchorLine_fields in He as (d & rm & _ & _ & _ & Hr & _ & _ & _ & ->).
    apply rest_last_char in Hr as (a & Ha & ->). by apply parseFloat_char.
  - unfold Positioning.fallbackLine in He.
    destruct (anchors line) as [[up down]|]; [|done]. simpl in He.
    destruct (exec Patterns.allDigits _) as [dm|]; [|done]. simpl in He.
    destruct (Positioning.splitDigits _) as [[no psr]|]; [|done]. simpl in He.
    destruct (restMatch line down) as [rm|] eqn:Hr; [|done]. simpl in He.
    injection He as <-. simpl.
    apply rest_last_char in Hr as (a & Ha & ->). by apply parseFloat_char.
Qed.

Lemma anchor_lengthSurveyed_digit_witness :
  ∃ e, anchorLine Sample.smashedRow = Some e
       ∧ Entry.totalLength e = Js.Fin (612061 # 10000)
       ∧ Entry.lengthSurveyed e = Js.Fin 0
       ∧ (Entry.lengthSurveyed e = Js.NaN
          ∨ ∃ d : nat, d ≤ 9 ∧ Entry.lengthSurveyed e = Js.of_Z (Z.of_nat d)).
Proof.
  assert (∃ e, anchorLine Sample.smashedRow = Some e
               ∧ Entry.totalLength e = Js.Fin (612061 # 10000)
               ∧ Entry.lengthSurveyed e = Js.Fin 0) as (e & He & Ht & Hl).
  { eexists. split; [vm_compute; reflexivity|]. split; reflexivity. }
  exists e. split; [exact He|]. split; [exact Ht|]. split; [exact Hl|].
  exact (anchor_lengthSurveyed_digit Sample.smashedRow e (or_introl He)).
Defined.

Lemma uniqueEntries_id (rows : list Entry.t) :
  ∀ seen, NoDup (key <$> rows) → (∀ x, x ∈ rows → key x ∉ seen) →
          uniqueEntries seen rows = rows.
Proof.
  induction rows as [|x rows IH]; intros seen Hnd Hs; [done|].
  cbn [uniqueEntries]. rewrite fmap_cons in Hnd. apply NoDup_cons in Hnd as [Hx Hnd].
  rewrite bool_decide_eq_false_2 by (apply Hs; left). f_equal.
  apply IH; [done|]. intros y Hy.
  rewrite not_elem_of_union, not_elem_of_singleton. split.
  - intros Heq. apply Hx. rewrite <- Heq. by apply list_elem_of_fmap_2.
  - apply Hs. by right.
Qed.

(** The deduplication loop is idempotent: run on its own result, it drops
    nothing more. *)
Theorem dedup_idempotent (rows : list Entry.t) :
  uniqueEntries ∅ (uniqueEntries ∅ rows) = uniqueEntries ∅ rows.
Proof.
  apply uniqueEntries_id; [apply uniqueEntries_NoDup|].
  intros x _. apply not_elem_of_empty.
Qed.

End EntryTexts.

(* ===================================================================== *)
(** ** The region of the Section Profile *)
(* ===================================================================== *)

Section Region.











End Region.

(* ===================================================================== *)
(** ** The two steps of the cross-reference *)
(* ===================================================================== *)

Section CrossReferenceSteps.

Lemma backfillPsr_material (psrData : list Entry.t) (report : Report.t) :
  Report.pipeMaterial (backfillPsr psrData report) = Report.pipeMaterial report.
Proof.
  unfold backfillPsr. destruct (_ && _); [|done].
  by destruct (List.find _ psrData).
Qed.

Lemma falsy_cases (o : option string) :
  Js.truthy o = false ↔ o = None ∨ o = Some "".
Proof.
  destruct o as [[|a s]|]; simpl; split; try done; try (intros [?|?]; done); auto.
Qed.

Lemma backfillMaterial_first (psrData : list Entry.t) (report : Report.t) :
  Js.truthy (Report.pipeMaterial report) = false →
  (∀ p, p ∈ psrData → Entry.psr p ≠ "" ∧ Entry.material p ≠ "") →
  (∀ before p after,
     psrData = (before ++ p :: after)%list →
     Report.psr report = Some (Entry.psr p) →
     (∀ q, q ∈ before → Entry.psr q ≠ Entry.psr p) →
     Report.pipeMaterial (backfillMaterial psrData report) = Some (Entry.material p))
  ∧ ((∀ q, q ∈ psrData → Report.psr report ≠ Some (Entry.psr q)) →
     backfillMaterial psrData report = report).
Proof.
  intros Hmat Hwf. split.
  - intros before p after -> Hpsr Hb.
    assert (p ∈ before ++ p :: after) as Hin by (apply elem_of_app; right; left).
    destruct (Hwf p Hin) as [Hp Hm].
    unfold backfillMaterial. rewrite Hmat, Hpsr, (proj2 (truthy_Some _) Hp).
    cbn [negb andb].
    rewrite (find_first _ before p after).
    + by rewrite (proj2 (truthy_Some _) Hm).
    + by apply same_spec.
    + intros q Hq. apply not_true_is_false. intros Hs%same_spec.
      apply (Hb q Hq). congruence.
  - intros Hnone. unfold backfillMaterial. destruct (_ && _); [|done].
    rewrite find_nowhere; [done|]. intros q Hq. apply not_true_is_false.
    intros Hs%same_spec. by apply (Hnone q Hq).
Qed.

(** The second step of the cross-reference of [parsePDF], for every text:
    a report extracted without pipe material (absent or empty) that ends
    with the PSR of some profile entry, extracted or copied by the first
    step, gets the material of the first entry with this PSR; when no
    entry has its PSR, its pipe material stays as it was. *)
Theorem material_backfill (text : string) (numpages : nat) (data : parsedData) :
  parsePDF (PdfData text numpages) = Success text data →
  ∀ i report,
    extractInspectionReportData text !! i = Some report →
    Report.pipeMaterial report = None ∨ Report.pipeMaterial report = Some "" →
    ∃ report',
      inspectionReports data !! i = Some report'
      ∧ (∀ before p after,
           sectionProfile data = (before ++ p :: after)%list →
           Report.psr report' = Some (Entry.psr p) →
           (∀ q, q ∈ before → Entry.psr q ≠ Entry.psr p) →
           Report.pipeMaterial report' = Some (Entry.material p))
      ∧ ((∀ q, q ∈ sectionProfile data → Report.psr report' ≠ Some (Entry.psr q)) →
         Report.pipeMaterial report' = Report.pipeMaterial report).
Proof.
  intros [= <-]. cbn [inspectionReports sectionProfile].
  intros i report Hi Hmat. rewrite crossReference_lookup, Hi. eexists. split; [done|].
  set (psrData := extractSectionProfileData text).
  set (r1 := backfillPsr psrData report).
  assert (Js.truthy (Report.pipeMaterial r1) = false) as Hm1.
  { unfold r1. rewrite backfillPsr_material. by apply falsy_cases. }
  assert (∀ p, p ∈ psrData → Entry.psr p ≠ "" ∧ Entry.material p ≠ "") as Hwf.
  { intros p Hp. pose proof (profile_wellFormed _ _ Hp) as (_ & [? _] & _ & _ & _ & [? _]).
    done. }
  destruct (backfillMaterial_first psrData r1 Hm1 Hwf) as [Hfirst Hnone].
  rewrite backfillMaterial_psr. split.
  - intros before p after Hcat Hpsr Hb. by eapply Hfirst.
  - intros Hno. rewrite (Hnone Hno). unfold r1. by rewrite backfillPsr_material.
Qed.

Lemma material_backfill_witness :
  ∃ report report',
    extractInspectionReportData Example.materialDocument !! 0 = Some report
    ∧ Report.psr report = None ∧ Report.pipeMaterial report = None
    ∧ crossReference (extractSectionProfileData Example.materialDocument)
        (extractInspectionReportData Example.materialDocument) !! 0 = Some report'
    ∧ Report.psr report' = Some "797"
    ∧ Report.pipeMaterial report' = Some "VCP".
Proof.
  assert (∃ report, extractInspectionReportData Example.materialDocument !! 0 = Some report
                    ∧ Report.psr report = None ∧ Report.pipeMaterial report = None)
    as (report & Hr & Hp & Hm).
  { eexists. split; [vm_compute; reflexivity|]. split; reflexivity. }
  assert (∃ p, extractSectionProfileData Example.materialDocument = [p]
               ∧ Entry.psr p = "797" ∧ Entry.material p = "VCP")
    as (p & Hd & Hpp & Hpm).
  { eexists. split; [vm_compute; reflexivity|]. split; reflexivity. }
  destruct (material_backfill Example.materialDocument 1 _ eq_refl 0 report Hr (or_introl Hm))
    as (report' & Hr' & Hfirst & _).
  cbn [inspectionReports sectionProfile] in Hr', Hfirst.
  assert (Report.psr <$> crossReference (extractSectionProfileData Example.materialDocument)
            (extractInspectionReportData Example.materialDocument) !! 0 = Some (Some "797"))
    as Hpsr by (vm_compute; reflexivity).
  rewrite Hr' in Hpsr. injection Hpsr as Hpsr.
  exists report, report'. split; [exact Hr|]. split; [exact Hp|]. split; [exact Hm|].
  split; [exact Hr'|]. split; [exact Hpsr|].
  rewrite <- Hpm. apply (Hfirst [] p []); [exact Hd|by rewrite Hpp|].
  intros q Hq. apply elem_of_nil in Hq. destruct Hq.
Defined.

Lemma find_ext {A} (f g : A → bool) (l : list A) :
  (∀ x, f x = g x) → List.find f l = List.find g l.
Proof. intros H. induction l as [|x l IH]; simpl; [done|]. by rewrite H, IH. Qed.

Lemma set_psr_same (v : string) (r : Report.t) :
  Report.psr r = Some v → set_psr v r = r.
Proof. destruct r. simpl. by intros ->. Qed.

Lemma backfillPsr_idem (psrData : list Entry.t) (r : Report.t) :
  backfillPsr psrData (backfillPsr psrData r) = backfillPsr psrData r.
Proof.
  unfold backfillPsr at 2 3.
  destruct (negb (Js.truthy (Report.psr r)) && Js.truthy (Report.upstreamMH r)
            && Js.truthy (Report.downstreamMH r)) eqn:Hg.
  - destruct (List.find (matchesReport r) psrData) as [p|] eqn:Hf.
    + unfold backfillPsr.
      replace (Report.upstreamMH (set_psr (Entry.psr p) r)) with (Report.upstreamMH r)
        by done.
      replace (Report.downstreamMH (set_psr (Entry.psr p) r)) with (Report.downstreamMH r)
        by done.
      destruct (negb (Js.truthy (Report.psr (set_psr (Entry.psr p) r))) && _ && _); [|done].
      rewrite (find_ext _ (matchesReport r)) by done. rewrite Hf.
      by apply set_psr_same.
    + unfold backfillPsr. by rewrite Hg, Hf.
  - unfold backfillPsr. by rewrite Hg.
Qed.

Lemma backfillMaterial_idem (psrData : list Entry.t) (r : Report.t) :
  backfillMaterial psrData (backfillMaterial psrData r) = backfillMaterial psrData r.
Proof.
  unfold backfillMaterial at 2 3.
  destruct (negb (Js.truthy (Report.pipeMaterial r)) && Js.truthy (Report.psr r)) eqn:Hg.
  - destruct (List.find _ psrData) as [p|] eqn:Hf.
    + destruct (Js.truthy (Some (Entry.material p))) eqn:Hm.
      * unfold backfillMaterial.
        replace (Report.pipeMaterial (set_pipeMaterial (Entry.material p) r))
          with (Some (Entry.material p)) by done.
        by rewrite Hm.
      * unfold backfillMaterial. by rewrite Hg, Hf, Hm.
    + unfold backfillMaterial. by rewrite Hg, Hf.
  - unfold backfillMaterial. by rewrite Hg.
Qed.

Lemma backfillPsr_congr (psrData : list Entry.t) (r1 r2 : Report.t) :
  Report.psr r1 = Report.psr r2 →
  Report.upstreamMH r1 = Report.upstreamMH r2 →
  Report.downstreamMH r1 = Report.downstreamMH r2 →
  Report.date r1 = Report.date r2 →
  Report.psr (backfillPsr psrData r1) = Report.psr (backfillPsr psrData r2).
Proof.
  intros Hp Hu Hd Ht. unfold backfillPsr. rewrite Hp, Hu, Hd.
  destruct (_ && _); [|done].
  rewrite (find_ext (matchesReport r1) (matchesReport r2))
    by (intros x; unfold matchesReport; by rewrite Hu, Hd, Ht).
  by destruct (List.find _ psrData).
Qed.

Lemma backfillMaterial_congr (psrData : list Entry.t) (r1 r2 : Report.t) :
  Report.psr r1 = Report.psr r2 →
  Report.pipeMaterial r1 = Report.pipeMaterial r2 →
  Report.pipeMaterial (backfillMaterial psrData r1)
  = Report.pipeMaterial (backfillMaterial psrData r2).
Proof.
  intros Hp Hm. unfold backfillMaterial. rewrite Hp, Hm.
  destruct (_ && _); [|done].
  destruct (List.find _ psrData) as [p|]; [|done].
  by destruct (Js.truthy (Some (Entry.material p))).
Qed.

Lemma backfillMaterial_keeps (psrData : list Entry.t) (r : Report.t) :
  Report.upstreamMH (backfillMaterial psrData r) = Report.upstreamMH r
  ∧ Report.downstreamMH (backfillMaterial psrData r) = Report.downstreamMH r
  ∧ Report.date (backfillMaterial psrData r) = Report.date r.
Proof.
  by destruct (backfillMaterial_cases psrData r) as [->|(_ & p & _ & ->)].
Qed.

Lemma withPsrMaterial_twice (a b c d : option string) (r : Report.t) :
  withPsrMaterial a b (withPsrMaterial c d r) = withPsrMaterial a b r.
Proof. reflexivity. Qed.

(** The cross-reference is idempotent: run again on its own result with the
    same profile, for any profile and any reports, it changes no report. *)
Theorem crossReference_idempotent (psrData : list Entry.t) (reports : list Report.t) :
  crossReference psrData (crossReference psrData reports)
  = crossReference psrData reports.
Proof.
  unfold crossReference. rewrite <- list_fmap_compose. apply list_fmap_ext.
  intros _ r _. cbn [compose].
  set (r1 := backfillPsr psrData r). set (r2 := backfillMaterial psrData r1).
  destruct (backfillMaterial_keeps psrData r1) as (Hu & Hd & Ht).
  assert (Report.psr (backfillPsr psrData r2) = Report.psr r2) as HP.
  { rewrite (backfillPsr_congr psrData r2 r1); [|by apply backfillMaterial_psr|done..].
    unfold r1. rewrite backfillPsr_idem. unfold r2. by rewrite backfillMaterial_psr. }
  assert (Report.pipeMaterial (backfillMaterial psrData (backfillPsr psrData r2))
          = Report.pipeMaterial r2) as HM.
  { rewrite (backfillMaterial_congr psrData _ r2);
      [|done|by apply backfillPsr_material].
    unfold r2. by rewrite backfillMaterial_idem. }
  destruct (backfill_frame psrData r2) as [Hf2 _].
  destruct (backfill_frame psrData r) as [Hf _]. fold r1 r2 in Hf.
  rewrite Hf2, backfillMaterial_psr, HP, HM. rewrite Hf at 3.
  rewrite withPsrMaterial_twice. symmetry. exact Hf.
Qed.

End CrossReferenceSteps.

(* ===================================================================== *)
(** ** The inspection reports *)
(* ===================================================================== *)

Section ReportTexts.

Lemma substring2_prefix (s : string) (n : nat) :
  n ≤ String.length s → Js.substring2 s 0 (Z.of_nat n) = substring 0 n s.
Proof.
  intros H. change 0%Z with (Z.of_nat 0). rewrite substring2_inside by lia.
  by rewrite Nat.sub_0_r.
Qed.

(** The ratings window of a report.  For the last section it is the section
    itself.  Otherwise it is the section, a line feed and the first [n]
    characters of the next section, where [n] is at most 2049 (at most 2000
    when the next section has no page marker), and [n] is the index of
    Section Pictures in the next section when that is below 2000: the
    window then stops right before these words. *)
Theorem ratings_window (section : string) (next : option string) :
  match next with
  | None => ratingsSection section None = section
  | Some nextSection =>
      ∃ n, ratingsSection section next
             = section +:+ String Chars.nl "" +:+ substring 0 n nextSection
           ∧ n ≤ String.length nextSection ∧ n ≤ 2049
           ∧ (search ReportPatterns.pageMarker nextSection = None → n ≤ 2000)
           ∧ (∀ i, search ReportPatterns.sectionPictures nextSection = Some i →
                   i < 2000 → n = i)
  end.
Proof.
  destruct next as [nextSection|]; [|done]. unfold ratingsSection.
  set (sp := search ReportPatterns.sectionPictures nextSection).
  set (pm := search ReportPatterns.pageMarker nextSection).
  set (len := String.length nextSection).
  assert (∀ i, sp = Some i → i ≤ len) as Hsp.
  { intros i Hi%search_bound. unfold len. lia. }
  cbv zeta.
  match goal with
  | |- context [Nat.min ?e len] => set (endIdx := e)
  end.
  exists (Nat.min endIdx len). rewrite substring2_prefix by lia.
  split; [done|]. split; [lia|].
  assert (endIdx ≤ 2049 ∧ (pm = None → endIdx ≤ 2000)
          ∧ ∀ i, sp = Some i → i < 2000 → endIdx = i) as (H1 & H2 & H3).
  { unfold endIdx. clear endIdx Hsp. clearbody sp pm.
    destruct sp as [i|]; destruct pm as [j|]; cbn [mbind option_bind];
      try (destruct (i <? 2000) eqn:Hi; [apply Nat.ltb_lt in Hi|apply Nat.ltb_ge in Hi]);
      try (destruct (j <? 2000) eqn:Hj; [apply Nat.ltb_lt in Hj|apply Nat.ltb_ge in Hj]);
      cbv iota beta;
      (split; [lia|]); (split; [intros; (done || lia)|]);
      intros i' Hi' ?; try done; injection Hi' as <-; lia. }
  split; [lia|]. split; [intros Hp; specialize (H2 Hp); lia|].
  intros i Hi Hlt. rewrite (H3 i Hi Hlt). specialize (Hsp i Hi). lia.
Qed.

Lemma digit_not_space (a : ascii) : Chars.is_digit a = true → Chars.is_space a = false.
Proof. destruct a as [[] [] [] [] [] [] [] []]; intros H; try discriminate H; reflexivity. Qed.

Lemma read_sign_digit (a : ascii) (s : string) :
  Chars.is_digit a = true → Js.read_sign (String a s) = (false, String a s).
Proof. destruct a as [[] [] [] [] [] [] [] []]; intros H; try discriminate H; reflexivity. Qed.

Lemma digit_val_digit (a : ascii) :
  Chars.is_digit a = true → ∃ d, (0 ≤ d)%Z ∧ Js.digit_val a = Some d.
Proof.
  intros H. unfold Js.digit_val. rewrite H. eexists. split; [|done]. lia.
Qed.

Lemma read_digits_all (s : string) :
  all Chars.is_digit s = true →
  ∀ acc n, (0 ≤ acc)%Z →
    ∃ v, (0 ≤ v)%Z
         ∧ Js.read_digits Js.digit_val 10 acc n s = (v, n + String.length s, "").
Proof.
  induction s as [|a s IH]; intros Hs acc n Hacc.
  - exists acc. simpl. split; [done|]. by rewrite Nat.add_0_r.
  - cbn [all] in Hs. apply andb_true_iff in Hs as [Ha Hs].
    destruct (digit_val_digit a Ha) as (d & Hd & Hv).
    cbn [Js.read_digits]. rewrite Hv.
    destruct (IH Hs (acc * 10 + d)%Z (S n) ltac:(lia)) as (v & Hv0 & ->).
    exists v. split; [done|]. simpl. do 2 f_equal. lia.
Qed.

Lemma radix_decimal (s : string) :
  all Chars.is_digit s = true →
  match s with
  | String "0" (String "x" s') | String "0" (String "X" s') => (Js.hex_val, 16%Z, s')
  | _ => (Js.digit_val, 10%Z, s)
  end = (Js.digit_val, 10%Z, s).
Proof.
  destruct s as [|a [|b s]]; [done| |].
  - intros _. destruct a as [[] [] [] [] [] [] [] []]; reflexivity.
  - cbn [all]. intros [Ha [Hb _]%andb_true_iff]%andb_true_iff.
    destruct a as [[] [] [] [] [] [] [] []]; try reflexivity.
    destruct b as [[] [] [] [] [] [] [] []]; try reflexivity; discriminate Hb.
Qed.

Lemma number_value_count (z : Z) : (0 ≤ z)%Z → countNumber (Js.number_value z).
Proof.
  intros Hz. unfold Js.number_value. cbv zeta.
  destruct (Z.abs z <? 2 ^ 53)%Z.
  { right. exists (Z.to_nat z). by rewrite Z2Nat.id. }
  set (e := (Z.log2 (Z.abs z) - 52)%Z).
  set (m := (Z.abs z / 2 ^ e)%Z).
  set (m' := if (_ <? _)%Z then m else _).
  assert (0 ≤ 2 ^ e)%Z as He by (apply Z.pow_nonneg; lia).
  assert (0 ≤ m)%Z as Hm by (apply Z_div_nonneg_nonneg; lia).
  assert (0 ≤ m')%Z as Hm'.
  { subst m'. repeat match goal with |- context [if ?b then _ else _] => destruct b end; lia. }
  destruct (2 ^ 1024 <=? m' * 2 ^ e)%Z.
  - left. destruct (z <? 0)%Z eqn:E; [apply Z.ltb_lt in E; lia|done].
  - right. exists (Z.to_nat (Z.sgn z * (m' * 2 ^ e))). rewrite Z2Nat.id; [done|].
    apply Z.mul_nonneg_nonneg; [|by apply Z.mul_nonneg_nonneg].
    by apply Z.sgn_nonneg.
Qed.

Lemma parseInt_digits (s : string) : digits s → countNumber (Js.parseInt s).
Proof.
  intros [Hne Hs]. destruct s as [|a s]; [done|].
  pose proof Hs as Hs'. cbn [all] in Hs'. apply andb_true_iff in Hs' as [Ha _].
  unfold Js.parseInt. cbn [Js.trimStart]. rewrite (digit_not_space a Ha).
  rewrite (read_sign_digit a s Ha). rewrite (radix_decimal _ Hs).
  destruct (read_digits_all _ Hs 0%Z 0 ltac:(lia)) as (v & Hv & ->).
  cbn [Nat.add String.length Nat.eqb]. unfold Js.signed.
  by apply number_value_count.
Qed.

Lemma intField_count (r : regex) (s : string) :
  (1, plus digit) ∈ captured r → when countNumber (intField r s).
Proof.
  intros Hin n Hn. unfold intField in Hn. apply fmap_Some in Hn as (t & Ht & ->).
  apply parseInt_digits. eapply text_of_plus, field_text; [exact Ht|exact Hin].
Qed.

Lemma text_of_counter (t : string) :
  text_of (seq [times 2 2 digit; chr ":"; times 2 2 digit; chr ":"; times 2 2 digit]) t →
  counterText t.
Proof.
  cbn [seq].
  intros (h & t1 & -> & Hh & (s1 & t2 & -> & Hs1 & (m & t3 & -> & Hm & (s2 & y & -> & Hs2 & Hy)))).
  apply text_of_chr in Hs1 as ->. apply text_of_chr in Hs2 as ->.
  apply text_of_rep_cls in Hh as (Hh1 & Hh2 & Hh3).
  apply text_of_rep_cls in Hm as (Hm1 & Hm2 & Hm3).
  apply text_of_rep_cls in Hy as (Hy1 & Hy2 & Hy3).
  specialize (Hh3 _ eq_refl). specialize (Hm3 _ eq_refl). specialize (Hy3 _ eq_refl).
  simpl in Hh2, Hm2, Hy2.
  exists h, m, y. split; [done|]. repeat apply conj; (done || lia).
Qed.

Lemma extractObservations_wellFormed (section : string) :
  Forall observationWellFormed (extractObservations section).
Proof.
  unfold extractObservations. apply Forall_fmap.
  pose proof (match_all_fits ReportPatterns.obsPattern section) as Hg.
  eapply Forall_impl; [exact Hg|]. intros m [_ Hc].
  destruct (Hc 2 (plus upper)) as (u2 & Hu2 & Hs2); [in_captured|].
  destruct (Hc 4 (seq [times 2 2 digit; chr ":"; times 2 2 digit; chr ":";
                       times 2 2 digit])) as (u4 & Hu4 & Hs4); [in_captured|].
  unfold observationWellFormed, compose. cbn [Observation.code Observation.counter].
  rewrite (capture_Some _ _ _ Hu2), (capture_Some _ _ _ Hu4).
  split; [by apply text_of_plus in Hs2|by apply text_of_counter].
Qed.

Lemma extractRatings_qor (window : string) :
  when countNumber (r_qor (extractRatings window)).
Proof.
  unfold extractRatings.
  assert (when countNumber
            (intField (ReportPatterns.rating "QOR" (plus digit)) window)) as H1.
  { apply intField_count. in_captured. }
  assert (when countNumber (intField ReportPatterns.qorBare window)) as H2.
  { apply intField_count. in_captured. }
  destruct (exec _ window); [done|].
  by destruct (concatenatedRatings window).
Qed.

Lemma extractReport_wellFormed (section : string) (next : option string) :
  reportWellFormed (extractReport section next).
Proof.
  unfold reportWellFormed, extractReport.
  cbn [Report.psr Report.date Report.upstreamMH Report.downstreamMH
       Report.certificateNumber Report.jointsPassed Report.jointsFailed Report.qor
       Report.observations].
  repeat apply conj.
  - intros s H. apply bind_Some in H as (m & Hm & Hg).
    assert (∃ r, exec r section = Some m ∧ (1, plus digit) ∈ captured r) as (r & Hr & Hin).
    { apply orElse_Some in Hm as [Hm|Hm]; [|apply orElse_Some in Hm as [Hm|Hm];
        [|apply orElse_Some in Hm as [Hm|Hm]]]; eexists; (split; [exact Hm|]);
        in_captured. }
    eapply text_of_plus, exec_group_text; [exact Hr|exact Hg|exact Hin].
  - intros s H. apply bind_Some in H as (m & Hm & Hg).
    assert (∃ r, exec r section = Some m ∧ (1, Patterns.date) ∈ captured r)
      as (r & Hr & Hin).
    { apply orElse_Some in Hm as [Hm|Hm]; eexists; (split; [exact Hm|]); in_captured. }
    eapply text_of_date, exec_group_text; [exact Hr|exact Hg|exact Hin].
  - intros s H. eapply text_of_plus, field_text; [exact H|in_captured].
  - intros s H. eapply text_of_plus, field_text; [exact H|in_captured].
  - intros s H. eapply text_of_plus, field_text; [exact H|in_captured].
  - apply intField_count. in_captured.
  - apply intField_count. in_captured.
  - apply extractRatings_qor.
  - pose proof (extractObservations_wellFormed section) as Ho.
    intros l Hl. destruct (extractObservations section) as [|o os]; [done|].
    injection Hl as <-. done.
Qed.

(** Every report in the result of [parsePDF], for any text: its PSR,
    extracted or copied from the profile, is a run of decimal digits; its
    date has the form m/d/yyyy; its manhole IDs and certificate number are
    made of word characters and dashes; [jointsPassed], [jointsFailed] and
    [qor] are never NaN and never negative, each being a natural number
    or, when the digits it is read from exceed the range of doubles (309
    digits or more), Infinity; and its list of observations, when it has
    one, is not empty, each observation having a code of capital letters
    and a counter of the form hh:mm:ss. *)
Theorem reports_well_formed (text : string) (numpages : nat) (data : parsedData)
        (report : Report.t) :
  parsePDF (PdfData text numpages) = Success text data →
  report ∈ inspectionReports data → reportWellFormed report.
Proof.
  intros [= <-]. cbn [inspectionReports]. unfold crossReference.
  intros (r & -> & Hr)%list_elem_of_fmap.
  apply elem_of_reportsOf in Hr as (section & next & ->).
  pose proof (extractReport_wellFormed section next) as Hwf.
  set (r := extractReport section next) in *.
  destruct (backfill_frame (extractSectionProfileData text) r) as (Hf & _ & _ & Hp & _).
  set (r' := backfillMaterial _ _) in *.
  destruct Hwf as (H1 & H2 & H3 & H4 & H5 & H6 & H7 & H8 & H9).
  rewrite Hf. unfold reportWellFormed.
  cbn [withPsrMaterial Report.psr Report.date Report.upstreamMH Report.downstreamMH
       Report.certificateNumber Report.jointsPassed Report.jointsFailed Report.qor
       Report.observations].
  split; [|done].
  destruct Hp as [->|(p & Hin & ->)]; [done|].
  intros s [= <-]. by apply profile_wellFormed in Hin as (_ & ? & _).
Qed.

Lemma reports_well_formed_witness :
  ∃ report, crossReference (extractSectionProfileData Sample.document)
              (extractInspectionReportData Sample.document) = [report]
            ∧ Report.psr report = Some "797" ∧ reportWellFormed report.
Proof.
  assert (∃ report, crossReference (extractSectionProfileData Sample.document)
                      (extractInspectionReportData Sample.document) = [report]
                    ∧ Report.psr report = Some "797") as (report & Hr & Hp).
  { eexists. split; [vm_compute; reflexivity|reflexivity]. }
  exists report. split; [exact Hr|]. split; [exact Hp|].
  apply (reports_well_formed Sample.document 1 _ report eq_refl).
  cbn [inspectionReports]. rewrite Hr. left.
Defined.




Lemma decimals_tokens (numbersLine : string) :
  Forall (fun t => ∃ a b, a < 10 ∧ b < 10 ∧ t = token a b) (decimals numbersLine).
Proof.
  unfold decimals. apply Forall_fmap.
  eapply Forall_impl; [apply match_all_fits|]. intros m [Hs _]. unfold compose.
  unfold ReportPatterns.decimal in Hs. cbn [seq] in Hs.
  destruct Hs as (t1 & t' & -> & H1 & (t2 & t3 & -> & H2 & H3)).
  apply text_of_chr in H2 as ->. apply text_of_digit in H1 as (a & Ha & ->).
  apply text_of_digit in H3 as (b & Hb & ->). by exists a, b.
Qed.

(** In the concatenated ratings layout the six decimal ratings (SPR, MPR,
    SPRI, MPRI, OPRI and OPR) are each read from a token digit-dot-digit:
    each is a number a + b/10 with digits a and b, from 0 to 9.9 and never
    NaN. *)
Theorem concatenated_decimals (window : string) (r : ratings) :
  concatenatedRatings window = Some r →
  Forall (fun x => ∃ a b, a < 10 ∧ b < 10
                          ∧ x = Some (Js.Fin (Qred (Z.of_nat (10 * a + b) # 10))))
         [r_spr r; r_mpr r; r_spri r; r_mpri r; r_opri r; r_opr r].
Proof.
  unfold concatenatedRatings. intros H. apply bind_Some in H as (v & Hv & H).
  pose proof (decimals_tokens v) as Ht.
  destruct (decimals v) as [|t0 [|t1 [|t2 [|t3 [|t4 [|t5 more]]]]]]; try done.
  destruct (_ && _); [|done]. injection H as <-.
  cbn [r_spr r_mpr r_spri r_mpri r_opri r_opr].
  assert (∀ t, (∃ a b, a < 10 ∧ b < 10 ∧ t = token a b) →
            ∃ a b, a < 10 ∧ b < 10
                   ∧ Some (Js.parseFloat t)
                     = Some (Js.Fin (Qred (Z.of_nat (10 * a + b) # 10)))) as Hstep.
  { intros t (a & b & Ha & Hb & ->). exists a, b. by rewrite parseFloat_token. }
  apply Forall_cons in Ht as [H0 Ht]. apply Forall_cons in Ht as [H1 Ht].
  apply Forall_cons in Ht as [H2 Ht]. apply Forall_cons in Ht as [H3 Ht].
  apply Forall_cons in Ht as [H4 Ht]. apply Forall_cons in Ht as [H5 Ht].
  repeat (apply Forall_cons; split; [by apply Hstep|]). constructor.
Qed.

Lemma concatenated_decimals_witness :
  Forall (fun x => ∃ a b, a < 10 ∧ b < 10
                          ∧ x = Some (Js.Fin (Qred (Z.of_nat (10 * a + b) # 10))))
         [Some (Js.Fin 1); Some (Js.Fin 3); Some (Js.Fin 1); Some (Js.Fin 3);
          Some (Js.Fin 2); Some (Js.Fin 4)].
Proof.
  destruct (concatenatedRatings Sample.concatenatedWindow) as [r|] eqn:Hr;
    [|by vm_compute in Hr].
  pose proof (concatenated_decimals _ r Hr) as H.
  vm_compute in Hr. injection Hr as <-. exact H.
Defined.

End ReportTexts.

(* ===================================================================== *)
(** ** The position-aware parser *)
(* ===================================================================== *)

Section PositioningTexts.

(** The two parsers split the run of digits before the first manhole ID the
    same way up to 7 digits, and differently from 8 digits on: the PSR is
    then the last 3 digits of the run in [pdfParser.js] and the last 4 in
    [check-position.js], the sequence number the digits before them; the
    run 12345678 gives 12345 and 678 in the first, 1234 and 5678 in the
    second. *)
Theorem split_tables (allDigits : string) :
  (String.length allDigits ≤ 7 →
   Positioning.splitDigits allDigits
   = (let '(no, psr) := splitNoPsr allDigits in pair no <$> psr))
  ∧ (8 ≤ String.length allDigits →
     ∃ no psr no' psr',
       splitNoPsr allDigits = (no, Some psr)
       ∧ Positioning.splitDigits allDigits = Some (no', psr')
       ∧ allDigits = no +:+ psr ∧ String.length psr = 3
       ∧ allDigits = no' +:+ psr' ∧ String.length psr' = 4)
  ∧ splitNoPsr "12345678" = ("12345", Some "678")
  ∧ Positioning.splitDigits "12345678" = Some ("1234", "5678").
Proof.
  unfold Positioning.splitDigits, splitNoPsr, Js.len, Js.substring1.
  set (n := String.length allDigits). split; [|split; [|by vm_compute]].
  - intros Hn.
    destruct (n <=? 3) eqn:E3.
    { apply Nat.leb_le in E3.
      destruct (n =? 4) eqn:E4; [apply Nat.eqb_eq in E4; lia|].
      destruct (n =? 5) eqn:E5; [apply Nat.eqb_eq in E5; lia|].
      destruct (n =? 6) eqn:E6; [apply Nat.eqb_eq in E6; lia|].
      destruct (7 <=? n) eqn:E7; [apply Nat.leb_le in E7; lia|]. done. }
    destruct (n =? 4) eqn:E4; [apply Nat.eqb_eq in E4; by rewrite E4|].
    destruct (n =? 5) eqn:E5; [apply Nat.eqb_eq in E5; by rewrite E5|].
    destruct (n =? 6) eqn:E6; [apply Nat.eqb_eq in E6; by rewrite E6|].
    apply Nat.leb_gt in E3. apply Nat.eqb_neq in E4, E5, E6.
    assert (n = 7) as E7 by lia. rewrite E7. done.
  - intros Hn.
    destruct (n <=? 3) eqn:E3; [apply Nat.leb_le in E3; lia|].
    destruct (n =? 4) eqn:E4; [apply Nat.eqb_eq in E4; lia|].
    destruct (n =? 5) eqn:E5; [apply Nat.eqb_eq in E5; lia|].
    destruct (n =? 6) eqn:E6; [apply Nat.eqb_eq in E6; lia|].
    destruct (n =? 7) eqn:E7; [apply Nat.eqb_eq in E7; lia|].
    destruct (7 <=? n) eqn:E8; [|apply Nat.leb_gt in E8; lia].
    eexists _, _, _, _. split; [done|]. split; [done|].
    destruct (cut_at allDigits (n - 3)) as (Hc3 & _ & H3); [lia|].
    destruct (cut_at allDigits (n - 4)) as (Hc4 & _ & H4); [lia|].
    unfold Js.substring1 in Hc3, Hc4, H3, H4. fold n in H3, H4.
    replace (Z.of_nat n - 3)%Z with (Z.of_nat (n - 3)) by lia.
    replace (Z.of_nat n - 4)%Z with (Z.of_nat (n - 4)) by lia.
    rewrite H3, H4. split; [exact Hc3|]. split; [lia|]. split; [exact Hc4|lia].
Qed.

Lemma spacedLine_wellFormed (line : string) (m : mres) :
  exec Positioning.spacedLine line = Some m → wellFormed (spacedEntry m).
Proof.
  intros [_ Hc]%exec_fits.
  destruct (Hc 1 (plus digit)) as (u1 & Hu1 & Hs1); [in_captured|].
  destruct (Hc 2 (plus digit)) as (u2 & Hu2 & Hs2); [in_captured|].
  destruct (Hc 3 Positioning.manhole) as (u3 & Hu3 & Hs3); [in_captured|].
  destruct (Hc 4 Positioning.manhole) as (u4 & Hu4 & Hs4); [in_captured|].
  destruct (Hc 5 Patterns.date) as (u5 & Hu5 & Hs5); [in_captured|].
  destruct (Hc 6 (plus upper)) as (u6 & Hu6 & Hs6); [in_captured|].
  unfold wellFormed, spacedEntry. cbn [Entry.no Entry.psr Entry.upstreamMH
    Entry.downstreamMH Entry.date Entry.material].
  rewrite (capture_Some _ _ _ Hu1), (capture_Some _ _ _ Hu2), (capture_Some _ _ _ Hu3),
    (capture_Some _ _ _ Hu4), (capture_Some _ _ _ Hu5), (capture_Some _ _ _ Hu6).
  apply text_of_plus in Hs1, Hs2, Hs3, Hs4, Hs6. apply text_of_date in Hs5.
  repeat apply conj; tauto.
Qed.

Lemma splitDigits_digits (d no psr : string) :
  digits d → Positioning.splitDigits d = Some (no, psr) → digits no ∧ digits psr.
Proof.
  intros [_ Hd] Hs. unfold Positioning.splitDigits, Js.len in Hs.
  set (n := String.length d) in *.
  assert (∃ a : nat, 1 ≤ a ∧ a + 3 ≤ n
                     ∧ no = Js.substring2 d 0 (Z.of_nat a)
                     ∧ psr = Js.substring1 d (Z.of_nat a)) as (a & Ha1 & Ha2 & -> & ->).
  { destruct (n =? 4) eqn:E4; [apply Nat.eqb_eq in E4; injection Hs as <- <-; exists 1; by (split; [lia|split; [lia|]])|].
    destruct (n =? 5) eqn:E5; [apply Nat.eqb_eq in E5; injection Hs as <- <-; exists 2; by (split; [lia|split; [lia|]])|].
    destruct (n =? 6) eqn:E6; [apply Nat.eqb_eq in E6; injection Hs as <- <-; exists 3; by (split; [lia|split; [lia|]])|].
    destruct (7 <=? n) eqn:E7; [|done]. apply Nat.leb_le in E7. injection Hs as <- <-.
    exists (n - 4). split; [lia|]. split; [lia|].
    by replace (Z.of_nat (n - 4)) with (Z.of_nat n - 4)%Z by lia. }
  destruct (cut_at d a) as (Hcat & Hl1 & Hl2); [unfold n in *; lia|].
  rewrite Hcat, all_append, andb_true_iff in Hd. destruct Hd as [H1 H2].
  fold n in Hl2.
  split; (split; [apply length_nonempty; lia|done]).
Qed.

Lemma fallbackLine_wellFormed (line : string) (e : Entry.t) :
  Positioning.fallbackLine line = Some e → wellFormed e.
Proof.
  unfold Positioning.fallbackLine. intros He.
  destruct (anchors line) as [[up down]|] eqn:Ha; [|done]. simpl in He.
  destruct (exec Patterns.allDigits _) as [dm|] eqn:Hd; [|done]. simpl in He.
  destruct (Positioning.splitDigits _) as [[no psr]|] eqn:Hs; [|done]. simpl in He.
  destruct (restMatch line down) as [rm|] eqn:Hr; [|done]. simpl in He.
  injection He as <-.
  apply anchors_text in Ha as [[Hu _]%text_of_mhPattern [Hd' _]%text_of_mhPattern].
  apply exec_fits in Hd as [_ Hc].
  destruct (Hc 1 (plus digit)) as (u & Hu1 & Hs1); [in_captured|].
  rewrite (capture_Some _ _ _ Hu1) in Hs. apply text_of_plus in Hs1.
  destruct (splitDigits_digits _ _ _ Hs1 Hs) as [Hno Hpsr].
  unfold restMatch in Hr. apply rest_captures in Hr as [Hdt Hm].
  exact (conj Hno (conj Hpsr (conj Hu (conj Hd' (conj Hdt Hm))))).
Qed.

Lemma positioning_entries (text : string) (e : Entry.t) :
  e ∈ Positioning.extractSectionProfileFromText text → wellFormed e.
Proof.
  unfold Positioning.extractSectionProfileFromText.
  destruct (exec Positioning.sectionPattern text) as [m|]; [|by intros ?%elem_of_nil].
  intros (line & _ & He)%list_elem_of_omap. unfold Positioning.lineEntry in He.
  destruct (Positioning.skippedLine line); [done|].
  destruct (exec Positioning.spacedLine line) as [sm|] eqn:Hs.
  - injection He as <-. by eapply spacedLine_wellFormed.
  - by eapply fallbackLine_wellFormed.
Qed.

Lemma elem_of_reportsFrom (reportSections : list string) (report : Report.t) :
  report ∈ Positioning.reportsFrom reportSections →
  ∃ section next, report = Positioning.reportOf section next.
Proof.
  induction reportSections as [|section following IH]; cbn [Positioning.reportsFrom].
  - by intros ?%elem_of_nil.
  - intros [Hin|Hin]%elem_of_app; [|by apply IH].
    destruct (Report.hasKeys _); [|by apply elem_of_nil in Hin].
    apply list_elem_of_singleton in Hin. eauto.
Qed.

Lemma reportOf_wellFormed (section : string) (next : option string) :
  reportWellFormed (Positioning.reportOf section next).
Proof.
  unfold reportWellFormed, Positioning.reportOf.
  cbn [Report.psr Report.date Report.upstreamMH Report.downstreamMH
       Report.certificateNumber Report.jointsPassed Report.jointsFailed Report.qor
       Report.observations].
  repeat apply conj.
  - intros s H. apply bind_Some in H as (m & Hm & Hg).
    assert (∃ r, exec r section = Some m ∧ (1, plus digit) ∈ captured r) as (r & Hr & Hin).
    { apply orElse_Some in Hm as [Hm|Hm]; [|apply orElse_Some in Hm as [Hm|Hm]];
        eexists; (split; [exact Hm|]); in_captured. }
    eapply text_of_plus, exec_group_text; [exact Hr|exact Hg|exact Hin].
  - intros s H. eapply text_of_date, field_text; [exact H|in_captured].
  - intros s H. eapply text_of_plus, field_text; [exact H|in_captured].
  - intros s H. eapply text_of_plus, field_text; [exact H|in_captured].
  - intros s H. eapply text_of_plus, field_text; [exact H|in_captured].
  - done.
  - done.
  - apply intField_count. in_captured.
  - pose proof (extractObservations_wellFormed section) as Ho.
    intros l Hl. destruct (extractObservations section) as [|o os]; [done|].
    injection Hl as <-. done.
Qed.

(** The entries and the reports that the position-aware parser extracts
    from any text have the same shapes as those of [pdfParser.js]: digits
    for sequence number and PSR, m/d/yyyy dates, capital letters for the
    material, and reports as in [reportWellFormed] (a PSR of digits, joint
    counts and QOR that are natural numbers or Infinity and never NaN,
    observations that are not empty when present). *)
Theorem positioning_well_formed (rawText : string) :
  (∀ e, e ∈ Positioning.extractSectionProfileFromText rawText → wellFormed e)
  ∧ (∀ r, r ∈ Positioning.extractInspectionReportsFromText rawText →
          reportWellFormed r).
Proof.
  split; [apply positioning_entries|].
  intros r (section & next & ->)%elem_of_reportsFrom. apply reportOf_wellFormed.
Qed.

Lemma positioning_well_formed_witness :
  ∃ e, Positioning.extractSectionProfileFromText Sample.document = [e]
       ∧ Entry.psr e = "797" ∧ wellFormed e.
Proof.
  assert (∃ e, Positioning.extractSectionProfileFromText Sample.document = [e]
               ∧ Entry.psr e = "797") as (e & He & Hp).
  { eexists. split; [vm_compute; reflexivity|reflexivity]. }
  exists e. split; [exact He|]. split; [exact Hp|].
  apply (proj1 (positioning_well_formed Sample.document)). rewrite He. left.
Defined.

End PositioningTexts.

(* ===================================================================== *)
(** ** The counters of the statistics *)
(* ===================================================================== *)

Section Counts.

Lemma count_lookup (k k' : string) (m : gmap string nat) :
  count k m !! k' = if decide (k = k') then Some (default 0 (m !! k) + 1) else m !! k'.
Proof.
  unfold count. destruct (decide (k = k')) as [->|Hne].
  - by rewrite lookup_insert_eq.
  - by rewrite lookup_insert_ne.
Qed.

Lemma tally_lookup {A} (f : A → string) (l : list A) (k : string) :
  ∀ acc : gmap string nat,
    (∀ v, acc !! k = Some v → 0 < v) →
    foldl (fun m x => count (f x) m) acc l !! k
    = occurrences (default 0 (acc !! k) + length (filter (fun x => f x = k) l)).
Proof.
  induction l as [|x l IH]; intros acc Hpos.
  - simpl. rewrite Nat.add_0_r. unfold occurrences.
    destruct (acc !! k) as [v|] eqn:Hv; simpl; [|done].
    specialize (Hpos v eq_refl). destruct v; [lia|done].
  - cbn [foldl]. rewrite IH.
    + f_equal. rewrite count_lookup, filter_cons.
      destruct (decide (f x = k)) as [->|Hne]; simpl; lia.
    + intros v. rewrite count_lookup. destruct (decide (f x = k)); [|by apply Hpos].
      intros [= <-]. lia.
Qed.

Lemma tally_nested (g : gmap string nat → Observation.t → gmap string nat)
      (reports : list Report.t) :
  ∀ acc,
    foldl (fun m report => foldl g m (default [] (Report.observations report)))
          acc reports
    = foldl g acc (allObservations reports).
Proof.
  induction reports as [|r l IH]; intros acc; [done|].
  cbn [foldl]. rewrite IH. unfold allObservations. cbn [mbind list_bind].
  by rewrite foldl_app.
Qed.

Lemma countObservations_length (reports : list Report.t) :
  countObservations reports = length (allObservations reports).
Proof.
  unfold countObservations.
  assert (∀ acc, foldl (fun sum r => sum + match Report.observations r with
                                          | Some obs => length obs
                                          | None => 0
                                          end) acc reports
                 = acc + length (allObservations reports)) as H; [|by rewrite H].
  induction reports as [|r l IH]; intros acc; simpl; [lia|].
  rewrite IH. unfold allObservations. cbn [mbind list_bind]. rewrite length_app.
  destruct (Report.observations r); simpl; lia.
Qed.

(** The counters of [calculateStatistics] on the result of [parsePDF], for
    any text: [materials] gives for every material the number of profile
    entries that have it, [observationCodes] gives for every code the
    number of observations with it over all reports (a material or code
    that does not occur is absent), and [totalObservations] of the
    metadata is the number of these observations.  (The keys are runs of
    capital letters, so none is a property that the counter objects
    inherit.) *)
Theorem statistics_counts (text : string) (numpages : nat) (data : parsedData) :
  parsePDF (PdfData text numpages) = Success text data →
  let stats := calculateStatistics (sectionProfile data) (inspectionReports data) in
  (∀ m, materials stats !! m
        = occurrences (length (filter (fun p => Entry.material p = m)
                                      (sectionProfile data))))
  ∧ (∀ c, observationCodes stats !! c
          = occurrences (length (filter (fun o => Observation.code o = c)
                                        (allObservations (inspectionReports data)))))
  ∧ totalObservations (meta data) = length (allObservations (inspectionReports data)).
Proof.
  intros [= <-]. cbn [sectionProfile inspectionReports meta totalObservations].
  unfold calculateStatistics. cbn [materials observationCodes].
  split; [|split].
  - intros m. rewrite tally_lookup; [by rewrite lookup_empty|].
    intros v. by rewrite lookup_empty.
  - intros c.
    rewrite (tally_nested (fun m obs => count (Observation.code obs) m)).
    rewrite tally_lookup; [by rewrite lookup_empty|].
    intros v. by rewrite lookup_empty.
  - apply countObservations_length.
Qed.

Lemma statistics_counts_witness :
  let stats := calculateStatistics (extractSectionProfileData Sample.document)
                 (crossReference (extractSectionProfileData Sample.document)
                    (extractInspectionReportData Sample.document)) in
  materials stats !! "VCP" = Some 1 ∧ observationCodes stats !! "MWL" = Some 1.
Proof.
  destruct (statistics_counts Sample.document 1 _ eq_refl) as (Hm & Hc & _).
  cbn [sectionProfile inspectionReports] in Hm, Hc. cbv zeta.
  rewrite Hm, Hc. split; by vm_compute.
Defined.

End Counts.

(* ===================================================================== *)
(** ** Condition labels *)
(* ===================================================================== *)

Section Labels.

(** The label of the table of inspection reports (frontend) against the
    label of the statistics (backend): they are the same for every OPRI
    that is truthy.  For an OPRI of 0 the table shows N/A where the
    statistics say Excellent, for NaN it shows N/A where they say Very
    Poor, and a report without OPRI is N/A in the table (and has no score
    in the statistics). *)
Theorem table_labels (n : Js.number) :
  (Js.truthy_num n = true → Table.getConditionLabel (Some n) = getConditionLabel n)
  ∧ (Js.truthy_num n = false →
     Table.getConditionLabel (Some n) = "N/A"
     ∧ (n = Js.NaN ∧ getConditionLabel n = "Very Poor"
        ∨ (∃ q, n = Js.Fin q ∧ (q == 0)%Q) ∧ getConditionLabel n = "Excellent"))
  ∧ Table.getConditionLabel None = "N/A".
Proof.
  split; [|split; [|done]].
  - intros Ht. unfold Table.getConditionLabel, Table.falsy, Table.below, getConditionLabel.
    rewrite Ht. done.
  - intros Hf. unfold Table.getConditionLabel, Table.falsy. rewrite Hf. split; [done|].
    destruct n as [|q| |]; try discriminate Hf.
    + by left.
    + right. simpl in Hf. apply negb_false_iff, Qeq_bool_iff in Hf.
      split; [by exists q|]. unfold getConditionLabel, Js.le.
      destruct (Qle_bool q 1.5) eqn:H1; [done|]. apply Qle_bool_false in H1.
      rewrite Hf in H1. by vm_compute in H1.
Qed.

Lemma table_labels_witness :
  Table.getConditionLabel (Some (Js.Fin 2)) = "Good"
  ∧ Table.getConditionLabel (Some (Js.Fin 0)) = "N/A".
Proof.
  split.
  - rewrite (proj1 (table_labels (Js.Fin 2)) eq_refl). reflexivity.
  - exact (proj1 (proj1 (proj2 (table_labels (Js.Fin 0))) eq_refl)).
Defined.

Lemma severity_band (x : Q) :
  ∃ s, severity (getConditionLabel (Js.Fin x)) = s
       ∧ ((s = 0 ∧ (x <= 1.5)%Q) ∨ (s = 1 ∧ (1.5 < x)%Q ∧ (x <= 2.5)%Q)
          ∨ (s = 2 ∧ (2.5 < x)%Q ∧ (x <= 3.5)%Q)
          ∨ (s = 3 ∧ (3.5 < x)%Q ∧ (x <= 4.5)%Q)
          ∨ (s = 4 ∧ (4.5 < x)%Q)).
Proof.
  unfold getConditionLabel, Js.le.
  destruct (Qle_bool x 1.5) eqn:H1;
    [apply Qle_bool_iff in H1; exists 0; split; [done|tauto]|apply Qle_bool_false in H1].
  destruct (Qle_bool x 2.5) eqn:H2;
    [apply Qle_bool_iff in H2; exists 1; split; [done|tauto]|apply Qle_bool_false in H2].
  destruct (Qle_bool x 3.5) eqn:H3;
    [apply Qle_bool_iff in H3; exists 2; split; [done|tauto]|apply Qle_bool_false in H3].
  destruct (Qle_bool x 4.5) eqn:H4;
    [apply Qle_bool_iff in H4; exists 3; split; [done|tauto]|apply Qle_bool_false in H4].
  exists 4. split; [done|tauto].
Qed.

(** [getConditionLabel] is monotone: a greater index never gets a better
    label. *)
Theorem labels_monotone (v w : Q) :
  (v <= w)%Q →
  severity (getConditionLabel (Js.Fin v)) ≤ severity (getConditionLabel (Js.Fin w)).
Proof.
  intros Hvw.
  destruct (severity_band v) as (s & -> & Hs). destruct (severity_band w) as (t & -> & Ht).
  destruct Hs as [[-> ?]|[(-> & ? & ?)|[(-> & ? & ?)|[(-> & ? & ?)|[-> ?]]]]];
    destruct Ht as [[-> ?]|[(-> & ? & ?)|[(-> & ? & ?)|[(-> & ? & ?)|[-> ?]]]]];
    first [lia | exfalso; lra].
Qed.

Lemma labels_monotone_witness :
  severity (getConditionLabel (Js.Fin 1.5)) ≤ severity (getConditionLabel (Js.Fin 1.6)).
Proof. apply labels_monotone. by vm_compute. Defined.

End Labels.

(* ===================================================================== *)
(** ** The search of entries *)
(* ===================================================================== *)

Section Search.

Lemma narrow_sublist param test results :
  sublist (Server.narrow param test results) results.
Proof.
  unfold Server.narrow. destruct param as [v|]; [|done].
  destruct (Js.truthy _); [apply sublist_filter|done].
Qed.

Lemma le_NaN_r (x : Js.number) : Js.le x Js.NaN = false.
Proof. by destruct x. Qed.

Lemma narrow_nil param test : Server.narrow param test [] = [].
Proof. unfold Server.narrow. destruct param; [|done]. by destruct (Js.truthy _). Qed.

Lemma to_lower_idem (a : ascii) : Server.to_lower (Server.to_lower a) = Server.to_lower a.
Proof. destruct a as [[] [] [] [] [] [] [] []]; reflexivity. Qed.

Lemma toLowerCase_idem (s : string) :
  Server.toLowerCase (Server.toLowerCase s) = Server.toLowerCase s.
Proof. induction s as [|a s IH]; simpl; [done|]. by rewrite to_lower_idem, IH. Qed.

Lemma narrow_filter param test results :
  Server.narrow param test results = filter (fun p => asks param test p = true) results.
Proof.
  unfold Server.narrow, asks. destruct param as [[|a v]|]; simpl.
  - induction results as [|x l IH]; [done|]. by rewrite filter_cons, decide_True, <- IH.
  - done.
  - induction results as [|x l IH]; [done|]. by rewrite filter_cons, decide_True, <- IH.
Qed.

Lemma filter_idem {A} (P : A → Prop) `{∀ x, Decision (P x)} (l : list A) :
  filter P (filter P l) = filter P l.
Proof.
  induction l as [|x l IH]; [done|]. rewrite filter_cons.
  destruct (decide (P x)) as [Hx|Hx]; [|done].
  by rewrite filter_cons, decide_True, IH.
Qed.

Lemma filter_both {A} (f g : A → bool) (l : list A) :
  filter (fun p => g p = true) (filter (fun p => f p = true) l)
  = filter (fun p => f p && g p = true) l.
Proof.
  induction l as [|x l IH]; [done|].
  rewrite (filter_cons (fun p => f p = true)), (filter_cons (fun p => f p && g p = true)).
  destruct (decide (f x = true)) as [Hf|Hf].
  - rewrite filter_cons, IH. rewrite Hf. cbn [andb]. by destruct (decide (g x = true)).
  - apply not_true_is_false in Hf. rewrite IH, decide_False; [done|]. by rewrite Hf.
Qed.

Lemma search_filter (sectionProfile : list Entry.t) (qu : Server.query) :
  Server.search sectionProfile qu = filter (fun p => passes qu p = true) sectionProfile.
Proof.
  unfold Server.search, passes. rewrite !narrow_filter, !filter_both.
  apply list_filter_iff. intros p. by rewrite !andb_assoc.
Qed.

(** The search of Section Profile entries ([GET /api/data/:id/search]).
    The results are entries of the stored profile, in their order; with no
    parameter, or only empty ones, they are the whole profile; a
    [minLength] or [maxLength] that is not empty and is not a number gives
    no result; the text [q] is compared in lower case, so its case does
    not matter; and searching the results again with the same query
    returns them unchanged. *)
Theorem search_results (sectionProfile : list Entry.t) (qu : Server.query) :
  sublist (Server.search sectionProfile qu) sectionProfile
  ∧ (Js.truthy (Server.q qu) = false → Js.truthy (Server.material qu) = false →
     Js.truthy (Server.minLength qu) = false → Js.truthy (Server.maxLength qu) = false →
     Server.search sectionProfile qu = sectionProfile)
  ∧ (∀ v, Server.minLength qu = Some v ∨ Server.maxLength qu = Some v →
          v ≠ "" → Js.parseFloat v = Js.NaN →
          Server.search sectionProfile qu = [])
  ∧ (∀ v, Server.q qu = Some v →
          Server.search sectionProfile qu
          = Server.search sectionProfile
              (Server.Query (Some (Server.toLowerCase v)) (Server.material qu)
                            (Server.minLength qu) (Server.maxLength qu)))
  ∧ Server.search (Server.search sectionProfile qu) qu = Server.search sectionProfile qu.
Proof.
  destruct qu as [q m lo hi]. unfold Server.search. cbn [Server.q Server.material
    Server.minLength Server.maxLength].
  split; [|split; [|split; [|split]]].
  - repeat (etrans; [apply narrow_sublist|]). done.
  - intros Hq Hm Hlo Hhi. unfold Server.narrow. rewrite Hq, Hm, Hlo, Hhi.
    by destruct q, m, lo, hi.
  - intros v [->| ->] Hv Hnan.
    + assert (∀ l, Server.narrow (Some v)
                (fun v p => Js.le (Js.parseFloat v) (Entry.totalLength p)) l = []) as ->.
      { intros l. unfold Server.narrow. rewrite (proj2 (truthy_Some v) Hv), Hnan.
        induction l as [|x l IH]; [done|]. by rewrite filter_cons, decide_False. }
      apply narrow_nil.
    + unfold Server.narrow at 1. rewrite (proj2 (truthy_Some v) Hv), Hnan.
      match goal with |- filter _ ?l = [] => generalize l end.
      intros l. induction l as [|x l IH]; [done|].
      rewrite filter_cons, decide_False; [done|]. by rewrite le_NaN_r.
  - intros v ->. unfold Server.narrow at 4 8.
    assert (Js.truthy (Some (Server.toLowerCase v)) = Js.truthy (Some v)) as ->
      by (by destruct v).
    by rewrite toLowerCase_idem.
  - rewrite !narrow_filter, !filter_both. apply list_filter_iff. intros p.
    destruct (asks q _ p), (asks m _ p), (asks lo _ p), (asks hi _ p); done.
Qed.

End Search.
